(** * Month layout of calendar_to_discord: grid, normalisation, slot allocation

    Shallow embedding of the layout part of [src/image_generator.py]
    ([_to_date], [_prepare_events], [find_slot] and the segment loop and the
    title truncation of [generate_month_image]) together with the parts of
    Python's [datetime] and [calendar] modules that this code calls.

    Integers are [Z]; Python's [//] and [%] with a positive divisor are
    [Z.div] and [Z.modulo].  A raised exception is the [Raise] constructor of
    [result].  Drawing (fonts, colours, pixels) is not modelled. *)

From Stdlib Require Import ZArith Lia Bool String Ascii.
From stdpp Require Import base tactics option list.

Local Open Scope Z_scope.

(** ** Exceptions *)

Inductive exn : Set :=
| ValueError | TypeError | OverflowError | IndexError | IllegalMonthError.

Inductive result (A : Type) : Type :=
| Ok (a : A)
| Raise (e : exn).
Arguments Ok {A} a.
Arguments Raise {A} e.

#[global] Instance result_ret : MRet result := fun A a => Ok a.
#[global] Instance result_bind : MBind result := fun A B f r =>
  match r with
  | Ok a => f a
  | Raise e => Raise e
  end.
#[global] Instance result_fmap : FMap result := fun A B f r =>
  match r with
  | Ok a => Ok (f a)
  | Raise e => Raise e
  end.

(** [try: r except Exception: h] *)
Definition try_except {A} (r : result A) (h : exn -> result A) : result A :=
  match r with
  | Ok a => Ok a
  | Raise e => h e
  end.

Definition is_ok {A} (r : result A) : bool :=
  match r with Ok _ => true | Raise _ => false end.

(** ** Python's [datetime.date] *)

Module datetime.

Definition MINYEAR : Z := 1.
Definition MAXYEAR : Z := 9999.

Definition _DAYS_IN_MONTH (m : Z) : Z :=
  match m with
  | 1 => 31 | 2 => 28 | 3 => 31 | 4 => 30 | 5 => 31 | 6 => 30
  | 7 => 31 | 8 => 31 | 9 => 30 | 10 => 31 | 11 => 30 | 12 => 31
  | _ => -1
  end.

Definition _DAYS_BEFORE_MONTH (m : Z) : Z :=
  match m with
  | 1 => 0 | 2 => 31 | 3 => 59 | 4 => 90 | 5 => 120 | 6 => 151
  | 7 => 181 | 8 => 212 | 9 => 243 | 10 => 273 | 11 => 304 | 12 => 334
  | _ => -1
  end.

Definition _is_leap (year : Z) : bool :=
  (year mod 4 =? 0) && (negb (year mod 100 =? 0) || (year mod 400 =? 0)).

Definition _days_before_year (year : Z) : Z :=
  let y := year - 1 in
  y * 365 + y / 4 - y / 100 + y / 400.

Definition _days_in_month (year month : Z) : Z :=
  if (month =? 2) && _is_leap year then 29 else _DAYS_IN_MONTH month.

Definition _days_before_month (year month : Z) : Z :=
  _DAYS_BEFORE_MONTH month + (if (month >? 2) && _is_leap year then 1 else 0).

Definition _ymd2ord (year month day : Z) : Z :=
  _days_before_year year + _days_before_month year month + day.

Definition _DI400Y : Z := 146097.
Definition _DI100Y : Z := 36524.
Definition _DI4Y : Z := 1461.
Definition _MAXORDINAL : Z := 3652059.

(** A date object: the three fields the C and the Python implementation
    store. *)
Record date : Set := mkdate { year : Z; month : Z; day : Z }.

Definition _ord2ymd (n : Z) : date :=
  let n := n - 1 in
  let n400 := n / _DI400Y in
  let n := n mod _DI400Y in
  let year := n400 * 400 + 1 in
  let n100 := n / _DI100Y in
  let n := n mod _DI100Y in
  let n4 := n / _DI4Y in
  let n := n mod _DI4Y in
  let n1 := n / 365 in
  let n := n mod 365 in
  let year := year + n100 * 100 + n4 * 4 + n1 in
  if (n1 =? 4) || (n100 =? 4) then mkdate (year - 1) 12 31
  else
    let leapyear := (n1 =? 3) && (negb (n4 =? 24) || (n100 =? 3)) in
    let month := Z.shiftr (n + 50) 5 in
    let preceding :=
      _DAYS_BEFORE_MONTH month + (if (month >? 2) && leapyear then 1 else 0) in
    if preceding >? n then
      let month := month - 1 in
      let preceding :=
        preceding
        - (_DAYS_IN_MONTH month + (if (month =? 2) && leapyear then 1 else 0)) in
      mkdate year month (n - preceding + 1)
    else mkdate year month (n - preceding + 1).

(** [_check_date_fields] as a boolean: what [date(y, m, d)] accepts. *)
Definition _check_date_fields (year month day : Z) : bool :=
  (MINYEAR <=? year) && (year <=? MAXYEAR)
  && (1 <=? month) && (month <=? 12)
  && (1 <=? day) && (day <=? _days_in_month year month).

(** An argument that fits a C [int]: the constructor of [date] converts its
    arguments to C [int]s before it checks their ranges. *)
Definition fits_c_int (n : Z) : bool :=
  (- 2 ^ 31 <=? n) && (n <=? 2 ^ 31 - 1).

(** [date(year, month, day)]: [OverflowError] for an argument that does not
    fit a C [int], [ValueError] for one out of range. *)
Definition new (year month day : Z) : result date :=
  if fits_c_int year && fits_c_int month && fits_c_int day then
    if _check_date_fields year month day then Ok (mkdate year month day)
    else Raise ValueError
  else Raise OverflowError.

Definition valid (d : date) : Prop :=
  _check_date_fields (year d) (month d) (day d) = true.

Definition toordinal (d : date) : Z := _ymd2ord (year d) (month d) (day d).

Definition fromordinal (n : Z) : date := _ord2ymd n.

(** [_cmp] on the tuples [(year, month, day)] *)
Definition _cmp (a b : date) : comparison :=
  match year a ?= year b with
  | Eq => match month a ?= month b with
          | Eq => day a ?= day b
          | c => c
          end
  | c => c
  end.

Definition ltb (a b : date) : bool := match _cmp a b with Lt => true | _ => false end.
Definition leb (a b : date) : bool := match _cmp a b with Gt => false | _ => true end.
Definition gtb (a b : date) : bool := match _cmp a b with Gt => true | _ => false end.
Definition geb (a b : date) : bool := match _cmp a b with Lt => false | _ => true end.

(** [d + timedelta(days=n)] *)
Definition add_days (d : date) (n : Z) : result date :=
  let o := toordinal d + n in
  if (0 <? o) && (o <=? _MAXORDINAL) then Ok (fromordinal o)
  else Raise OverflowError.

(** [d - timedelta(days=n)] is [d + timedelta(-n)] *)
Definition sub_days (d : date) (n : Z) : result date := add_days d (- n).

(** [(a - b).days] *)
Definition diff_days (a b : date) : Z := toordinal a - toordinal b.

(** [d.weekday()]: Monday is 0, Sunday is 6 *)
Definition weekday (d : date) : Z := (toordinal d + 6) mod 7.

(** Python's [max(a, b)] and [min(a, b)]: the first argument wins a tie. *)
Definition max (a b : date) : date := if gtb b a then b else a.
Definition min (a b : date) : date := if ltb b a then b else a.

(** A [datetime.datetime] object (the time zone plays no part here). *)
Record datetime : Set := mkdatetime {
  dt_year : Z; dt_month : Z; dt_day : Z;
  dt_hour : Z; dt_minute : Z; dt_second : Z; dt_microsecond : Z
}.

(** [dt.date()] *)
Definition datetime_date (dt : datetime) : date :=
  mkdate (dt_year dt) (dt_month dt) (dt_day dt).

End datetime.

Abbreviation date := datetime.date.

(** ** Python lists and loops *)

(** [range(a, b)] *)
Definition range (a b : Z) : list Z := seqZ a (b - a).

(** [len(l)] *)
Definition len {A} (l : list A) : Z := Z.of_nat (length l).

(** The position [l[i]] denotes, with Python's negative indices *)
Definition resolve_index {A} (l : list A) (i : Z) : result nat :=
  let n := len l in
  let i := if i <? 0 then i + n else i in
  if (i <? 0) || (n <=? i) then Raise IndexError else Ok (Z.to_nat i).

(** [l[i]] *)
Definition getitem {A} (l : list A) (i : Z) : result A :=
  k ← resolve_index l i;
  match l !! k with
  | Some x => Ok x
  | None => Raise IndexError
  end.

(** [l[i].append(x)] on a list of lists: row [i] is extended in place *)
Definition append_at {A} (l : list (list A)) (i : Z) (x : A)
  : result (list (list A)) :=
  k ← resolve_index l i;
  match l !! k with
  | Some row => Ok (<[ k := row ++ [x] ]> l)
  | None => Raise IndexError
  end.

(** [enumerate(l)] *)
Fixpoint enumerate_from {A} (i : Z) (l : list A) : list (Z * A) :=
  match l with
  | [] => []
  | x :: l => (i, x) :: enumerate_from (i + 1) l
  end.
Definition enumerate {A} (l : list A) : list (Z * A) := enumerate_from 0 l.

(** [for x in l: st = body(st, x)], stopping at the first exception *)
Fixpoint for_each {S A} (body : S -> A -> result S) (st : S) (l : list A)
  : result S :=
  match l with
  | [] => Ok st
  | x :: l => st' ← body st x; for_each body st' l
  end.

(** [range(a, b, step)] for a positive [step] *)
Definition range_step (a b step : Z) : list Z :=
  (fun k => a + step * k) <$> seqZ 0 ((b - a + step - 1) / step).

(** [l[i:j]] for [0 <= i]; the end is clamped to the length of [l] *)
Definition slice {A} (l : list A) (i j : Z) : list A :=
  take (Z.to_nat (j - i)) (drop (Z.to_nat i) l).

(** ** Python's [calendar] module *)

Module calendar.

Definition mdays (m : Z) : Z :=
  match m with
  | 1 => 31 | 2 => 28 | 3 => 31 | 4 => 30 | 5 => 31 | 6 => 30
  | 7 => 31 | 8 => 31 | 9 => 30 | 10 => 31 | 11 => 30 | 12 => 31
  | _ => 0
  end.

Definition isleap (year : Z) : bool :=
  (year mod 4 =? 0) && (negb (year mod 100 =? 0) || (year mod 400 =? 0)).

Definition weekday (year month day : Z) : result Z :=
  let year :=
    if (datetime.MINYEAR <=? year) && (year <=? datetime.MAXYEAR) then year
    else 2000 + year mod 400 in
  d ← datetime.new year month day;
  mret (datetime.weekday d).

Definition monthrange (year month : Z) : result (Z * Z) :=
  if negb ((1 <=? month) && (month <=? 12)) then Raise IllegalMonthError
  else
    day1 ← weekday year month 1;
    let ndays := mdays month + (if (month =? 2) && isleap year then 1 else 0) in
    mret (day1, ndays).

Definition _prevmonth (year month : Z) : Z * Z :=
  if month =? 1 then (year - 1, 12) else (year, month - 1).

Definition _nextmonth (year month : Z) : Z * Z :=
  if month =? 12 then (year + 1, 1) else (year, month + 1).

Definition _monthlen (year month : Z) : Z :=
  mdays month + (if (month =? 2) && isleap year then 1 else 0).

(** The methods of [Calendar(firstweekday)] *)
Definition itermonthdays3 (firstweekday year month : Z)
  : result (list (Z * Z * Z)) :=
  '(day1, ndays) ← monthrange year month;
  let days_before := (day1 - firstweekday) mod 7 in
  let days_after := (firstweekday - day1 - ndays) mod 7 in
  let '(y, m) := _prevmonth year month in
  let end_ := _monthlen y m + 1 in
  let before := (fun d => (y, m, d)) <$> range (end_ - days_before) end_ in
  let inside := (fun d => (year, month, d)) <$> range 1 (ndays + 1) in
  let '(y, m) := _nextmonth year month in
  let after := (fun d => (y, m, d)) <$> range 1 (days_after + 1) in
  mret (before ++ inside ++ after).

Definition itermonthdates (firstweekday year month : Z) : result (list date) :=
  l ← itermonthdays3 firstweekday year month;
  mapM (fun '(y, m, d) => datetime.new y m d) l.

Definition monthdatescalendar (firstweekday year month : Z)
  : result (list (list date)) :=
  dates ← itermonthdates firstweekday year month;
  mret ((fun i => slice dates i (i + 7)) <$> range_step 0 (len dates) 7).

End calendar.

(** ** [src/image_generator.py] *)

(** A Python [str]: a sequence of code points. *)
Definition pystr : Set := list N.

Definition str (s : string) : pystr :=
  N_of_ascii <$> list_ascii_of_string s.

(** The values an event's ['start'] and ['end'] can hold.  [PyNone] is also
    what [ev.get(key)] gives when the key is missing. *)
Inductive pyobj : Set :=
| PyDate (d : date)
| PyDateTime (dt : datetime.datetime)
| PyStr (s : pystr)
| PyInt (z : Z)
| PyNone.

(** The two string parsers of the [datetime] module that [_to_date] calls.
    What they accept differs between Python versions; a date they return is
    a date object, hence has passed [_check_date_fields]. *)
Class IsoFormat := {
  date_fromisoformat : pystr -> result date;
  datetime_fromisoformat : pystr -> result datetime.datetime;
  date_fromisoformat_valid s d :
    date_fromisoformat s = Ok d -> datetime.valid d;
  datetime_fromisoformat_valid s dt :
    datetime_fromisoformat s = Ok dt -> datetime.valid (datetime.datetime_date dt)
}.

Definition _to_date `{IsoFormat} (obj : pyobj) : result date :=
  match obj with
  | PyDate d => Ok d
  | PyDateTime dt => Ok (datetime.datetime_date dt)
  | PyStr s =>
      try_except (date_fromisoformat s) (fun _ =>
        try_except (datetime.datetime_date <$> datetime_fromisoformat s) (fun _ =>
          Raise ValueError))
  | _ => Raise TypeError
  end.

(** An event dict as the event source builds it; [None] in [raw_summary] and
    [raw_color_id] is a missing key. *)
Record raw_event : Set := {
  raw_summary : option pystr;
  raw_start : pyobj;
  raw_end : pyobj;
  raw_color_id : option pystr
}.

(** An entry of the list [_prepare_events] returns. *)
Record prepared_event : Set := {
  summary : pystr;
  start_date : date;
  end_date : date;
  color_id : option pystr
}.

(** The body of the loop of [_prepare_events]: one event, appended to
    [prepared] or skipped. *)
Definition prepare_event `{IsoFormat} (first_of_month last_of_month : date)
    (prepared : list prepared_event) (ev : raw_event)
  : result (list prepared_event) :=
  match (s ← _to_date (raw_start ev); e ← _to_date (raw_end ev); mret (s, e)) with
  | Raise exc => Ok prepared
  | Ok (s, e) =>
      e_inclusive ← (if datetime.gtb e s then datetime.sub_days e 1 else Ok e);
      let ev_start := datetime.max s first_of_month in
      let ev_end := datetime.min e_inclusive last_of_month in
      if datetime.leb ev_start last_of_month && datetime.geb ev_end first_of_month
      then Ok (prepared ++ [ {| summary := default (str "(No title)") (raw_summary ev);
                                start_date := ev_start;
                                end_date := ev_end;
                                color_id := raw_color_id ev |} ])
      else Ok prepared
  end.

Definition _prepare_events `{IsoFormat} (events : list raw_event) (year month : Z)
  : result (list prepared_event) :=
  first_of_month ← datetime.new year month 1;
  first_next_month ←
    (if month =? 12 then datetime.new (year + 1) 1 1
     else datetime.new year (month + 1) 1);
  last_of_month ← datetime.sub_days first_next_month 1;
  for_each (prepare_event first_of_month last_of_month) [] events.

(** A segment dict of [week_segments]. *)
Record segment : Set := {
  start_col : Z;
  end_col : Z;
  span : Z;
  slot : Z;
  seg_summary : pystr;
  seg_color_id : option pystr
}.

(** The inner loop of [find_slot]: [true] when a segment of [slot] overlaps
    the columns [start_col .. end_col]. *)
Fixpoint slot_overlap (segments_for_week : list segment)
    (slot_ start_col_ end_col_ : Z) : bool :=
  match segments_for_week with
  | [] => false
  | seg :: rest =>
      if negb (slot seg =? slot_) then
        slot_overlap rest slot_ start_col_ end_col_
      else if negb ((end_col_ <? start_col seg) || (start_col_ >? end_col seg))
      then true
      else slot_overlap rest slot_ start_col_ end_col_
  end.

Fixpoint find_slot_in (segments_for_week : list segment)
    (start_col_ end_col_ : Z) (slots : list Z) : option Z :=
  match slots with
  | [] => None
  | slot_ :: slots =>
      if negb (slot_overlap segments_for_week slot_ start_col_ end_col_)
      then Some slot_
      else find_slot_in segments_for_week start_col_ end_col_ slots
  end.

Definition find_slot (segments_for_week : list segment)
    (start_col_ end_col_ : Z) (max_slots : Z) : option Z :=
  find_slot_in segments_for_week start_col_ end_col_ (range 0 max_slots).

(** The body of the loop over [enumerate(month_weeks)] for one event.  The
    rows of [week_segments] are separate lists, so appending to row [wi]
    changes no other row. *)
Definition place_segment (ev : prepared_event)
    (week_segments : list (list segment)) (wi_week : Z * list date)
  : result (list (list segment)) :=
  let '(wi, week) := wi_week in
  let ev_s := start_date ev in
  let ev_e := end_date ev in
  week_start ← getitem week 0;
  week_end ← getitem week (-1);
  let seg_start := datetime.max ev_s week_start in
  let seg_end := datetime.min ev_e week_end in
  if datetime.leb seg_start seg_end then
    let start_col_ := datetime.diff_days seg_start week_start in
    let span_ := datetime.diff_days seg_end seg_start + 1 in
    let end_col_ := start_col_ + span_ - 1 in
    segments_for_week ← getitem week_segments wi;
    match find_slot segments_for_week start_col_ end_col_ 3 with
    | None => Ok week_segments
    | Some slot_ =>
        append_at week_segments wi
          {| start_col := start_col_;
             end_col := end_col_;
             span := span_;
             slot := slot_;
             seg_summary := summary ev;
             seg_color_id := color_id ev |}
    end
  else Ok week_segments.

(** The loop "build segments" of [generate_month_image]. *)
Definition build_segments (month_weeks : list (list date))
    (prepared_events : list prepared_event) : result (list (list segment)) :=
  for_each
    (fun week_segments ev =>
       for_each (place_segment ev) week_segments (enumerate month_weeks))
    (replicate (length month_weeks) [])
    prepared_events.

(** The layout computed by [generate_month_image]: the week rows and the
    segments of each row. *)
Definition generate_month_image `{IsoFormat} (year month : Z)
    (events : list raw_event)
  : result (list (list date) * list (list segment)) :=
  month_weeks ← calendar.monthdatescalendar 6 year month;
  prepared_events ← _prepare_events events year month;
  week_segments ← build_segments month_weeks prepared_events;
  mret (month_weeks, week_segments).

(** The text drawn in a pill. *)
Definition pill_text (summary_ : pystr) : pystr :=
  let text := summary_ in
  let max_chars := 20 in
  if len text >? max_chars then slice text 0 (max_chars - 3) ++ str "..."
  else text.

(** The test [is_current_month] of the drawing loop. *)
Definition is_current_month (year month : Z) (cell_date : date) : bool :=
  (datetime.month cell_date =? month) && (datetime.year cell_date =? year).

(** ** An instance of the parsers for the examples

    The date-only form [YYYY-MM-DD], which both [date.fromisoformat] and
    [datetime.fromisoformat] accept in every Python version that has them.
    This instance rejects every other string. *)

Definition digit (c : N) : option Z :=
  if ((48 <=? c) && (c <=? 57))%N then Some (Z.of_N c - 48) else None.

Definition parse_ymd (s : pystr) : option (Z * Z * Z) :=
  match s with
  | [y1; y2; y3; y4; 45%N; m1; m2; 45%N; d1; d2] =>
      y1 ← digit y1; y2 ← digit y2; y3 ← digit y3; y4 ← digit y4;
      m1 ← digit m1; m2 ← digit m2; d1 ← digit d1; d2 ← digit d2;
      Some (1000 * y1 + 100 * y2 + 10 * y3 + y4, 10 * m1 + m2, 10 * d1 + d2)
  | _ => None
  end.

Definition parse_date (s : pystr) : result date :=
  match parse_ymd s with
  | Some (y, m, d) => datetime.new y m d
  | None => Raise ValueError
  end.

Definition parse_datetime (s : pystr) : result datetime.datetime :=
  d ← parse_date s;
  mret (datetime.mkdatetime (datetime.year d) (datetime.month d) (datetime.day d)
          0 0 0 0).

#[export] Instance iso_date_only : IsoFormat.
Proof.
  refine {| date_fromisoformat := parse_date;
            datetime_fromisoformat := parse_datetime |}.
  - intros s d. unfold parse_date, datetime.new, datetime.valid.
    destruct (parse_ymd s) as [[[y m] dd]|]; [|discriminate].
    destruct (_ && _ && _); [|discriminate].
    destruct (datetime._check_date_fields y m dd) eqn:E; [|discriminate].
    intros [= <-]. exact E.
  - intros s dt. unfold parse_datetime, parse_date, datetime.new, datetime.valid.
    destruct (parse_ymd s) as [[[y m] dd]|]; [|discriminate].
    destruct (_ && _ && _); [|discriminate].
    destruct (datetime._check_date_fields y m dd) eqn:E; [|discriminate].
    intros [= <-]. exact E.
Defined.

(** ** Notions used in the statements *)

(** *** Dates *)

(** The order of date objects, as a proposition. *)
Definition date_lt (a b : date) : Prop :=
  datetime.year a < datetime.year b \/
  (datetime.year a = datetime.year b /\
   (datetime.month a < datetime.month b \/
    (datetime.month a = datetime.month b /\ datetime.day a < datetime.day b))).

Definition date_le (a b : date) : Prop := ~ date_lt b a.

Definition days_in_year (y : Z) : Z := if datetime._is_leap y then 366 else 365.

(** The last part of [_ord2ymd]: month and day of the [n]-th day (from 0)
    of a year. *)
Definition month_day (leapyear : bool) (n : Z) : Z * Z :=
  let month := Z.shiftr (n + 50) 5 in
  let preceding :=
    datetime._DAYS_BEFORE_MONTH month
    + (if (month >? 2) && leapyear then 1 else 0) in
  if preceding >? n then
    let month := month - 1 in
    let preceding :=
      preceding
      - (datetime._DAYS_IN_MONTH month
         + (if (month =? 2) && leapyear then 1 else 0)) in
    (month, n - preceding + 1)
  else (month, n - preceding + 1).

(** [month_day] gives a day of a month, and the right one. *)
Definition month_day_ok (leapyear : bool) (n : Z) : bool :=
  let '(m, d) := month_day leapyear n in
  (1 <=? m) && (m <=? 12) && (1 <=? d)
  && (d <=? (if (m =? 2) && leapyear then 29 else datetime._DAYS_IN_MONTH m))
  && (datetime._DAYS_BEFORE_MONTH m
      + (if (m >? 2) && leapyear then 1 else 0) + d =? n + 1).

(** The first and the last day of a month. *)
Definition first_of_month (year month : Z) : date :=
  datetime.mkdate year month 1.
Definition last_of_month (year month : Z) : date :=
  datetime.mkdate year month (datetime._days_in_month year month).

(** The months [generate_month_image] can lay out: [month] is in 1..12 and
    the month before and the month after, of which the grid shows days, are
    within the years a date object can hold.  (For January of year 1 and
    December of year 9999 [monthdatescalendar] raises [ValueError].) *)
Definition valid_year_month (year month : Z) : Prop :=
  1 <= month <= 12 /\
  datetime.MINYEAR <= fst (calendar._prevmonth year month) /\
  fst (calendar._nextmonth year month) <= datetime.MAXYEAR.

(** The days of a month, in order. *)
Definition month_days (year month : Z) : list date :=
  datetime.mkdate year month <$> seqZ 1 (datetime._days_in_month year month).

(** The dates of the grid of a month: the last [days_before] days of the
    month before, the days of the month, the first [days_after] days of the
    month after. *)
Definition grid_dates (year month : Z) : list date :=
  let day1 := datetime.weekday (first_of_month year month) in
  let ndays := datetime._days_in_month year month in
  let days_before := (day1 - 6) mod 7 in
  let days_after := (6 - day1 - ndays) mod 7 in
  let '(yp, mp) := calendar._prevmonth year month in
  let '(yn, mn) := calendar._nextmonth year month in
  (datetime.mkdate yp mp
     <$> seqZ (datetime._days_in_month yp mp + 1 - days_before) days_before)
  ++ month_days year month
  ++ (datetime.mkdate yn mn <$> seqZ 1 days_after).

(** *** Events *)

(** Date objects inside an event are valid dates. *)
Definition wf_obj (obj : pyobj) : Prop :=
  match obj with
  | PyDate d => datetime.valid d
  | PyDateTime dt => datetime.valid (datetime.datetime_date dt)
  | _ => True
  end.

Definition wf_event (ev : raw_event) : Prop :=
  wf_obj (raw_start ev) /\ wf_obj (raw_end ev).

(** The event's start or end is not a date [_to_date] understands. *)
Definition malformed `{IsoFormat} (ev : raw_event) : Prop :=
  is_ok (_to_date (raw_start ev)) && is_ok (_to_date (raw_end ev)) = false.

(** The entry [_prepare_events] appends for an event with start [s] and
    inclusive end [e_inclusive], and the test under which it appends it. *)
Definition entry (first last : date) (ev : raw_event) (s e_inclusive : date)
  : prepared_event :=
  {| summary := default (str "(No title)") (raw_summary ev);
     start_date := datetime.max s first;
     end_date := datetime.min e_inclusive last;
     color_id := raw_color_id ev |}.

Definition in_month (first last s e_inclusive : date) : bool :=
  datetime.leb (datetime.max s first) last
  && datetime.geb (datetime.min e_inclusive last) first.

(** *** Segments *)

(** The column ranges [[a, b]] and [[c, d]] overlap. *)
Definition overlaps (a b c d : Z) : Prop := ~ (b < c \/ a > d).

Definition seg_overlap (s1 s2 : segment) : Prop :=
  overlaps (start_col s1) (end_col s1) (start_col s2) (end_col s2).

(** Slot [k] is free for the columns [[a, b]]: no segment of [segs] in slot
    [k] overlaps them. *)
Definition eligible (segs : list segment) (k a b : Z) : Prop :=
  forall seg, seg ∈ segs -> slot seg = k ->
    ~ overlaps a b (start_col seg) (end_col seg).

(** The rows the allocator can build: segments appended one at a time, each
    in the slot [find_slot] returned for it. *)
Inductive placed : list segment -> Prop :=
| placed_nil : placed []
| placed_snoc segs s :
    placed segs ->
    find_slot segs (start_col s) (end_col s) 3 = Some (slot s) ->
    placed (segs ++ [s]).

(** Segment [s] covers the day column [c]. *)
Definition covers (c : Z) (s : segment) : bool :=
  (start_col s <=? c) && (c <=? end_col s).

(** The segment dict built for [ev] at column [a], spanning [n] days, in
    slot [k]. *)
Definition segment_of (ev : prepared_event) (a n k : Z) : segment :=
  {| start_col := a; end_col := a + n - 1; span := n; slot := k;
     seg_summary := summary ev; seg_color_id := color_id ev |}.

(** What the loop body does to the row of one week, as a function of that
    row alone: the row is unchanged or gets one more segment. *)
Definition row_step (week : list date) (segs : list segment)
    (ev : prepared_event) : list segment :=
  match head week, last week with
  | Some week_start, Some week_end =>
      let seg_start := datetime.max (start_date ev) week_start in
      let seg_end := datetime.min (end_date ev) week_end in
      if datetime.leb seg_start seg_end then
        let a := datetime.diff_days seg_start week_start in
        let n := datetime.diff_days seg_end seg_start + 1 in
        match find_slot segs a (a + n - 1) 3 with
        | Some k => segs ++ [segment_of ev a n k]
        | None => segs
        end
      else segs
  | _, _ => segs
  end.

(** ** Data for the examples *)

Definition ymd (y m d : Z) : date := datetime.mkdate y m d.

(** An all-day event as the event source delivers it: date strings. *)
Definition all_day (title start end_ : string) : raw_event :=
  {| raw_summary := Some (str title);
     raw_start := PyStr (str start);
     raw_end := PyStr (str end_);
     raw_color_id := None |}.

Definition one_day (title : string) (d : date) : prepared_event :=
  {| summary := str title; start_date := d; end_date := d; color_id := None |}.

(** The week rows of 3 to 9 and of 10 to 16 March 2024. *)
Definition two_weeks : list (list date) :=
  [ ymd 2024 3 <$> seqZ 3 7; ymd 2024 3 <$> seqZ 10 7 ].

(** Four single-day events on Tuesday 5 March 2024. *)
Definition four_on_one_day : list prepared_event :=
  [ one_day "a" (ymd 2024 3 5); one_day "b" (ymd 2024 3 5);
    one_day "c" (ymd 2024 3 5); one_day "d" (ymd 2024 3 5) ].

(** Four single-day events on four days of the week of 3 March 2024. *)
Definition four_days : list raw_event :=
  [ all_day "a" "2024-03-04" "2024-03-04"; all_day "b" "2024-03-05" "2024-03-05";
    all_day "c" "2024-03-06" "2024-03-06"; all_day "d" "2024-03-07" "2024-03-07" ].

(** A prepared event that ends before it starts. *)
Definition reversed : prepared_event :=
  {| summary := str "r"; start_date := ymd 2024 3 10; end_date := ymd 2024 3 5;
     color_id := None |}.

(** A title of 30 characters. *)
Definition long_title : pystr := str "abcdefghijklmnopqrstuvwxyz0123".

(** ** Further notions: segments and their events *)

(** [week] is a row of seven valid dates, consecutive from the ordinal [a]. *)
Definition week_from (a : Z) (week : list date) : Prop :=
  Forall datetime.valid week /\ datetime.toordinal <$> week = seqZ a 7.

Definition valid_prepared (ev : prepared_event) : Prop :=
  datetime.valid (start_date ev) /\ datetime.valid (end_date ev).

(** [s] is the segment the loop body builds for [ev] in [week], in some
    slot. *)
Definition segment_from (week : list date) (ev : prepared_event) (s : segment)
  : Prop :=
  exists week_start week_end k,
    head week = Some week_start /\ last week = Some week_end /\
    let seg_start := datetime.max (start_date ev) week_start in
    let seg_end := datetime.min (end_date ev) week_end in
    datetime.leb seg_start seg_end = true /\
    s = segment_of ev (datetime.diff_days seg_start week_start)
                      (datetime.diff_days seg_end seg_start + 1) k.

(** The inclusive end [_prepare_events] computes for an event from [s] to
    [e]. *)
Definition inclusive_end (s e : date) : date :=
  if datetime.gtb e s then datetime.fromordinal (datetime.toordinal e - 1)
  else e.

(** The title of the entry of an event. *)
Definition entry_summary (ev : raw_event) : pystr :=
  default (str "(No title)") (raw_summary ev).

(** What [_prepare_events] makes of one event: no entry or one. *)
Definition normalize `{IsoFormat} (first last : date) (ev : raw_event)
  : list prepared_event :=
  match _to_date (raw_start ev), _to_date (raw_end ev) with
  | Ok s, Ok e =>
      if in_month first last s (inclusive_end s e)
      then [entry first last ev s (inclusive_end s e)]
      else []
  | _, _ => []
  end.

(** The months [_prepare_events] accepts: those with a first day and a next
    month's first day that exist as date objects. *)
Definition month_has_bounds (year month : Z) : Prop :=
  datetime.MINYEAR <= year <= datetime.MAXYEAR /\ 1 <= month <= 12 /\
  ~ (year = datetime.MAXYEAR /\ month = 12).

(** ** The geometry of [generate_month_image]

    [width] and [height] are [self.width] and [self.height], read from
    [Config.IMAGE_WIDTH] and [Config.IMAGE_HEIGHT]. *)

Definition title_x : Z := 80.
Definition title_y : Z := 40.
Definition grid_start_y : Z := title_y + 80.
Definition grid_height (height : Z) : Z := height - grid_start_y - 40.
Definition grid_width (width : Z) : Z := width - 80.
Definition grid_x : Z := 40.
Definition day_width (width : Z) : Z := grid_width width / 7.
Definition header_height : Z := 50.
Definition calendar_start_y : Z := grid_start_y + header_height + 10.

(** [max(a, b)] on integers *)
Definition int_max (a b : Z) : Z := if b >? a then b else a.

Definition cell_height (height max_weeks : Z) : Z :=
  (grid_height height - header_height - 10) / int_max 6 max_weeks.

(** The top of week row [wi], where its divider line is drawn. *)
Definition row_top (height max_weeks wi : Z) : Z :=
  calendar_start_y + wi * cell_height height max_weeks.

(** The line under the last row. *)
Definition last_line_y (height max_weeks : Z) : Z :=
  calendar_start_y + max_weeks * cell_height height max_weeks.

(** The corner of the cell of column [di] in row [wi]. *)
Definition cell_x (width di : Z) : Z := grid_x + di * day_width width.
Definition cell_y (height max_weeks wi : Z) : Z :=
  calendar_start_y + wi * cell_height height max_weeks.

(** The rectangle [(pill_left, pill_top, pill_right, pill_bottom)] passed to
    [_draw_rounded_rectangle] for a segment of row [wi]. *)
Record rect : Set := mkrect { r_left : Z; r_top : Z; r_right : Z; r_bottom : Z }.

Definition pill (width height max_weeks wi : Z) (seg : segment) : rect :=
  let start_col_ := start_col seg in
  let end_col_ := end_col seg in
  let slot_ := slot seg in
  let padding_x := 6 in
  let pill_top :=
    (calendar_start_y + wi * cell_height height max_weeks) + 32 + slot_ * 34 in
  let pill_bottom := pill_top + 28 in
  let pill_left := grid_x + start_col_ * day_width width + padding_x in
  let pill_right := grid_x + (end_col_ + 1) * day_width width - padding_x in
  let min_width := 40 in
  if pill_right - pill_left <? min_width then
    let center := (pill_left + pill_right) / 2 in
    let pill_left := center - min_width / 2 in
    let pill_right := center + min_width / 2 in
    mkrect pill_left pill_top pill_right pill_bottom
  else mkrect pill_left pill_top pill_right pill_bottom.

(** Where the text is drawn in a pill, for a text box of width [text_w] and
    height [text_h] (what [draw.textbbox] reports for the font). *)
Definition text_x (p : rect) (text_w : Z) : Z :=
  r_left p + (r_right p - r_left p - text_w) / 2.
Definition text_y (p : rect) (text_h : Z) : Z :=
  r_top p + (r_bottom p - r_top p - text_h) / 2.

(** Where the ink of the text is.  [tb] is what
    [draw.textbbox((0, 0), text, font)] returns: the box of the text drawn at
    the origin, whose left and top are the offsets of the ink from the drawing
    position.  The code takes [text_w] and [text_h] from [tb] and draws at
    [(text_x, text_y)], so the ink is [tb] moved by [(text_x, text_y)]. *)
Definition text_ink (p tb : rect) : rect :=
  let text_w := r_right tb - r_left tb in
  let text_h := r_bottom tb - r_top tb in
  let x := text_x p text_w in
  let y := text_y p text_h in
  {| r_left := x + r_left tb; r_top := y + r_top tb;
     r_right := x + r_right tb; r_bottom := y + r_bottom tb |}.

(** The colours of the day names and of the day numbers. *)
Inductive day_color : Set :=
| weekday_sun_color | weekday_sat_color | weekday_normal_color
| other_month_gray.

Definition weekdays : list string :=
  ["SUN"; "MON"; "TUE"; "WED"; "THU"; "FRI"; "SAT"]%string.

(** The colour of a day name of the header. *)
Definition header_day_color (day : string) : day_color :=
  if String.eqb day "SUN" then weekday_sun_color
  else if String.eqb day "SAT" then weekday_sat_color
  else weekday_normal_color.

(** The colour of the day number of a cell. *)
Definition date_color (year month : Z) (cell_date : date) : day_color :=
  if is_current_month year month cell_date then
    let wd := datetime.weekday cell_date in
    if wd =? 6 then weekday_sun_color
    else if wd =? 5 then weekday_sat_color
    else weekday_normal_color
  else other_month_gray.

(** The week rows of March 2024 and the segment rows of [four_days]. *)
Definition march_2024_weeks : list (list date) :=
  match calendar.monthdatescalendar 6 2024 3 with
  | Ok weeks => weeks
  | Raise _ => []
  end.

Definition four_days_rows : list (list segment) :=
  match generate_month_image 2024 3 four_days with
  | Ok (_, wsegs) => wsegs
  | Raise _ => []
  end.

(** ** Colours ([image_generator.py], [_hex_to_rgb]) *)

(** [int(s, 16)] of Python, as a parameter of the model. *)
Class Base16 := int16 : pystr -> result Z.

(** [s.lstrip('#')]. *)
Fixpoint lstrip_hash (s : pystr) : pystr :=
  match s with
  | c :: s' => if N.eqb c 35 then lstrip_hash s' else s
  | [] => []
  end.

Definition _hex_to_rgb `{Base16} (hex_color : pystr) : result (Z * Z * Z) :=
  let hex_color := lstrip_hash hex_color in
  r ← int16 (slice hex_color 0 (0 + 2));
  g ← int16 (slice hex_color 2 (2 + 2));
  b ← int16 (slice hex_color 4 (4 + 2));
  mret (r, g, b).

(** A reading of [int(s, 16)] for the strings of two hexadecimal digits,
    which is all the colours of the program need; it rejects every other
    string. *)
Definition hex_digit (c : N) : option Z :=
  if ((48 <=? c) && (c <=? 57))%N then Some (Z.of_N c - 48)
  else if ((65 <=? c) && (c <=? 70))%N then Some (Z.of_N c - 55)
  else if ((97 <=? c) && (c <=? 102))%N then Some (Z.of_N c - 87)
  else None.

Definition hex_pair : Base16 := fun s =>
  match s with
  | [h; l] =>
      match hex_digit h, hex_digit l with
      | Some h, Some l => Ok (16 * h + l)
      | _, _ => Raise ValueError
      end
  | _ => Raise ValueError
  end.

(** ** The calendar service ([calendar_service.py]) *)

(** The ['start'] and ['end'] objects of an event of the calendar API, with
    the two keys the code reads; [None] is a missing key. *)
Record time_dict : Set := {
  td_dateTime : option pystr;
  td_date : option pystr
}.

Definition empty_time_dict : time_dict :=
  {| td_dateTime := None; td_date := None |}.

(** An event of the calendar API, with the keys [_format_event] reads. *)
Record api_event : Set := {
  api_id : option pystr;
  api_summary : option pystr;
  api_description : option pystr;
  api_start : option time_dict;
  api_end : option time_dict;
  api_location : option pystr;
  api_colorId : option pystr
}.

(** The dict [_format_event] returns. *)
Record formatted_event : Set := {
  fe_id : option pystr;
  fe_summary : pystr;
  fe_description : pystr;
  fe_start : datetime.datetime;
  fe_end : datetime.datetime;
  fe_is_all_day : bool;
  fe_location : pystr;
  fe_color_id : option pystr
}.

(** [s.replace('Z', '+00:00')]. *)
Definition replace_Z (s : pystr) : pystr :=
  flat_map (fun c => if N.eqb c 90 then str "+00:00" else [c]) s.

(** The title of an event without ['summary']. *)
Definition no_title_ko : pystr := [40; 51228; 47785; 32; 50630; 51020; 41]%N.

(** A result inside [try: ... except Exception: return None]. *)
Definition or_none {A} (r : result A) : option A :=
  match r with Ok a => Some a | Raise _ => None end.

(** [_format_event]: [None] is returned for an event without times, and
    when anything raises (a missing key of ['end'], a string that does not
    parse); the logged warning is not modelled. *)
Definition _format_event `{IsoFormat} (event : api_event)
  : option formatted_event :=
  let start := default empty_time_dict (api_start event) in
  let end_ := default empty_time_dict (api_end event) in
  times ←
    match td_dateTime start with
    | Some s =>
        start_dt ← or_none (datetime_fromisoformat (replace_Z s));
        e ← td_dateTime end_;
        end_dt ← or_none (datetime_fromisoformat (replace_Z e));
        Some (start_dt, end_dt, false)
    | None =>
        match td_date start with
        | Some s =>
            start_dt ← or_none (datetime_fromisoformat s);
            e ← td_date end_;
            end_dt ← or_none (datetime_fromisoformat e);
            Some (start_dt, end_dt, true)
        | None => None
        end
    end;
  let '(start_dt, end_dt, is_all_day) := times in
  Some {| fe_id := api_id event;
          fe_summary := default no_title_ko (api_summary event);
          fe_description := default [] (api_description event);
          fe_start := start_dt;
          fe_end := end_dt;
          fe_is_all_day := is_all_day;
          fe_location := default [] (api_location event);
          fe_color_id := api_colorId event |}.

(** The loop of [get_events_for_month] over the items of the API's answer. *)
Definition format_events `{IsoFormat} (events : list api_event)
  : list formatted_event :=
  omap _format_event events.

(** A formatted event as [image_generator.py] reads it: the keys
    ['summary'], ['start'], ['end'] and ['color_id']. *)
Definition event_dict (fe : formatted_event) : raw_event :=
  {| raw_summary := Some (fe_summary fe);
     raw_start := PyDateTime (fe_start fe);
     raw_end := PyDateTime (fe_end fe);
     raw_color_id := fe_color_id fe |}.

(** The events and the layout of [post_calendar_image] ([main.py]), from the
    items the API returned. *)
Definition month_layout `{IsoFormat} (year month : Z) (items : list api_event)
  : result (list (list date) * list (list segment)) :=
  let events := event_dict <$> format_events items in
  generate_month_image year month events.

(** ** Change detection ([main.py], [check_calendar_updates]) *)

(** The truth value of an [Optional[str]]. *)
Definition truthy (s : option pystr) : bool :=
  match s with
  | Some (_ :: _) => true
  | _ => false
  end.

(** One run of [check_calendar_updates]: from the global
    [last_calendar_etag] and the ETag [get_calendar_etag] returned ([None]
    when the request failed), the new [last_calendar_etag] and whether
    [post_calendar_image] was called. *)
Definition check_calendar_updates (last_calendar_etag current_etag : option pystr)
  : option pystr * bool :=
  if truthy current_etag && truthy last_calendar_etag then
    if bool_decide (current_etag = last_calendar_etag)
    then (last_calendar_etag, false)
    else (current_etag, true)
  else (current_etag, true).

(** The checks the scheduler runs one after the other, each with the ETag it
    read: the last [last_calendar_etag] and, for each check, whether it
    posted. *)
Fixpoint scheduled_checks (last_calendar_etag : option pystr)
    (etags : list (option pystr)) : option pystr * list bool :=
  match etags with
  | [] => (last_calendar_etag, [])
  | current_etag :: etags =>
      let '(last, posted) := check_calendar_updates last_calendar_etag current_etag in
      let '(final, rest) := scheduled_checks last etags in
      (final, posted :: rest)
  end.

(** Whether each ETag of a list differs from the one before it, [prev]
    before the first. *)
Fixpoint changes (prev : option pystr) (etags : list (option pystr)) : list bool :=
  match etags with
  | [] => []
  | e :: etags => negb (bool_decide (e = prev)) :: changes e etags
  end.

(** An all-day item of the API: ['date'] strings, the end exclusive. *)
Definition api_all_day (title : option string) (start end_ : string) : api_event :=
  {| api_id := None;
     api_summary := str <$> title;
     api_description := None;
     api_start := Some {| td_dateTime := None; td_date := Some (str start) |};
     api_end := Some {| td_dateTime := None; td_date := Some (str end_) |};
     api_location := None;
     api_colorId := None |}.

(** Items for March 2024: two all-day events, the second without a title,
    and an item without times. *)
Definition march_items : list api_event :=
  [ api_all_day (Some "trip"%string) "2024-03-05" "2024-03-07";
    {| api_id := None; api_summary := Some (str "void"); api_description := None;
       api_start := None; api_end := None; api_location := None;
       api_colorId := None |};
    api_all_day None "2024-03-20" "2024-03-21" ].

Example toordinal_2024_02_29 :
  datetime.toordinal (datetime.mkdate 2024 2 29) = 738945.
Proof. reflexivity. Qed.

Example fromordinal_738946 :
  datetime.fromordinal 738946 = datetime.mkdate 2024 3 1.
Proof. reflexivity. Qed.

Example weekday_2015_02_01 :
  datetime.weekday (datetime.mkdate 2015 2 1) = 6.
Proof. reflexivity. Qed.

(** ** Facts about the date arithmetic *)

Module datetime_facts.
Import datetime.

Lemma _is_leap_true_iff y :
  _is_leap y = true <-> y mod 4 = 0 /\ (y mod 100 <> 0 \/ y mod 400 = 0).
Proof.
  unfold _is_leap.
  rewrite andb_true_iff, orb_true_iff, negb_true_iff, !Z.eqb_eq, Z.eqb_neq.
  tauto.
Qed.

Lemma _is_leap_false_iff y :
  _is_leap y = false <-> y mod 4 <> 0 \/ (y mod 100 = 0 /\ y mod 400 <> 0).
Proof.
  rewrite <- not_true_iff_false, _is_leap_true_iff. lia.
Qed.

Lemma _days_before_year_succ y :
  _days_before_year (y + 1) = _days_before_year y + days_in_year y.
Proof.
  unfold _days_before_year, days_in_year.
  replace (y + 1 - 1) with y by lia.
  destruct (_is_leap y) eqn:L.
  - apply _is_leap_true_iff in L. Z.div_mod_to_equations. lia.
  - apply _is_leap_false_iff in L. Z.div_mod_to_equations. lia.
Qed.

Lemma days_in_year_bounds y : 365 <= days_in_year y <= 366.
Proof. unfold days_in_year. destruct (_is_leap y); lia. Qed.

Lemma _days_before_year_mono a b :
  a <= b -> _days_before_year a <= _days_before_year b.
Proof.
  intros H. unfold _days_before_year. Z.div_mod_to_equations. lia.
Qed.

Lemma _days_before_year_lt a b :
  a < b -> _days_before_year a + days_in_year a <= _days_before_year b.
Proof.
  intros H. rewrite <- _days_before_year_succ.
  apply _days_before_year_mono. lia.
Qed.

Ltac month_cases m :=
  let H := fresh in
  assert (H : m = 1 \/ m = 2 \/ m = 3 \/ m = 4 \/ m = 5 \/ m = 6 \/ m = 7 \/
              m = 8 \/ m = 9 \/ m = 10 \/ m = 11 \/ m = 12) by lia;
  repeat (destruct H as [H|H]; [subst m|]); [..|subst m].

Lemma valid_fields d :
  valid d <->
  1 <= year d <= 9999 /\ 1 <= month d <= 12 /\
  1 <= day d <= _days_in_month (year d) (month d).
Proof.
  unfold valid, _check_date_fields, MINYEAR, MAXYEAR.
  rewrite !andb_true_iff, !Z.leb_le. lia.
Qed.

Lemma _days_before_month_next y m m' :
  1 <= m -> m < m' -> m' <= 12 ->
  _days_before_month y m + _days_in_month y m <= _days_before_month y m'.
Proof.
  intros H1 H2 H3. unfold _days_before_month, _days_in_month.
  destruct (_is_leap y).
  - month_cases m; month_cases m'; simpl; lia.
  - month_cases m; month_cases m'; simpl; lia.
Qed.

Lemma day_of_year_bounds y m d :
  1 <= m <= 12 -> 1 <= d <= _days_in_month y m ->
  1 <= _days_before_month y m + d <= days_in_year y.
Proof.
  intros Hm Hd. unfold _days_before_month, _days_in_month, days_in_year in *.
  destruct (_is_leap y); month_cases m; simpl in *; lia.
Qed.

Lemma toordinal_lt a b :
  valid a -> valid b -> date_lt a b -> toordinal a < toordinal b.
Proof.
  rewrite !valid_fields. unfold date_lt, toordinal, _ymd2ord.
  destruct a as [y1 m1 d1], b as [y2 m2 d2]. simpl.
  intros (Hy1 & Hm1 & Hd1) (Hy2 & Hm2 & Hd2) [Hy|[-> [Hm|[-> Hd]]]].
  - pose proof (_days_before_year_lt y1 y2 Hy).
    pose proof (day_of_year_bounds y1 m1 d1 Hm1 Hd1).
    pose proof (day_of_year_bounds y2 m2 d2 Hm2 Hd2). lia.
  - pose proof (_days_before_month_next y2 m1 m2). lia.
  - lia.
Qed.


Lemma month_day_ok_all (leapyear : bool) n :
  0 <= n < (if leapyear then 366 else 365) -> month_day_ok leapyear n = true.
Proof.
  intros Hn.
  assert (H : List.forallb (month_day_ok leapyear) (seqZ 0 (if leapyear then 366 else 365)) = true)
    by (destruct leapyear; vm_compute; reflexivity).
  rewrite List.forallb_forall in H. apply H. apply list_elem_of_In, elem_of_seqZ. lia.
Qed.

Lemma _ord2ymd_spec n :
  1 <= n ->
  let d := _ord2ymd n in
  toordinal d = n /\ 1 <= month d <= 12 /\
  1 <= day d <= _days_in_month (year d) (month d).
Proof.
  intros Hn. unfold _ord2ymd, _DI400Y, _DI100Y, _DI4Y.
  set (n0 := n - 1).
  set (n400 := n0 / 146097). set (r1 := n0 mod 146097).
  set (n100 := r1 / 36524). set (r2 := r1 mod 36524).
  set (n4 := r2 / 1461). set (r3 := r2 mod 1461).
  set (n1 := r3 / 365). set (r := r3 mod 365).
  assert (E1 : n0 = 146097 * n400 + r1 /\ 0 <= r1 < 146097)
    by (subst n400 r1; split; [apply Z.div_mod | apply Z.mod_pos_bound]; lia).
  assert (E2 : r1 = 36524 * n100 + r2 /\ 0 <= r2 < 36524)
    by (subst n100 r2; split; [apply Z.div_mod | apply Z.mod_pos_bound]; lia).
  assert (E3 : r2 = 1461 * n4 + r3 /\ 0 <= r3 < 1461)
    by (subst n4 r3; split; [apply Z.div_mod | apply Z.mod_pos_bound]; lia).
  assert (E4 : r3 = 365 * n1 + r /\ 0 <= r < 365)
    by (subst n1 r; split; [apply Z.div_mod | apply Z.mod_pos_bound]; lia).
  assert (Hn0 : n = n0 + 1) by (subst n0; lia).
  clearbody n0 n400 r1 n100 r2 n4 r3 n1 r.
  set (y := n400 * 400 + 1 + n100 * 100 + n4 * 4 + n1).
  destruct ((n1 =? 4) || (n100 =? 4)) eqn:Hc.
  - assert (Hy : _days_before_year (y - 1) + 366 = n /\ _is_leap (y - 1) = true).
    { rewrite _is_leap_true_iff. unfold _days_before_year. subst y.
      apply orb_true_iff in Hc. rewrite !Z.eqb_eq in Hc.
      Z.div_mod_to_equations; lia. }
    destruct Hy as [Hy Hl].
    unfold toordinal, _ymd2ord, _days_before_month, _days_in_month. simpl.
    rewrite Hl. simpl. lia.
  - apply orb_false_iff in Hc as [H1 H2]. apply Z.eqb_neq in H1, H2.
    set (leapyear := (n1 =? 3) && (negb (n4 =? 24) || (n100 =? 3))).
    assert (Hdby : _days_before_year y = n0 - r).
    { unfold _days_before_year. subst y. Z.div_mod_to_equations; lia. }
    assert (Hleap : _is_leap y = leapyear).
    { subst y leapyear.
      destruct ((n1 =? 3) && (negb (n4 =? 24) || (n100 =? 3))) eqn:E.
      - apply _is_leap_true_iff.
        apply andb_true_iff in E as [E1' E2']. apply Z.eqb_eq in E1'.
        apply orb_true_iff in E2'. rewrite negb_true_iff, Z.eqb_neq, Z.eqb_eq in E2'.
        Z.div_mod_to_equations; lia.
      - apply _is_leap_false_iff.
        apply andb_false_iff in E.
        rewrite Z.eqb_neq, orb_false_iff, negb_false_iff, Z.eqb_eq, Z.eqb_neq in E.
        Z.div_mod_to_equations; lia. }
    assert (Hr : 0 <= r < (if leapyear then 366 else 365)) by (destruct leapyear; lia).
    pose proof (month_day_ok_all leapyear r Hr) as Hok.
    unfold month_day_ok in Hok.
    match goal with |- context [if ?c then mkdate y ?m1 ?d1 else mkdate y ?m2 ?d2] =>
      replace (if c then mkdate y m1 d1 else mkdate y m2 d2)
        with (mkdate y (fst (month_day leapyear r)) (snd (month_day leapyear r)))
        by (unfold month_day; destruct c; reflexivity)
    end.
    destruct (month_day leapyear r) as [m d].
    rewrite !andb_true_iff, !Z.leb_le, Z.eqb_eq in Hok.
    unfold toordinal, _ymd2ord, _days_before_month, _days_in_month. simpl.
    rewrite Hleap, Hdby. lia.
Qed.

End datetime_facts.

(** ** Loops and indexing *)

Section loops.
Context {S A : Type}.
Implicit Types (body : S -> A -> result S) (st : S) (l : list A).

Lemma for_each_app body st l1 l2 :
  for_each body st (l1 ++ l2) =
  match for_each body st l1 with
  | Ok st' => for_each body st' l2
  | Raise e => Raise e
  end.
Proof.
  revert st. induction l1 as [|x l1 IH]; intros st; simpl; [done|].
  destruct (body st x); simpl; [apply IH | done].
Qed.

Lemma for_each_inv (P : S -> Prop) body l :
  (forall st a st', a ∈ l -> P st -> body st a = Ok st' -> P st') ->
  forall st st', P st -> for_each body st l = Ok st' -> P st'.
Proof.
  induction l as [|x l IH]; intros Hstep st st' HP; simpl.
  - intros [= <-]. exact HP.
  - destruct (body st x) as [st1|] eqn:E; simpl; [|discriminate].
    apply IH.
    + intros st0 a st0' Ha. apply Hstep. by right.
    + eapply Hstep; [by left|eassumption..].
Qed.

End loops.

Lemma resolve_index_Ok {A} (l : list A) i k :
  resolve_index l i = Ok k -> (k < length l)%nat.
Proof.
  unfold resolve_index, len.
  destruct (i <? 0) eqn:Hi; case_match; try discriminate;
    intros [= <-]; lia.
Qed.

Lemma resolve_index_nonneg {A} (l : list A) i :
  0 <= i < len l -> resolve_index l i = Ok (Z.to_nat i).
Proof.
  intros H. unfold resolve_index.
  destruct (i <? 0) eqn:Hi; [lia|].
  case_match; [lia | done].
Qed.

Lemma getitem_nonneg {A} (l : list A) i x :
  0 <= i -> l !! Z.to_nat i = Some x -> getitem l i = Ok x.
Proof.
  intros Hi Hx. unfold getitem.
  rewrite resolve_index_nonneg.
  - simpl. by rewrite Hx.
  - apply lookup_lt_Some in Hx. unfold len. lia.
Qed.

Lemma getitem_head {A} (x : A) l : getitem (x :: l) 0 = Ok x.
Proof. by apply getitem_nonneg. Qed.

Lemma getitem_last {A} (l : list A) x : last l = Some x -> getitem l (-1) = Ok x.
Proof.
  intros H. unfold getitem, resolve_index, len.
  assert (Hl : (0 < length l)%nat) by (destruct l; [done | simpl; lia]).
  replace (-1 <? 0) with true by done.
  case_match; [lia|]. simpl.
  replace (Z.to_nat (-1 + Z.of_nat (length l))) with (pred (length l)) by lia.
  rewrite <- last_lookup. by rewrite H.
Qed.

Lemma getitem_nil {A} i : getitem (@nil A) i = Raise IndexError.
Proof.
  unfold getitem, resolve_index, len. simpl.
  destruct (i <? 0) eqn:E; case_match; try done; lia.
Qed.

(** ** The slot search *)

Lemma overlaps_sym a b c d : overlaps a b c d <-> overlaps c d a b.
Proof. unfold overlaps. lia. Qed.

Lemma slot_overlap_false segs k a b :
  slot_overlap segs k a b = false <-> eligible segs k a b.
Proof.
  unfold eligible, overlaps. induction segs as [|seg segs IH]; simpl.
  - split; [|done]. intros _ seg H. by apply elem_of_nil in H.
  - destruct (slot seg =? k) eqn:Hk; simpl.
    + destruct (end_col seg <? a) eqn:H1, (b <? start_col seg) eqn:H2;
        rewrite ?Z.gtb_ltb, ?H1, ?H2; simpl.
      all: try (rewrite IH; split;
        [ intros H seg' [->|Hin]%elem_of_cons Hs; [lia | by apply H]
        | intros H seg' Hin; apply H; by right ]).
      split; [done|]. intros H. exfalso.
      apply (H seg); [by left | lia | lia].
    + rewrite IH. split.
      * intros H seg' [->|Hin]%elem_of_cons Hs; [lia | by apply H].
      * intros H seg' Hin. apply H. by right.
Qed.

Lemma slot_overlap_true segs k a b :
  slot_overlap segs k a b = true <-> ~ eligible segs k a b.
Proof.
  rewrite <- slot_overlap_false. destruct (slot_overlap segs k a b); naive_solver.
Qed.

(** First fit over the slots [m, m+1, ..., m+n-1]. *)
Lemma find_slot_in_seqZ segs a b (n : nat) : forall m,
  match find_slot_in segs a b (seqZ m (Z.of_nat n)) with
  | Some k =>
      m <= k < m + Z.of_nat n /\ eligible segs k a b /\
      forall j, m <= j < k -> ~ eligible segs j a b
  | None => forall j, m <= j < m + Z.of_nat n -> ~ eligible segs j a b
  end.
Proof.
  induction n as [|n IH]; intros m.
  - simpl. intros j Hj. lia.
  - rewrite seqZ_cons by lia. simpl.
    replace (Z.pred (Z.of_nat (S n))) with (Z.of_nat n) by lia.
    destruct (slot_overlap segs m a b) eqn:E; simpl.
    + apply slot_overlap_true in E.
      specialize (IH (Z.succ m)).
      destruct (find_slot_in segs a b (seqZ (Z.succ m) (Z.of_nat n))) as [k|].
      * destruct IH as (Hk & He & Hmin). repeat split; try lia; [done|].
        intros j Hj. destruct (decide (j = m)) as [->|]; [done|].
        apply Hmin. lia.
      * intros j Hj. destruct (decide (j = m)) as [->|]; [done|].
        apply IH. lia.
    + apply slot_overlap_false in E. repeat split; try lia; done.
Qed.

Lemma find_slot_spec segs a b max_slots :
  0 <= max_slots ->
  match find_slot segs a b max_slots with
  | Some k =>
      0 <= k < max_slots /\ eligible segs k a b /\
      forall j, 0 <= j < k -> ~ eligible segs j a b
  | None => forall j, 0 <= j < max_slots -> ~ eligible segs j a b
  end.
Proof.
  intros H. unfold find_slot, range.
  pose proof (find_slot_in_seqZ segs a b (Z.to_nat max_slots) 0) as F.
  rewrite Z2Nat.id, Z.sub_0_r in * by lia.
  replace (0 + max_slots) with max_slots in F by lia. exact F.
Qed.

(** ** Rows built by the allocator *)

Lemma placed_slot_range segs :
  placed segs -> Forall (fun s => 0 <= slot s < 3) segs.
Proof.
  induction 1 as [|segs s _ IH Hf]; [constructor|].
  apply Forall_app. split; [done|]. constructor; [|constructor].
  pose proof (find_slot_spec segs (start_col s) (end_col s) 3 ltac:(lia)) as F.
  rewrite Hf in F. tauto.
Qed.

Lemma placed_eligible segs s :
  find_slot segs (start_col s) (end_col s) 3 = Some (slot s) ->
  eligible segs (slot s) (start_col s) (end_col s).
Proof.
  intros Hf.
  pose proof (find_slot_spec segs (start_col s) (end_col s) 3 ltac:(lia)) as F.
  rewrite Hf in F. tauto.
Qed.

Lemma placed_no_clash segs :
  placed segs ->
  forall i j s1 s2, i <> j -> segs !! i = Some s1 -> segs !! j = Some s2 ->
    slot s1 = slot s2 -> ~ seg_overlap s1 s2.
Proof.
  induction 1 as [|segs s _ IH Hf]; intros i j s1 s2 Hij H1 H2 Hs.
  - by rewrite lookup_nil in H1.
  - apply placed_eligible in Hf. unfold seg_overlap.
    apply lookup_snoc_Some in H1 as [[Hi H1]|[-> <-]];
      apply lookup_snoc_Some in H2 as [[Hj H2]|[-> <-]].
    + by apply (IH i j).
    + rewrite overlaps_sym. apply Hf; [|done].
      apply list_elem_of_lookup. eauto.
    + apply Hf; [|done]. apply list_elem_of_lookup. eauto.
    + done.
Qed.

Lemma placed_covers_NoDup segs c :
  placed segs -> NoDup (slot <$> filter (fun s => covers c s = true) segs).
Proof.
  induction 1 as [|segs s _ IH Hf]; [constructor|].
  rewrite filter_app, fmap_app. apply NoDup_app. split; [done|].
  apply placed_eligible in Hf.
  rewrite filter_cons, filter_nil. case_decide as Hc; simpl.
  - split; [|apply NoDup_singleton].
    intros x Hx ->%list_elem_of_singleton.
    apply list_elem_of_fmap in Hx as (s' & Hs' & Hin).
    apply list_elem_of_filter in Hin as [Hc' Hin].
    apply (Hf s' Hin); [done|].
    unfold covers in *. unfold overlaps. lia.
  - split; [|constructor]. intros x _ Hx. by apply elem_of_nil in Hx.
Qed.

Lemma NoDup_range_length (l : list Z) n :
  0 <= n -> NoDup l -> Forall (fun k => 0 <= k < n) l -> len l <= n.
Proof.
  intros Hn Hnd Hall.
  assert (Hsub : l ⊆ seqZ 0 n).
  { intros k Hk. apply elem_of_seqZ. rewrite Forall_forall in Hall.
    specialize (Hall k Hk). lia. }
  apply NoDup_submseteq in Hsub; [|done].
  apply submseteq_length in Hsub. rewrite length_seqZ in Hsub.
  unfold len. lia.
Qed.

Lemma placed_covers_le segs c :
  placed segs -> len (filter (fun s => covers c s = true) segs) <= 3.
Proof.
  intros Hp.
  pose proof (placed_covers_NoDup segs c Hp) as Hnd.
  apply NoDup_range_length with (n := 3) in Hnd; [|lia|].
  - unfold len in *. by rewrite length_fmap in Hnd.
  - apply Forall_fmap. apply placed_slot_range in Hp.
    rewrite Forall_forall in *. intros s Hs.
    apply list_elem_of_filter in Hs as [_ Hs]. by apply Hp.
Qed.

(** ** One step of the segment loop *)

Lemma place_segment_cases ev st wi week st' :
  place_segment ev st (wi, week) = Ok st' ->
  st' = st \/
  exists k segs s,
    st !! k = Some segs /\ st' = <[ k := segs ++ [s] ]> st /\
    find_slot segs (start_col s) (end_col s) 3 = Some (slot s) /\
    seg_summary s = summary ev.
Proof.
  unfold place_segment.
  destruct (getitem week 0) as [week_start|]; simpl; [|discriminate].
  destruct (getitem week (-1)) as [week_end|]; simpl; [|discriminate].
  case_match; [|intros [= <-]; by left].
  unfold getitem, append_at.
  destruct (resolve_index st wi) as [k|] eqn:Hk; simpl; [|discriminate].
  destruct (st !! k) as [segs|] eqn:Hsegs; simpl; [|discriminate].
  destruct (find_slot segs _ _ 3) as [slot_|] eqn:Hf; [|intros [= <-]; by left].
  simpl. rewrite ?Hsegs. intros [= <-]. right.
  eexists k, segs, _. repeat split; try done.
Qed.

Lemma build_segments_placed weeks evs wsegs :
  build_segments weeks evs = Ok wsegs ->
  length wsegs = length weeks /\ Forall placed wsegs.
Proof.
  unfold build_segments.
  apply (for_each_inv (fun st => length st = length weeks /\ Forall placed st)).
  - intros st ev st' _.
    apply (for_each_inv (fun st => length st = length weeks /\ Forall placed st)).
    clear. intros st [wi week] st' _ [Hlen Hall] Hstep.
    apply place_segment_cases in Hstep as [->|(k & segs & s & Hk & -> & Hf & _)];
      [done|].
    split; [by rewrite length_insert|].
    apply Forall_insert; [done|].
    constructor; [|done].
    rewrite Forall_forall in Hall. apply Hall.
    apply list_elem_of_lookup. eauto.
  - split; [by rewrite length_replicate|].
    apply Forall_replicate. constructor.
Qed.

Lemma place_segment_row ev st wi week segs :
  week <> [] -> 0 <= wi -> st !! Z.to_nat wi = Some segs ->
  place_segment ev st (wi, week) =
  Ok (<[ Z.to_nat wi := row_step week segs ev ]> st).
Proof.
  intros Hne Hwi Hsegs.
  destruct week as [|week_start week']; [done|].
  destruct (last (week_start :: week')) as [week_end|] eqn:Hlast;
    [|by apply last_None in Hlast].
  unfold place_segment, row_step.
  rewrite getitem_head, (getitem_last _ _ Hlast), Hlast. simpl.
  case_match; [|by rewrite list_insert_id].
  rewrite (getitem_nonneg _ _ _ Hwi Hsegs). simpl.
  case_match; [|by rewrite list_insert_id].
  unfold append_at. rewrite resolve_index_nonneg.
  - simpl. by rewrite Hsegs.
  - apply lookup_lt_Some in Hsegs. unfold len. lia.
Qed.

Lemma place_segment_empty_week ev st wi :
  place_segment ev st (wi, []) = Raise IndexError.
Proof. unfold place_segment. by rewrite getitem_nil. Qed.

Lemma enumerate_from_rows ev weeks : forall i pre cur,
  Forall (fun week => week <> []) weeks ->
  length cur = length weeks -> i = len pre ->
  for_each (place_segment ev) (pre ++ cur) (enumerate_from i weeks) =
  Ok (pre ++ zip_with (fun week segs => row_step week segs ev) weeks cur).
Proof.
  induction weeks as [|week weeks IH]; intros i pre cur Hne Hlen Hi.
  - destruct cur; [done | discriminate].
  - destruct cur as [|segs cur]; [discriminate|].
    apply Forall_cons in Hne as [Hw Hne]. cbn [for_each enumerate_from].
    assert (Hidx : Z.to_nat i = length pre) by (unfold len in Hi; lia).
    rewrite (place_segment_row ev _ i week segs); [|done|unfold len in Hi; lia|].
    2: { rewrite Hidx. by rewrite list_lookup_middle. }
    cbn [mbind result_bind]. rewrite Hidx, insert_app_r_alt, Nat.sub_diag by lia.
    cbn [insert list_insert].
    rewrite (cons_middle _ pre), app_assoc.
    rewrite IH; [|done|simpl in Hlen; lia|].
    + by rewrite <- app_assoc.
    + unfold len in *. rewrite length_app. simpl. lia.
Qed.

Lemma zip_with_zip_with {A B} (f g : A -> B -> B) (l : list A) : forall k,
  zip_with f l (zip_with g l k) = zip_with (fun a b => f a (g a b)) l k.
Proof.
  induction l as [|a l IH]; intros [|b k]; simpl; try done. by rewrite IH.
Qed.

Lemma build_segments_from weeks evs : forall st,
  Forall (fun week => week <> []) weeks ->
  length st = length weeks ->
  for_each
    (fun week_segments ev =>
       for_each (place_segment ev) week_segments (enumerate weeks))
    st evs =
  Ok (zip_with (fun week segs => foldl (row_step week) segs evs) weeks st).
Proof.
  induction evs as [|ev evs IH]; intros st Hne Hlen.
  - simpl. f_equal. revert st Hlen. clear.
    induction weeks as [|w weeks IH]; intros [|s st] Hlen; try done.
    simpl. f_equal. apply IH. simpl in Hlen. lia.
  - cbn [for_each].
    pose proof (enumerate_from_rows ev weeks 0 [] st Hne Hlen eq_refl) as E.
    cbn [app] in E. unfold enumerate in *. rewrite E. cbn [mbind result_bind].
    rewrite IH; [|done|].
    + by rewrite zip_with_zip_with.
    + rewrite length_zip_with. lia.
Qed.

(** With non-empty weeks the loop never fails, and each row is the fold of
    [row_step] over the events, independently of the other rows. *)
Lemma build_segments_rows weeks evs :
  Forall (fun week => week <> []) weeks ->
  build_segments weeks evs =
  Ok ((fun week => foldl (row_step week) [] evs) <$> weeks).
Proof.
  intros Hne. unfold build_segments.
  rewrite build_segments_from; [|done|by rewrite length_replicate].
  f_equal. clear. induction weeks as [|w weeks IH]; simpl; [done|].
  by rewrite IH.
Qed.

(** ** The order of dates *)

Lemma ltb_reflect a b : reflect (date_lt a b) (datetime.ltb a b).
Proof.
  apply iff_reflect. unfold date_lt, datetime.ltb, datetime._cmp.
  destruct a as [y1 m1 d1], b as [y2 m2 d2]. simpl.
  destruct (Z.compare_spec y1 y2), (Z.compare_spec m1 m2),
    (Z.compare_spec d1 d2); split; intros ?; try done; try lia.
Qed.

Lemma gtb_ltb a b : datetime.gtb a b = datetime.ltb b a.
Proof.
  unfold datetime.gtb, datetime.ltb, datetime._cmp.
  destruct a as [y1 m1 d1], b as [y2 m2 d2]. simpl.
  rewrite (Z.compare_antisym y1 y2), (Z.compare_antisym m1 m2),
    (Z.compare_antisym d1 d2).
  destruct (y1 ?= y2), (m1 ?= m2), (d1 ?= d2); done.
Qed.

Lemma leb_ltb a b : datetime.leb a b = negb (datetime.ltb b a).
Proof.
  rewrite <- gtb_ltb. unfold datetime.gtb, datetime.leb.
  by destruct (datetime._cmp a b).
Qed.

Lemma geb_ltb a b : datetime.geb a b = negb (datetime.ltb a b).
Proof. unfold datetime.geb, datetime.ltb. by destruct (datetime._cmp a b). Qed.

Lemma leb_true_iff a b : datetime.leb a b = true <-> date_le a b.
Proof.
  rewrite leb_ltb, negb_true_iff. unfold date_le.
  destruct (ltb_reflect b a); split; intros; try done.
Qed.

Lemma date_eq_iff (a b : date) :
  a = b <->
  datetime.year a = datetime.year b /\ datetime.month a = datetime.month b /\
  datetime.day a = datetime.day b.
Proof.
  destruct a, b; simpl. split; [by intros [= -> -> ->]|].
  by intros (-> & -> & ->).
Qed.

(** Comparisons of dates become arithmetic on their fields. *)
Ltac date_order :=
  unfold datetime.max, datetime.min in *;
  rewrite ?gtb_ltb, ?leb_ltb, ?geb_ltb in *;
  repeat match goal with
    | |- context [datetime.ltb ?a ?b] => destruct (ltb_reflect a b)
    | H : context [datetime.ltb ?a ?b] |- _ => destruct (ltb_reflect a b)
    end;
  simpl in *; try done;
  unfold date_le, date_lt in *; rewrite ?date_eq_iff in *; simpl in *;
  try lia.

Lemma date_le_refl a : date_le a a.
Proof. date_order. Qed.

Lemma date_le_trans a b c : date_le a b -> date_le b c -> date_le a c.
Proof. date_order. Qed.

Lemma date_le_antisym a b : date_le a b -> date_le b a -> a = b.
Proof. date_order. Qed.

Lemma max_lub a b c : date_le a c -> date_le b c -> date_le (datetime.max a b) c.
Proof. date_order. Qed.

Lemma max_le_l a b : date_le a (datetime.max a b).
Proof. date_order. Qed.

Lemma max_le_r a b : date_le b (datetime.max a b).
Proof. date_order. Qed.

Lemma min_le_l a b : date_le (datetime.min a b) a.
Proof. date_order. Qed.

Lemma min_le_r a b : date_le (datetime.min a b) b.
Proof. date_order. Qed.

Lemma min_glb a b c : date_le c a -> date_le c b -> date_le c (datetime.min a b).
Proof. date_order. Qed.

(** An event that ends before it starts overlaps no week. *)
Lemma reversed_event_no_overlap ev_s ev_e week_start week_end :
  datetime.gtb ev_s ev_e = true ->
  datetime.leb (datetime.max ev_s week_start) (datetime.min ev_e week_end) = false.
Proof. intros H. date_order. Qed.

(** A single-day event overlaps exactly the weeks that contain its day. *)
Lemma single_day_overlap d week_start week_end :
  datetime.leb (datetime.max d week_start) (datetime.min d week_end) =
  datetime.leb week_start d && datetime.leb d week_end.
Proof. date_order. Qed.

Lemma single_day_max d week_start :
  datetime.leb week_start d = true -> datetime.max d week_start = d.
Proof. intros H. date_order. Qed.

Lemma single_day_min d week_end :
  datetime.leb d week_end = true -> datetime.min d week_end = d.
Proof. intros H. date_order. Qed.

(** ** Single-day events *)

Lemma row_step_single_day week week_start week_end segs ev d :
  head week = Some week_start -> last week = Some week_end ->
  start_date ev = d -> end_date ev = d ->
  let c := datetime.diff_days d week_start in
  row_step week segs ev =
  if datetime.leb week_start d && datetime.leb d week_end then
    match find_slot segs c c 3 with
    | Some k => segs ++ [segment_of ev c 1 k]
    | None => segs
    end
  else segs.
Proof.
  intros Hh Hl Hs He c. unfold row_step.
  rewrite Hh, Hl, Hs, He, single_day_overlap.
  destruct (datetime.leb week_start d) eqn:E1; [|done].
  destruct (datetime.leb d week_end) eqn:E2; [|done]. simpl.
  rewrite single_day_max, single_day_min by done.
  assert (Hdd : datetime.diff_days d d = 0)
    by (unfold datetime.diff_days; lia).
  rewrite Hdd. simpl. fold c. by rewrite Z.add_simpl_r.
Qed.

(** Four events on one day of a row that was empty: the first three take
    the slots 0, 1 and 2, the fourth finds none. *)
Lemma find_slot_single_day e1 e2 e3 c :
  find_slot [] c c 3 = Some 0 /\
  find_slot [segment_of e1 c 1 0] c c 3 = Some 1 /\
  find_slot [segment_of e1 c 1 0; segment_of e2 c 1 1] c c 3 = Some 2 /\
  find_slot [segment_of e1 c 1 0; segment_of e2 c 1 1; segment_of e3 c 1 2]
    c c 3 = None.
Proof.
  unfold find_slot, range. simpl.
  rewrite !Z.add_simpl_r, !Z.gtb_ltb, !Z.ltb_irrefl. simpl. done.
Qed.

Lemma row_four_single_day week week_start week_end e1 e2 e3 e4 d :
  head week = Some week_start -> last week = Some week_end ->
  start_date e1 = d -> end_date e1 = d -> start_date e2 = d -> end_date e2 = d ->
  start_date e3 = d -> end_date e3 = d -> start_date e4 = d -> end_date e4 = d ->
  let c := datetime.diff_days d week_start in
  foldl (row_step week) [] [e1; e2; e3; e4] =
  if datetime.leb week_start d && datetime.leb d week_end
  then [segment_of e1 c 1 0; segment_of e2 c 1 1; segment_of e3 c 1 2]
  else [].
Proof.
  intros Hh Hl S1 E1 S2 E2 S3 E3 S4 E4 c. simpl.
  rewrite (row_step_single_day week week_start week_end [] e1 d) by done.
  fold c. destruct (find_slot_single_day e1 e2 e3 c) as (F0 & F1 & F2 & F3).
  destruct (datetime.leb week_start d && datetime.leb d week_end) eqn:Hin.
  - rewrite F0. simpl.
    rewrite (row_step_single_day week week_start week_end _ e2 d) by done.
    fold c. rewrite Hin, F1. simpl.
    rewrite (row_step_single_day week week_start week_end _ e3 d) by done.
    fold c. rewrite Hin, F2. simpl.
    rewrite (row_step_single_day week week_start week_end _ e4 d) by done.
    fold c. by rewrite Hin, F3.
  - rewrite (row_step_single_day week week_start week_end _ e2 d) by done.
    rewrite Hin.
    rewrite (row_step_single_day week week_start week_end _ e3 d) by done.
    rewrite Hin.
    rewrite (row_step_single_day week week_start week_end _ e4 d) by done.
    by rewrite Hin.
Qed.

Lemma nonempty_head_last {A} (l : list A) :
  l <> [] -> exists x y, head l = Some x /\ last l = Some y.
Proof.
  intros H. destruct l as [|x l]; [done|].
  destruct (last (x :: l)) as [y|] eqn:E; [eauto|].
  by apply last_None in E.
Qed.

(** ** Dates and their ordinals *)

Section ordinals.
Import datetime datetime_facts.

Lemma date_lt_trichotomy a b : date_lt a b \/ a = b \/ date_lt b a.
Proof. unfold date_lt. rewrite date_eq_iff. lia. Qed.

Lemma toordinal_lt_iff a b :
  valid a -> valid b -> date_lt a b <-> toordinal a < toordinal b.
Proof.
  intros Ha Hb. split; [by apply toordinal_lt|].
  intros H. destruct (date_lt_trichotomy a b) as [|[->|H']]; [done|lia|].
  apply toordinal_lt in H'; [lia|done..].
Qed.

Lemma toordinal_le_iff a b :
  valid a -> valid b -> date_le a b <-> toordinal a <= toordinal b.
Proof.
  intros Ha Hb. unfold date_le. rewrite toordinal_lt_iff by done. lia.
Qed.

Lemma toordinal_inj a b :
  valid a -> valid b -> toordinal a = toordinal b -> a = b.
Proof.
  intros Ha Hb H. destruct (date_lt_trichotomy a b) as [H'|[->|H']]; [|done|];
    apply toordinal_lt in H'; try done; lia.
Qed.

Lemma _days_before_year_1 : _days_before_year 1 = 0.
Proof. reflexivity. Qed.

Lemma _days_before_year_10000 : _days_before_year 10000 = _MAXORDINAL.
Proof. reflexivity. Qed.

Lemma toordinal_range d : valid d -> 1 <= toordinal d <= _MAXORDINAL.
Proof.
  intros Hv. apply valid_fields in Hv as (Hy & Hm & Hd).
  unfold toordinal, _ymd2ord.
  pose proof (day_of_year_bounds _ _ _ Hm Hd) as Hdoy.
  pose proof (_days_before_year_mono 1 (year d) ltac:(lia)) as H1.
  pose proof (_days_before_year_lt (year d) 10000 ltac:(lia)) as H2.
  rewrite _days_before_year_1 in H1. rewrite _days_before_year_10000 in H2.
  lia.
Qed.

Lemma year_of_ordinal d :
  1 <= month d <= 12 -> 1 <= day d <= _days_in_month (year d) (month d) ->
  1 <= toordinal d <= _MAXORDINAL -> 1 <= year d <= 9999.
Proof.
  intros Hm Hd Ho. unfold toordinal, _ymd2ord in Ho.
  pose proof (day_of_year_bounds _ _ _ Hm Hd) as Hdoy.
  split.
  - destruct (Z.le_gt_cases 1 (year d)) as [|Hy]; [done|].
    pose proof (_days_before_year_lt (year d) 1 ltac:(lia)) as H1.
    rewrite _days_before_year_1 in H1. lia.
  - destruct (Z.le_gt_cases (year d) 9999) as [|Hy]; [done|].
    pose proof (_days_before_year_mono 10000 (year d) ltac:(lia)) as H1.
    rewrite _days_before_year_10000 in H1. lia.
Qed.

Lemma fromordinal_valid n :
  1 <= n <= _MAXORDINAL ->
  valid (fromordinal n) /\ toordinal (fromordinal n) = n.
Proof.
  intros Hn. unfold fromordinal.
  destruct (_ord2ymd_spec n ltac:(lia)) as (Hord & Hm & Hd).
  split; [|done]. apply valid_fields.
  pose proof (year_of_ordinal (_ord2ymd n) Hm Hd) as Hy.
  rewrite Hord in Hy. specialize (Hy Hn). lia.
Qed.

Lemma fromordinal_toordinal d : valid d -> fromordinal (toordinal d) = d.
Proof.
  intros Hv. pose proof (toordinal_range d Hv) as Hr.
  destruct (fromordinal_valid _ Hr) as [Hv' Ho]. by apply toordinal_inj.
Qed.

(** [d + timedelta(days=n)] moves the ordinal by [n]. *)
Lemma add_days_Ok d n :
  valid d -> 1 <= toordinal d + n <= _MAXORDINAL ->
  exists d', add_days d n = Ok d' /\ valid d' /\ toordinal d' = toordinal d + n.
Proof.
  intros Hv Hr. unfold add_days.
  replace ((0 <? toordinal d + n) && (toordinal d + n <=? _MAXORDINAL))
    with true by (symmetry; apply andb_true_iff; lia).
  destruct (fromordinal_valid _ Hr). eauto.
Qed.

(** The day before a date that is not the first of all dates. *)
Lemma sub_days_1 s e :
  valid s -> valid e -> date_lt s e ->
  exists e', sub_days e 1 = Ok e' /\ valid e' /\
             toordinal e' = toordinal e - 1 /\ date_le s e'.
Proof.
  intros Hs He Hlt. apply toordinal_lt_iff in Hlt; [|done..].
  pose proof (toordinal_range s Hs). pose proof (toordinal_range e He).
  destruct (add_days_Ok e (-1) He ltac:(lia)) as (e' & H1 & H2 & H3).
  exists e'. split; [done|]. split; [done|]. split; [lia|].
  apply toordinal_le_iff; [done..|]. lia.
Qed.

Lemma _days_in_month_range y m : 1 <= m <= 12 -> 28 <= _days_in_month y m <= 31.
Proof.
  intros Hm. unfold _days_in_month. destruct (_is_leap y); month_cases m; simpl; lia.
Qed.

(** The fields of a date fit a C [int]. *)
Lemma _check_date_fields_fits y m d :
  _check_date_fields y m d = true ->
  fits_c_int y && fits_c_int m && fits_c_int d = true.
Proof.
  intros Hc. apply (valid_fields (mkdate y m d)) in Hc. simpl in Hc.
  pose proof (_days_in_month_range y m ltac:(lia)).
  unfold fits_c_int. change (2 ^ 31) with 2147483648.
  rewrite !andb_true_iff, !Z.leb_le. lia.
Qed.

Lemma new_Ok y m d :
  _check_date_fields y m d = true -> new y m d = Ok (mkdate y m d).
Proof.
  intros Hc. unfold new. by rewrite (_check_date_fields_fits y m d Hc), Hc.
Qed.

Lemma new_inv y m d dt : new y m d = Ok dt -> dt = mkdate y m d /\ valid dt.
Proof.
  unfold new, valid. destruct (_ && _ && _); [|done].
  destruct (_check_date_fields y m d) eqn:E; [|done].
  by intros [= <-].
Qed.

(** [date(year, month, day)] raises [OverflowError] exactly for arguments
    that do not fit a C [int], and [ValueError] exactly for arguments that
    fit but are out of range. *)
Lemma new_raises y m d :
  (new y m d = Raise OverflowError <->
   fits_c_int y && fits_c_int m && fits_c_int d = false) /\
  (new y m d = Raise ValueError <->
   fits_c_int y && fits_c_int m && fits_c_int d = true /\
   _check_date_fields y m d = false).
Proof.
  unfold new. destruct (_ && _ && _); destruct (_check_date_fields y m d);
    split; split; try done; intros []; done.
Qed.

Lemma valid_day y m d :
  MINYEAR <= y <= MAXYEAR -> 1 <= m <= 12 -> 1 <= d <= _days_in_month y m ->
  valid (mkdate y m d).
Proof.
  intros. apply valid_fields. simpl. unfold MINYEAR, MAXYEAR in *. lia.
Qed.

(** The day after the last day of a month is the first of the next month. *)
Lemma toordinal_next_month y m :
  1 <= m <= 12 ->
  let '(y', m') := calendar._nextmonth y m in
  _ymd2ord y' m' 1 = _ymd2ord y m (_days_in_month y m) + 1.
Proof.
  intros Hm. unfold calendar._nextmonth.
  destruct (m =? 12) eqn:E.
  - apply Z.eqb_eq in E. subst m. unfold _ymd2ord.
    rewrite _days_before_year_succ.
    unfold _days_before_month, _days_in_month, days_in_year.
    destruct (_is_leap y), (_is_leap (y + 1)); simpl; lia.
  - apply Z.eqb_neq in E. unfold _ymd2ord.
    pose proof (_days_before_month_next y m (m + 1)).
    unfold _days_before_month, _days_in_month in *.
    destruct (_is_leap y); month_cases m; simpl in *; lia.
Qed.

Lemma toordinal_prev_month y m :
  1 <= m <= 12 ->
  let '(y', m') := calendar._prevmonth y m in
  _ymd2ord y m 1 = _ymd2ord y' m' (_days_in_month y' m') + 1 /\ 1 <= m' <= 12.
Proof.
  intros Hm. unfold calendar._prevmonth.
  destruct (m =? 1) eqn:E.
  - apply Z.eqb_eq in E. subst m. unfold _ymd2ord.
    replace y with (y - 1 + 1) at 1 by lia. rewrite _days_before_year_succ.
    unfold _days_before_month, _days_in_month, days_in_year.
    destruct (_is_leap y), (_is_leap (y - 1)); simpl; lia.
  - apply Z.eqb_neq in E. unfold _ymd2ord.
    unfold _days_before_month, _days_in_month in *.
    destruct (_is_leap y); month_cases m; simpl in *; lia.
Qed.

End ordinals.

(** ** Normalisation of the events *)

Section normalisation.
Context `{IsoFormat}.
Import datetime datetime_facts.

Lemma _to_date_valid obj d : wf_obj obj -> _to_date obj = Ok d -> valid d.
Proof.
  destruct obj as [d0|dt|s| |]; simpl; try discriminate.
  - by intros Hv [= <-].
  - by intros Hv [= <-].
  - intros _. destruct (date_fromisoformat s) as [d0|] eqn:E1; simpl.
    + intros [= <-]. by apply (date_fromisoformat_valid s).
    + destruct (datetime_fromisoformat s) as [dt|] eqn:E2; simpl; [|done].
      intros [= <-]. by apply (datetime_fromisoformat_valid s).
Qed.

Lemma prepare_event_malformed first last prepared ev :
  malformed ev -> prepare_event first last prepared ev = Ok prepared.
Proof.
  unfold malformed, prepare_event.
  destruct (_to_date (raw_start ev)); simpl; [|done].
  destruct (_to_date (raw_end ev)); simpl; done.
Qed.

Lemma prepare_event_parsed first last prepared ev s e :
  valid s -> valid e ->
  _to_date (raw_start ev) = Ok s -> _to_date (raw_end ev) = Ok e ->
  exists e_inclusive,
    valid e_inclusive /\
    (date_lt s e -> toordinal e_inclusive = toordinal e - 1) /\
    (~ date_lt s e -> e_inclusive = e) /\
    (date_le s e -> date_le s e_inclusive) /\
    prepare_event first last prepared ev =
    Ok (if in_month first last s e_inclusive
        then prepared ++ [entry first last ev s e_inclusive]
        else prepared).
Proof.
  intros Hvs Hve Hs He.
  unfold prepare_event. rewrite Hs, He. simpl. rewrite gtb_ltb.
  destruct (ltb_reflect s e) as [Hlt|Hnlt].
  - destruct (sub_days_1 s e Hvs Hve Hlt) as (e' & E1 & E2 & E3 & E4).
    exists e'. rewrite E1. simpl. repeat split; try done.
    unfold in_month, entry. by destruct (_ && _).
  - exists e. simpl. repeat split; try done.
    unfold in_month, entry. by destruct (_ && _).
Qed.

(** One step of the loop: nothing appended, or one entry of the month. *)
Lemma prepare_event_step first last prepared ev prepared' :
  wf_event ev ->
  prepare_event first last prepared ev = Ok prepared' ->
  prepared' = prepared \/
  exists p s e,
    prepared' = prepared ++ [p] /\
    _to_date (raw_start ev) = Ok s /\ _to_date (raw_end ev) = Ok e /\
    date_le first (start_date p) /\ date_le (start_date p) last /\
    date_le first (end_date p) /\ date_le (end_date p) last /\
    (date_le s e -> date_le (start_date p) (end_date p)).
Proof.
  intros Hwf Hstep.
  destruct (_to_date (raw_start ev)) as [s|] eqn:Hs;
    [|left; rewrite prepare_event_malformed in Hstep;
      [congruence | unfold malformed; by rewrite Hs]].
  destruct (_to_date (raw_end ev)) as [e|] eqn:He;
    [|left; rewrite prepare_event_malformed in Hstep;
      [congruence | unfold malformed; rewrite Hs, He; done]].
  destruct (prepare_event_parsed first last prepared ev s e) as
    (ei & Hv & _ & _ & Hle & Heq);
    [by eapply _to_date_valid, Hs; apply Hwf
    |by eapply _to_date_valid, He; apply Hwf|done..|].
  rewrite Heq in Hstep. destruct (in_month first last s ei) eqn:Hin;
    [|left; congruence].
  right. exists (entry first last ev s ei), s, e. split; [congruence|].
  unfold in_month in Hin. apply andb_true_iff in Hin as [H1 H2].
  apply leb_true_iff in H1. rewrite geb_ltb, <- leb_ltb in H2.
  apply leb_true_iff in H2. simpl.
  split; [done|]. split; [done|].
  split; [apply max_le_r|]. split; [done|]. split; [done|].
  split; [apply min_le_r|].
  intros Hse. apply max_lub; [|done].
  apply min_glb; [by apply Hle|].
  eapply date_le_trans; [apply max_le_l | exact H1].
Qed.

(** The entry of one step, with the event it is made from: its dates are
    in order exactly when those of the event are. *)
Lemma prepare_event_step_order first last prepared ev prepared' :
  wf_event ev ->
  prepare_event first last prepared ev = Ok prepared' ->
  prepared' = prepared \/
  exists s e e_inclusive,
    prepared' = prepared ++ [entry first last ev s e_inclusive] /\
    _to_date (raw_start ev) = Ok s /\ _to_date (raw_end ev) = Ok e /\
    (date_le (datetime.max s first) (datetime.min e_inclusive last) <->
     date_le s e).
Proof.
  intros Hwf Hstep.
  destruct (_to_date (raw_start ev)) as [s|] eqn:Hs;
    [|left; rewrite prepare_event_malformed in Hstep;
      [congruence | unfold malformed; by rewrite Hs]].
  destruct (_to_date (raw_end ev)) as [e|] eqn:He;
    [|left; rewrite prepare_event_malformed in Hstep;
      [congruence | unfold malformed; rewrite Hs, He; done]].
  destruct (prepare_event_parsed first last prepared ev s e) as
    (ei & Hv & _ & Hnlt & Hle & Heq);
    [by eapply _to_date_valid, Hs; apply Hwf
    |by eapply _to_date_valid, He; apply Hwf|done..|].
  rewrite Heq in Hstep. destruct (in_month first last s ei) eqn:Hin;
    [|left; congruence].
  right. exists s, e, ei. split; [congruence|].
  split; [done|]. split; [done|].
  unfold in_month in Hin. apply andb_true_iff in Hin as [H1 H2].
  apply leb_true_iff in H1. rewrite geb_ltb, <- leb_ltb in H2.
  apply leb_true_iff in H2.
  split.
  - intros Hpe.
    assert (Hsei : date_le s ei).
    { eapply date_le_trans; [apply max_le_l|].
      eapply date_le_trans; [exact Hpe|apply min_le_l]. }
    destruct (date_lt_trichotomy s e) as [Hlt|[->|Hgt]].
    + unfold date_le, date_lt in *. lia.
    + apply date_le_refl.
    + rewrite Hnlt in Hsei; [done|]. unfold date_lt in *. lia.
  - intros Hse. apply max_lub; [|done].
    apply min_glb; [by apply Hle|].
    eapply date_le_trans; [apply max_le_l | exact H1].
Qed.

Lemma prepare_event_total first last prepared ev :
  wf_event ev -> exists prepared', prepare_event first last prepared ev = Ok prepared'.
Proof.
  intros Hwf.
  destruct (_to_date (raw_start ev)) as [s|] eqn:Hs;
    [|rewrite prepare_event_malformed; [eauto | unfold malformed; by rewrite Hs]].
  destruct (_to_date (raw_end ev)) as [e|] eqn:He;
    [|rewrite prepare_event_malformed;
      [eauto | unfold malformed; rewrite Hs, He; done]].
  destruct (prepare_event_parsed first last prepared ev s e) as
    (ei & _ & _ & _ & _ & Heq);
    [by eapply _to_date_valid, Hs; apply Hwf
    |by eapply _to_date_valid, He; apply Hwf|done..|].
  rewrite Heq. eauto.
Qed.

Lemma for_each_prepare_total first last events : forall prepared,
  Forall wf_event events ->
  exists prepared', for_each (prepare_event first last) prepared events = Ok prepared'.
Proof.
  induction events as [|ev events IH]; intros prepared Hwf; simpl; [eauto|].
  apply Forall_cons in Hwf as [Hev Hwf].
  destruct (prepare_event_total first last prepared ev Hev) as [p' ->]. simpl.
  by apply IH.
Qed.

(** The month bounds [_prepare_events] computes. *)
Lemma _prepare_events_bounds events year month :
  MINYEAR <= year -> 1 <= month <= 12 ->
  fst (calendar._nextmonth year month) <= MAXYEAR ->
  _prepare_events events year month =
  for_each (prepare_event (first_of_month year month) (last_of_month year month))
    [] events.
Proof.
  intros Hy Hm Hnext. unfold _prepare_events.
  pose proof (_days_in_month_range year month Hm) as Hdim.
  pose proof (toordinal_next_month year month Hm) as Hord.
  unfold calendar._nextmonth in *.
  assert (Hlast : valid (last_of_month year month)).
  { apply valid_day; [|done|lia].
    destruct (month =? 12); simpl in Hnext; unfold MAXYEAR in *; lia. }
  rewrite (new_Ok year month 1); [|apply (valid_day year month 1); try lia;
    destruct (month =? 12); simpl in Hnext; unfold MAXYEAR in *; lia].
  simpl.
  assert (Hsub : forall y' m', (y', m') = (if month =? 12 then (year + 1, 1) else (year, month + 1)) ->
     valid (mkdate y' m' 1) ->
     sub_days (mkdate y' m' 1) 1 = Ok (last_of_month year month)).
  { intros y' m' Heq Hv. rewrite <- Heq in Hord.
    pose proof (toordinal_range _ Hlast) as Hr.
    unfold sub_days, add_days.
    assert (Ho : toordinal (mkdate y' m' 1) + - (1) =
                 toordinal (last_of_month year month))
      by (unfold toordinal, last_of_month; simpl; lia).
    rewrite Ho.
    replace ((0 <? _) && (_ <=? _MAXORDINAL)) with true
      by (symmetry; apply andb_true_iff; lia).
    by rewrite fromordinal_toordinal. }
  destruct (month =? 12) eqn:E; simpl in Hnext.
  - rewrite (new_Ok (year + 1) 1 1);
      [|apply (valid_day (year + 1) 1 1); unfold MINYEAR in *; try lia;
        by vm_compute]. simpl.
    rewrite (Hsub (year + 1) 1 eq_refl); [done|].
    apply valid_day; unfold MINYEAR in *; try lia. by vm_compute.
  - apply Z.eqb_neq in E.
    assert (Hv1 : valid (mkdate year (month + 1) 1)).
    { apply valid_day; unfold MINYEAR in *; try lia.
      pose proof (_days_in_month_range year (month + 1)). lia. }
    rewrite (new_Ok year (month + 1) 1) by exact Hv1. simpl.
    by rewrite (Hsub year (month + 1) eq_refl).
Qed.

Lemma _prepare_events_Ok_inv events year month prepared :
  _prepare_events events year month = Ok prepared ->
  MINYEAR <= year /\ 1 <= month <= 12 /\
  fst (calendar._nextmonth year month) <= MAXYEAR.
Proof.
  unfold _prepare_events.
  destruct (new year month 1) as [f|] eqn:E1; simpl; [|done].
  apply new_inv in E1 as [-> Hv1]. apply valid_fields in Hv1. simpl in Hv1.
  unfold calendar._nextmonth.
  destruct (month =? 12) eqn:E; simpl.
  - destruct (new (year + 1) 1 1) as [f|] eqn:E2; simpl; [|done].
    apply new_inv in E2 as [-> Hv2]. apply valid_fields in Hv2. simpl in Hv2.
    intros _. unfold MINYEAR, MAXYEAR. lia.
  - intros _. unfold MINYEAR, MAXYEAR. lia.
Qed.

(** An event whose end is before its start, both within the month, is kept
    as it is: its entry starts after it ends. *)
Lemma reversed_raw_event_is_kept first last prepared ev s e :
  valid s -> valid e ->
  _to_date (raw_start ev) = Ok s -> _to_date (raw_end ev) = Ok e ->
  date_lt e s -> date_le first e -> date_le s last ->
  prepare_event first last prepared ev =
  Ok (prepared ++ [ {| summary := default (str "(No title)") (raw_summary ev);
                       start_date := s; end_date := e;
                       color_id := raw_color_id ev |} ]) /\
  gtb s e = true.
Proof.
  intros Hvs Hve Hs He Hlt Hfirst Hlast.
  destruct (prepare_event_parsed first last prepared ev s e Hvs Hve Hs He)
    as (ei & _ & _ & Hei & _ & ->).
  rewrite (Hei ltac:(clear - Hlt; date_order)).
  assert (Hmax : datetime.max s first = s) by (clear - Hlt Hfirst; date_order).
  assert (Hmin : datetime.min e last = e) by (clear - Hlt Hlast; date_order).
  unfold in_month, entry. rewrite Hmax, Hmin.
  replace (leb s last && geb e first) with true
    by (clear - Hfirst Hlast; date_order).
  split; [done|]. clear - Hlt. date_order.
Qed.

End normalisation.

(** ** The month grid *)

Section grid.
Import datetime_facts.

Lemma mapM_result_Ok {A B} (f : A -> result B) (g : A -> B) (l : list A) :
  Forall (fun x => f x = Ok (g x)) l -> mapM f l = Ok (g <$> l).
Proof.
  induction 1 as [|x l Hx _ IH]; [done|].
  cbn [mapM]. rewrite Hx. cbn [mbind result_bind].
  change ((fix go (l0 : list A) : result (list B) :=
              match l0 with
              | [] => mret []
              | x0 :: l1 => f x0 ≫= λ y : B, go l1 ≫= λ k : list B, mret (y :: k)
              end) l) with (mapM f l).
  rewrite IH. reflexivity.
Qed.

Lemma _monthlen_days_in_month y m :
  1 <= m <= 12 -> calendar._monthlen y m = datetime._days_in_month y m.
Proof.
  intros Hm. unfold calendar._monthlen, datetime._days_in_month.
  change (calendar.isleap y) with (datetime._is_leap y).
  destruct (datetime._is_leap y); month_cases m; reflexivity.
Qed.

Lemma valid_year_month_year year month :
  valid_year_month year month ->
  datetime.MINYEAR <= year <= datetime.MAXYEAR.
Proof.
  intros (Hm & Hp & Hn). unfold calendar._prevmonth, calendar._nextmonth in *.
  destruct (month =? 1), (month =? 12); simpl in *; lia.
Qed.

Lemma monthrange_Ok year month :
  datetime.MINYEAR <= year <= datetime.MAXYEAR -> 1 <= month <= 12 ->
  calendar.monthrange year month =
  Ok (datetime.weekday (first_of_month year month),
      datetime._days_in_month year month).
Proof.
  intros Hy Hm. unfold calendar.monthrange, calendar.weekday.
  replace ((1 <=? month) && (month <=? 12)) with true by lia.
  replace ((datetime.MINYEAR <=? year) && (year <=? datetime.MAXYEAR)) with true by lia.
  simpl.
  pose proof (_days_in_month_range year month Hm).
  rewrite new_Ok by (apply (valid_day year month 1); lia). simpl.
  fold (calendar._monthlen year month). by rewrite _monthlen_days_in_month.
Qed.

Lemma week_offsets day1 ndays :
  0 <= day1 < 7 -> 28 <= ndays <= 31 ->
  let days_before := (day1 - 6) mod 7 in
  let days_after := (6 - day1 - ndays) mod 7 in
  0 <= days_before <= 6 /\ 0 <= days_after <= 6 /\
  exists n, days_before + ndays + days_after = 7 * n /\ 4 <= n <= 6 /\
    (n = 4 <-> ndays = 28 /\ day1 = 6).
Proof.
  intros H1 H2 days_before days_after. subst days_before days_after.
  split; [Z.div_mod_to_equations; lia|]. split; [Z.div_mod_to_equations; lia|].
  exists (((day1 - 6) mod 7 + ndays + (6 - day1 - ndays) mod 7) / 7).
  Z.div_mod_to_equations. lia.
Qed.

Lemma itermonthdates_Ok year month :
  valid_year_month year month ->
  calendar.itermonthdates 6 year month = Ok (grid_dates year month).
Proof.
  intros Hv. pose proof (valid_year_month_year _ _ Hv) as Hy.
  destruct Hv as (Hm & Hp & Hn).
  unfold calendar.itermonthdates, calendar.itermonthdays3.
  rewrite monthrange_Ok by done. cbn [mbind result_bind].
  unfold grid_dates.
  set (day1 := datetime.weekday (first_of_month year month)).
  set (ndays := datetime._days_in_month year month).
  assert (Hd1 : 0 <= day1 < 7) by (apply Z.mod_pos_bound; lia).
  pose proof (_days_in_month_range year month Hm) as Hnd. fold ndays in Hnd.
  destruct (week_offsets day1 ndays Hd1 Hnd) as (Hb & Ha & _).
  pose proof (toordinal_prev_month year month Hm) as Hpm.
  destruct (calendar._prevmonth year month) as [yp mp] eqn:Ep.
  destruct (calendar._nextmonth year month) as [yn mn] eqn:En.
  destruct Hpm as [_ Hmp]. simpl in Hp, Hn.
  assert (Hmn : 1 <= mn <= 12).
  { unfold calendar._nextmonth in En. destruct (month =? 12) eqn:E; injection En as <- <-; lia. }
  assert (Hyp : datetime.MINYEAR <= yp <= datetime.MAXYEAR).
  { unfold calendar._prevmonth in Ep.
    destruct (month =? 1); injection Ep as <- <-; lia. }
  assert (Hyn : datetime.MINYEAR <= yn <= datetime.MAXYEAR).
  { unfold calendar._nextmonth in En.
    destruct (month =? 12); injection En as <- <-; lia. }
  rewrite _monthlen_days_in_month by done.
  pose proof (_days_in_month_range yp mp Hmp) as Hdp.
  pose proof (_days_in_month_range yn mn Hmn) as Hdn.
  simpl. unfold range, month_days.
  rewrite (mapM_result_Ok _ (fun '(y, m, d) => datetime.mkdate y m d)).
  - rewrite !fmap_app, <- !list_fmap_compose.
    rewrite Z.add_simpl_r, Z.add_simpl_r.
    replace (datetime._days_in_month yp mp + 1
             - (datetime._days_in_month yp mp + 1 - (day1 - 6) mod 7))
      with ((day1 - 6) mod 7) by lia.
    reflexivity.
  - rewrite !Forall_app, !Forall_fmap. repeat split.
    + apply Forall_seqZ. intros d Hd. simpl. apply new_Ok, valid_day; lia.
    + apply Forall_seqZ. intros d Hd. simpl. apply new_Ok, valid_day; lia.
    + apply Forall_seqZ. intros d Hd. simpl. apply new_Ok, valid_day; lia.
Qed.

Lemma toordinal_fmap_mkdate y m a n :
  datetime.toordinal <$> (datetime.mkdate y m <$> seqZ a n) =
  seqZ (datetime._ymd2ord y m a) n.
Proof.
  rewrite <- list_fmap_compose.
  replace (datetime._ymd2ord y m a)
    with (datetime._days_before_year y + datetime._days_before_month y m + a)
    by reflexivity.
  rewrite <- fmap_add_seqZ. apply list_fmap_ext. intros i d _. reflexivity.
Qed.

(** The ordinals of the grid are consecutive. *)
Lemma grid_dates_ordinals year month :
  1 <= month <= 12 ->
  let o1 := datetime.toordinal (first_of_month year month) in
  let day1 := datetime.weekday (first_of_month year month) in
  let ndays := datetime._days_in_month year month in
  let days_before := (day1 - 6) mod 7 in
  let days_after := (6 - day1 - ndays) mod 7 in
  datetime.toordinal <$> grid_dates year month =
  seqZ (o1 - days_before) (days_before + ndays + days_after).
Proof.
  intros Hm o1 day1 ndays days_before days_after.
  assert (Hd1 : 0 <= day1 < 7) by (apply Z.mod_pos_bound; lia).
  pose proof (_days_in_month_range year month Hm) as Hnd. fold ndays in Hnd.
  destruct (week_offsets day1 ndays Hd1 Hnd) as (Hb & Ha & _).
  fold days_before days_after in Hb, Ha.
  unfold grid_dates. fold day1 ndays days_before days_after.
  pose proof (toordinal_prev_month year month Hm) as Hpm.
  pose proof (toordinal_next_month year month Hm) as Hnm.
  destruct (calendar._prevmonth year month) as [yp mp].
  destruct (calendar._nextmonth year month) as [yn mn].
  destruct Hpm as [Hpm _].
  unfold month_days. rewrite !fmap_app, !toordinal_fmap_mkdate.
  rewrite <- Z.add_assoc, seqZ_app by lia. f_equal.
  - f_equal. unfold o1, datetime.toordinal, first_of_month. simpl.
    unfold datetime._ymd2ord in *. lia.
  - rewrite seqZ_app by lia. fold ndays. f_equal.
    + f_equal. unfold o1, datetime.toordinal, first_of_month. simpl. lia.
    + f_equal. unfold o1, datetime.toordinal, first_of_month. simpl.
      unfold datetime._ymd2ord in *. lia.
Qed.

Lemma filter_all {A} (P : A -> Prop) `{forall x, Decision (P x)} (l : list A) :
  Forall P l -> filter P l = l.
Proof.
  induction 1 as [|x l Hx _ IH]; [done|].
  rewrite filter_cons. case_decide; [|done]. by rewrite IH.
Qed.

Lemma filter_none {A} (P : A -> Prop) `{forall x, Decision (P x)} (l : list A) :
  Forall (fun x => ~ P x) l -> filter P l = [].
Proof.
  induction 1 as [|x l Hx _ IH]; [done|].
  rewrite filter_cons. case_decide; [done|]. by rewrite IH.
Qed.

(** The dates of the grid that are in the month are the days of the month. *)
Lemma grid_dates_in_month year month :
  1 <= month <= 12 ->
  filter (fun d => is_current_month year month d = true) (grid_dates year month) =
  month_days year month.
Proof.
  intros Hm. unfold grid_dates.
  assert (Hp : (calendar._prevmonth year month).2 <> month)
    by (unfold calendar._prevmonth; destruct (month =? 1) eqn:E; simpl; lia).
  assert (Hn : (calendar._nextmonth year month).2 <> month)
    by (unfold calendar._nextmonth; destruct (month =? 12) eqn:E; simpl; lia).
  destruct (calendar._prevmonth year month) as [yp mp].
  destruct (calendar._nextmonth year month) as [yn mn]. simpl in Hp, Hn.
  rewrite !filter_app.
  rewrite filter_none, filter_all, filter_none; [by rewrite app_nil_r|..].
  - apply Forall_fmap, Forall_forall. intros d _. unfold is_current_month. simpl.
    rewrite andb_true_iff, Z.eqb_eq. lia.
  - apply Forall_fmap, Forall_forall. intros d _. unfold is_current_month. simpl.
    rewrite andb_true_iff, !Z.eqb_eq. lia.
  - apply Forall_fmap, Forall_forall. intros d _. unfold is_current_month. simpl.
    rewrite andb_true_iff, Z.eqb_eq. lia.
Qed.

(** ** Rows of seven *)

Lemma rows_nat {A} (l : list A) n :
  0 <= n -> len l = 7 * n ->
  (fun i => slice l i (i + 7)) <$> range_step 0 (len l) 7 =
  (fun k : nat => take 7 (drop (7 * k) l)) <$> seq 0 (Z.to_nat n).
Proof.
  intros Hn Hl. unfold range_step. rewrite Hl.
  replace ((7 * n - 0 + 7 - 1) / 7) with n by (Z.div_mod_to_equations; lia).
  unfold seqZ. rewrite <- !list_fmap_compose.
  apply list_fmap_ext. intros i k _. simpl. unfold slice.
  f_equal; [lia|]. f_equal. lia.
Qed.

Lemma concat_rows {A} n : forall l : list A,
  length l = (7 * n)%nat ->
  concat ((fun k : nat => take 7 (drop (7 * k) l)) <$> seq 0 n) = l.
Proof.
  induction n as [|n IH]; intros l Hl.
  - by destruct l.
  - cbn [seq fmap list_fmap concat]. rewrite <- fmap_S_seq, <- list_fmap_compose.
    transitivity (take 7 l ++ drop 7 l); [|apply take_drop].
    f_equal.
    rewrite <- (IH (drop 7 l)) by (rewrite length_drop; lia).
    f_equal. apply list_fmap_ext. intros i k _. simpl.
    rewrite drop_drop. do 2 f_equal. lia.
Qed.

Lemma rows_lookup {A} (l : list A) n k :
  (k < n)%nat ->
  ((fun k : nat => take 7 (drop (7 * k) l)) <$> seq 0 n) !! k =
  Some (take 7 (drop (7 * k) l)).
Proof.
  intros Hk. rewrite list_lookup_fmap, lookup_seq_lt by done. reflexivity.
Qed.

Lemma take_drop_seqZ a L k :
  0 <= k -> k + 7 <= L ->
  take 7 (drop (Z.to_nat k) (seqZ a L)) = seqZ (a + k) 7.
Proof.
  intros Hk HL.
  replace L with (k + (7 + (L - k - 7))) by lia.
  rewrite seqZ_app by lia. rewrite drop_app_length' by (rewrite length_seqZ; lia).
  rewrite seqZ_app by lia. rewrite take_app_length' by (rewrite length_seqZ; lia).
  done.
Qed.

Lemma weekdays_of_week s :
  s mod 7 = 0 ->
  (fun o => (o + 6) mod 7) <$> seqZ s 7 = [6; 0; 1; 2; 3; 4; 5].
Proof.
  intros Hs. unfold seqZ. simpl.
  repeat (apply (f_equal2 cons); [Z.div_mod_to_equations; lia|]). reflexivity.
Qed.

Lemma grid_dates_valid year month :
  valid_year_month year month -> Forall datetime.valid (grid_dates year month).
Proof.
  intros Hv. pose proof (valid_year_month_year _ _ Hv) as Hy.
  destruct Hv as (Hm & Hp & Hn). unfold grid_dates.
  set (day1 := datetime.weekday (first_of_month year month)).
  set (ndays := datetime._days_in_month year month).
  assert (Hd1 : 0 <= day1 < 7) by (apply Z.mod_pos_bound; lia).
  pose proof (_days_in_month_range year month Hm) as Hnd. fold ndays in Hnd.
  destruct (week_offsets day1 ndays Hd1 Hnd) as (Hb & Ha & _).
  pose proof (toordinal_prev_month year month Hm) as Hpm.
  unfold calendar._prevmonth, calendar._nextmonth in *.
  unfold month_days. fold ndays.
  destruct (month =? 1) eqn:E1, (month =? 12) eqn:E12; simpl in Hp, Hn;
    destruct Hpm as [_ Hmp];
    rewrite !Forall_app, !Forall_fmap; repeat split;
    apply Forall_seqZ; intros d Hd; simpl;
    match goal with
    | |- datetime.valid (datetime.mkdate ?y ?m _) =>
        pose proof (_days_in_month_range y m ltac:(lia))
    end;
    apply valid_day; lia.
Qed.

Lemma grid_dates_length year month :
  1 <= month <= 12 ->
  exists n : nat,
    (4 <= n <= 6)%nat /\
    (n = 4%nat <->
     datetime._days_in_month year month = 28 /\
     datetime.weekday (first_of_month year month) = 6) /\
    length (grid_dates year month) = (7 * n)%nat.
Proof.
  intros Hm.
  pose proof (grid_dates_ordinals year month Hm) as Hord. simpl in Hord.
  apply (f_equal length) in Hord. rewrite length_fmap, length_seqZ in Hord.
  set (day1 := datetime.weekday (first_of_month year month)) in *.
  set (ndays := datetime._days_in_month year month) in *.
  assert (Hd1 : 0 <= day1 < 7) by (apply Z.mod_pos_bound; lia).
  pose proof (_days_in_month_range year month Hm) as Hnd. fold ndays in Hnd.
  destruct (week_offsets day1 ndays Hd1 Hnd) as (Hb & Ha & n & Hn & Hr & H4).
  exists (Z.to_nat n). split; [lia|]. split; [|lia].
  rewrite <- H4. lia.
Qed.

(** The week rows: the grid dates, seven at a time. *)
Lemma monthdatescalendar_Ok year month :
  valid_year_month year month ->
  exists n : nat,
    (4 <= n <= 6)%nat /\
    (n = 4%nat <->
     datetime._days_in_month year month = 28 /\
     datetime.weekday (first_of_month year month) = 6) /\
    length (grid_dates year month) = (7 * n)%nat /\
    calendar.monthdatescalendar 6 year month =
    Ok ((fun k : nat => take 7 (drop (7 * k) (grid_dates year month)))
          <$> seq 0 n).
Proof.
  intros Hv. destruct (grid_dates_length year month) as (n & Hn & H4 & Hlen);
    [apply Hv|].
  exists n. repeat split; try lia; try tauto.
  unfold calendar.monthdatescalendar. rewrite itermonthdates_Ok by done.
  cbn [mbind result_bind mret result_ret]. f_equal.
  rewrite (rows_nat _ (Z.of_nat n)) by (unfold len; lia).
  by rewrite Nat2Z.id.
Qed.

Lemma grid_row_ordinals year month (n k : nat) :
  1 <= month <= 12 ->
  length (grid_dates year month) = (7 * n)%nat -> (k < n)%nat ->
  exists s, s mod 7 = 0 /\
    datetime.toordinal <$> take 7 (drop (7 * k) (grid_dates year month)) =
    seqZ s 7.
Proof.
  intros Hm Hlen Hk.
  pose proof (grid_dates_ordinals year month Hm) as Hord. simpl in Hord.
  pose proof (f_equal length Hord) as Hl.
  rewrite length_fmap, length_seqZ, Hlen in Hl.
  rewrite fmap_take, fmap_drop, Hord.
  set (o1 := datetime.toordinal (first_of_month year month)) in *.
  exists (o1 - (datetime.weekday (first_of_month year month) - 6) mod 7
          + 7 * Z.of_nat k).
  split.
  - unfold datetime.weekday. fold o1. Z.div_mod_to_equations. lia.
  - replace (7 * k)%nat with (Z.to_nat (7 * Z.of_nat k)) by lia.
    apply take_drop_seqZ; lia.
Qed.

End grid.

Lemma grid_rows_seven year month (n : nat) :
  length (grid_dates year month) = (7 * n)%nat ->
  Forall (fun week : list date => length week = 7%nat)
    ((fun k : nat => take 7 (drop (7 * k) (grid_dates year month))) <$> seq 0 n).
Proof.
  intros Hlen. apply Forall_fmap, Forall_seq. intros k Hk. simpl.
  rewrite length_take, length_drop. lia.
Qed.

(** [generate_month_image] computes a layout for every valid month and
    every list of events. *)
Lemma generate_month_image_total `{IsoFormat} year month events :
  valid_year_month year month -> Forall wf_event events ->
  exists weeks wsegs, generate_month_image year month events = Ok (weeks, wsegs).
Proof.
  intros Hv Hwf. unfold generate_month_image.
  destruct (monthdatescalendar_Ok year month Hv) as (n & _ & _ & Hlen & ->).
  cbn [mbind result_bind].
  pose proof (valid_year_month_year _ _ Hv) as Hy.
  rewrite _prepare_events_bounds; [|lia|apply Hv..].
  destruct (for_each_prepare_total (first_of_month year month)
              (last_of_month year month) events [] Hwf) as [prepared ->].
  cbn [mbind result_bind].
  rewrite build_segments_rows.
  - cbn [mbind result_bind mret result_ret]. eauto.
  - eapply Forall_impl; [apply (grid_rows_seven year month n Hlen)|].
    intros week Hw. simpl in Hw. by destruct week.
Qed.

(** ** The layout at work *)

(** A single-day event on 3 March 2024, a Sunday: one segment, in column 0
    of the second week row, slot 0. *)
Example single_day_event :
  snd <$> generate_month_image 2024 3 [all_day "m" "2024-03-03" "2024-03-03"] =
  Ok [ []; [segment_of (one_day "m" (ymd 2024 3 3)) 0 1 0]; []; []; []; [] ].
Proof. reflexivity. Qed.

(** An event from 28 September to 2 October (exclusive end 3 October), as
    prepared for September and for October. *)
Example clipped_to_september :
  _prepare_events [all_day "x" "2024-09-28" "2024-10-03"] 2024 9 =
  Ok [ {| summary := str "x"; start_date := ymd 2024 9 28;
          end_date := ymd 2024 9 30; color_id := None |} ].
Proof. reflexivity. Qed.

Example clipped_to_october :
  _prepare_events [all_day "x" "2024-09-28" "2024-10-03"] 2024 10 =
  Ok [ {| summary := str "x"; start_date := ymd 2024 10 1;
          end_date := ymd 2024 10 2; color_id := None |} ].
Proof. reflexivity. Qed.

(** An event over a week boundary: one segment in each week it touches. *)
Example event_over_two_weeks :
  snd <$> generate_month_image 2024 3 [all_day "w" "2024-03-08" "2024-03-12"] =
  Ok [ []; [segment_of (one_day "w" (ymd 2024 3 8)) 5 2 0];
       [segment_of (one_day "w" (ymd 2024 3 8)) 0 2 0]; []; []; [] ].
Proof. reflexivity. Qed.

(** The months at the two ends of the range of [datetime.date] have no
    grid. *)
Example no_grid_for_january_of_year_1 :
  calendar.monthdatescalendar 6 1 1 = Raise ValueError.
Proof. reflexivity. Qed.

Example no_grid_for_december_9999 :
  calendar.monthdatescalendar 6 9999 12 = Raise ValueError.
Proof. reflexivity. Qed.

(** * The claims *)

(** ** Slot allocation *)

(** C1. In every week row built by the slot allocator, two distinct segments
    that have the same slot have column ranges [[start_col, end_col]] that do
    not overlap. *)
Theorem same_slot_segments_disjoint weeks evs wsegs :
  build_segments weeks evs = Ok wsegs ->
  forall wi segs i j s1 s2,
    wsegs !! wi = Some segs ->
    i <> j -> segs !! i = Some s1 -> segs !! j = Some s2 ->
    slot s1 = slot s2 -> ~ seg_overlap s1 s2.
Proof.
  intros Hb wi segs i j s1 s2 Hwi Hij H1 H2 Hs.
  apply build_segments_placed in Hb as [_ Hall].
  rewrite Forall_forall in Hall.
  assert (Hp : placed segs) by (apply Hall, list_elem_of_lookup; eauto).
  by apply (placed_no_clash segs Hp i j).
Qed.

Lemma same_slot_segments_disjoint_witness :
  ~ seg_overlap (segment_of (one_day "a" (ymd 2024 3 5)) 2 1 0)
                (segment_of (one_day "c" (ymd 2024 3 6)) 3 1 0).
Proof.
  apply (same_slot_segments_disjoint two_weeks
           [one_day "a" (ymd 2024 3 5); one_day "b" (ymd 2024 3 5);
            one_day "c" (ymd 2024 3 6)]
           [ [segment_of (one_day "a" (ymd 2024 3 5)) 2 1 0;
              segment_of (one_day "b" (ymd 2024 3 5)) 2 1 1;
              segment_of (one_day "c" (ymd 2024 3 6)) 3 1 0]; [] ]
           eq_refl 0%nat
           [segment_of (one_day "a" (ymd 2024 3 5)) 2 1 0;
            segment_of (one_day "b" (ymd 2024 3 5)) 2 1 1;
            segment_of (one_day "c" (ymd 2024 3 6)) 3 1 0]
           0%nat 2%nat); [reflexivity|lia|reflexivity..].
Defined.

(** The same for the layout [generate_month_image] computes. *)
Corollary generate_month_image_disjoint `{IsoFormat} year month events weeks wsegs :
  generate_month_image year month events = Ok (weeks, wsegs) ->
  forall wi segs i j s1 s2,
    wsegs !! wi = Some segs ->
    i <> j -> segs !! i = Some s1 -> segs !! j = Some s2 ->
    slot s1 = slot s2 -> ~ seg_overlap s1 s2.
Proof.
  unfold generate_month_image.
  destruct (calendar.monthdatescalendar 6 year month) as [mw|]; simpl; [|done].
  destruct (_prepare_events events year month) as [pe|]; simpl; [|done].
  destruct (build_segments mw pe) as [ws|] eqn:Hb; simpl; [|done].
  intros [= <- <-] wi segs i j s1 s2 Hwi Hij H1 H2 Hs.
  apply build_segments_placed in Hb as [_ Hall].
  rewrite Forall_forall in Hall.
  assert (Hp : placed segs) by (apply Hall, list_elem_of_lookup; eauto).
  by apply (placed_no_clash segs Hp i j).
Qed.

(** C2. The slot given to a segment is the smallest index in 0..2 that is
    free for its columns (no segment already in the row with that slot
    overlaps them); when there is none, the row is left as it is and nothing
    is raised.  Four single-day events on one date, in input order: the first
    three get the slots 0, 1, 2 in the week of that date and the fourth gets
    no segment. *)
Theorem slot_is_first_fit :
  (forall segs a b,
     match find_slot segs a b 3 with
     | Some k =>
         0 <= k < 3 /\ eligible segs k a b /\
         forall j, 0 <= j < k -> ~ eligible segs j a b
     | None => forall j, 0 <= j < 3 -> ~ eligible segs j a b
     end) /\
  (forall ev st wi week week_start week_end segs,
     head week = Some week_start -> last week = Some week_end ->
     0 <= wi -> st !! Z.to_nat wi = Some segs ->
     let seg_start := datetime.max (start_date ev) week_start in
     let seg_end := datetime.min (end_date ev) week_end in
     let a := datetime.diff_days seg_start week_start in
     let n := datetime.diff_days seg_end seg_start + 1 in
     datetime.leb seg_start seg_end = true ->
     place_segment ev st (wi, week) =
     Ok match find_slot segs a (a + n - 1) 3 with
        | Some k => <[ Z.to_nat wi := segs ++ [segment_of ev a n k] ]> st
        | None => st
        end) /\
  (forall weeks e1 e2 e3 e4 d,
     Forall (fun week => week <> []) weeks ->
     start_date e1 = d -> end_date e1 = d -> start_date e2 = d -> end_date e2 = d ->
     start_date e3 = d -> end_date e3 = d -> start_date e4 = d -> end_date e4 = d ->
     build_segments weeks [e1; e2; e3; e4] =
     Ok ((fun week =>
            match head week, last week with
            | Some week_start, Some week_end =>
                let c := datetime.diff_days d week_start in
                if datetime.leb week_start d && datetime.leb d week_end
                then [segment_of e1 c 1 0; segment_of e2 c 1 1; segment_of e3 c 1 2]
                else []
            | _, _ => []
            end) <$> weeks)).
Proof.
  split; [|split].
  - intros segs a b. apply find_slot_spec. lia.
  - intros ev st wi week week_start week_end segs Hh Hl Hwi Hsegs
      seg_start seg_end a n Hle.
    rewrite (place_segment_row ev st wi week segs); [|by destruct week|done..].
    unfold row_step. rewrite Hh, Hl. fold seg_start seg_end. rewrite Hle.
    fold a n. destruct (find_slot segs a (a + n - 1) 3); [done|].
    by rewrite list_insert_id.
  - intros weeks e1 e2 e3 e4 d Hne S1 E1 S2 E2 S3 E3 S4 E4.
    rewrite build_segments_rows by done. f_equal.
    apply Forall_fmap_ext. eapply Forall_impl; [exact Hne|].
    intros week Hw. simpl in Hw.
    destruct (nonempty_head_last week Hw) as (ws & we & Hh & Hl).
    rewrite Hh, Hl. by apply (row_four_single_day week ws we).
Qed.

Lemma slot_is_first_fit_witness :
  place_segment (one_day "a" (ymd 2024 3 5)) [ []; [] ]
    (0, ymd 2024 3 <$> seqZ 3 7) =
  Ok [ [segment_of (one_day "a" (ymd 2024 3 5)) 2 1 0]; [] ] /\
  build_segments two_weeks four_on_one_day =
  Ok [ [segment_of (one_day "a" (ymd 2024 3 5)) 2 1 0;
        segment_of (one_day "b" (ymd 2024 3 5)) 2 1 1;
        segment_of (one_day "c" (ymd 2024 3 5)) 2 1 2]; [] ].
Proof.
  destruct slot_is_first_fit as (_ & Hplace & Hfour). split.
  - apply (Hplace (one_day "a" (ymd 2024 3 5)) [ []; [] ] 0
             (ymd 2024 3 <$> seqZ 3 7) (ymd 2024 3 3) (ymd 2024 3 9) []).
    + reflexivity.
    + reflexivity.
    + lia.
    + reflexivity.
    + reflexivity.
  - unfold four_on_one_day.
    rewrite (Hfour two_weeks _ _ _ _ (ymd 2024 3 5)).
    + reflexivity.
    + repeat constructor; discriminate.
    + reflexivity.
    + reflexivity.
    + reflexivity.
    + reflexivity.
    + reflexivity.
    + reflexivity.
    + reflexivity.
    + reflexivity.
Defined.

(** C6, as amended.  A week row can hold more than three segments; what is
    bounded by the three slots is the number of its segments that cover any
    one day column. *)
Theorem at_most_three_segments_per_column weeks evs wsegs :
  build_segments weeks evs = Ok wsegs ->
  forall wi segs c,
    wsegs !! wi = Some segs ->
    len (filter (fun s => covers c s = true) segs) <= 3.
Proof.
  intros Hb wi segs c Hwi.
  apply build_segments_placed in Hb as [_ Hall].
  rewrite Forall_forall in Hall.
  apply placed_covers_le, Hall, list_elem_of_lookup. eauto.
Qed.

Lemma at_most_three_segments_per_column_witness :
  len (filter (fun s => covers 2 s = true)
         [segment_of (one_day "a" (ymd 2024 3 5)) 2 1 0;
          segment_of (one_day "b" (ymd 2024 3 5)) 2 1 1;
          segment_of (one_day "c" (ymd 2024 3 5)) 2 1 2]) <= 3.
Proof.
  apply (at_most_three_segments_per_column two_weeks four_on_one_day
           [ [segment_of (one_day "a" (ymd 2024 3 5)) 2 1 0;
              segment_of (one_day "b" (ymd 2024 3 5)) 2 1 1;
              segment_of (one_day "c" (ymd 2024 3 5)) 2 1 2]; [] ]
           eq_refl 0%nat); reflexivity.
Defined.

(** C6 as stated fails: four single-day events on four days of one week
    give that week row four segments, all in slot 0. *)
Lemma week_row_with_four_segments :
  exists weeks wsegs segs,
    generate_month_image 2024 3 four_days = Ok (weeks, wsegs) /\
    wsegs !! 1%nat = Some segs /\
    slot <$> segs = [0; 0; 0; 0] /\
    ~ len segs <= 3.
Proof.
  eexists _, _, _. split; [vm_compute; reflexivity|].
  split; [reflexivity|]. split; [reflexivity|]. unfold len. simpl. lia.
Qed.

(** C10. A prepared event whose [start_date] is after its [end_date] gets
    no segment in any week row: the loop body leaves the rows as they are,
    and the layout is the one computed without the event.  (Such entries
    occur: see [reversed_raw_event_is_kept].) *)
Theorem reversed_event_never_drawn ev :
  datetime.gtb (start_date ev) (end_date ev) = true ->
  (forall st wi week, week <> [] -> place_segment ev st (wi, week) = Ok st) /\
  (forall weeks evs1 evs2,
     Forall (fun week => week <> []) weeks ->
     build_segments weeks (evs1 ++ ev :: evs2) =
     build_segments weeks (evs1 ++ evs2)).
Proof.
  intros Hrev.
  assert (Hrow : forall week segs, row_step week segs ev = segs).
  { intros week segs. unfold row_step.
    destruct (head week); [|done]. destruct (last week); [|done].
    by rewrite reversed_event_no_overlap. }
  split.
  - intros st wi week Hne.
    destruct (nonempty_head_last week Hne) as (ws & we & Hh & Hl).
    unfold place_segment. destruct week as [|d0 week']; [done|].
    rewrite getitem_head, (getitem_last _ _ Hl). simpl.
    by rewrite reversed_event_no_overlap.
  - intros weeks evs1 evs2 Hne.
    rewrite !build_segments_rows by done. f_equal.
    apply Forall_fmap_ext, Forall_forall. intros week _.
    rewrite !foldl_app. simpl. by rewrite Hrow.
Qed.

Lemma reversed_event_never_drawn_witness :
  place_segment reversed [ []; [] ] (0, ymd 2024 3 <$> seqZ 3 7) =
  Ok [ []; [] ] /\
  build_segments two_weeks (four_on_one_day ++ reversed :: []) =
  build_segments two_weeks (four_on_one_day ++ []).
Proof.
  destruct (reversed_event_never_drawn reversed eq_refl) as [Hrow Hall]. split.
  - apply Hrow. discriminate.
  - apply Hall. repeat constructor; discriminate.
Defined.

(** ** Normalisation *)

(** C3. For an event whose start and end are the dates [s] and [e], the
    inclusive end is the day before [e] exactly when [e > s], and [e]
    otherwise.  An event from day 5 to the exclusive end day 7 of the month
    becomes the inclusive range from day 5 to day 6. *)
Theorem exclusive_end_made_inclusive `{IsoFormat} :
  (forall first last prepared ev s e,
     wf_event ev ->
     _to_date (raw_start ev) = Ok s -> _to_date (raw_end ev) = Ok e ->
     exists e_inclusive,
       datetime.valid e_inclusive /\
       (datetime.gtb e s = true ->
        datetime.toordinal e_inclusive = datetime.toordinal e - 1) /\
       (datetime.gtb e s = false -> e_inclusive = e) /\
       prepare_event first last prepared ev =
       Ok (if in_month first last s e_inclusive
           then prepared ++ [entry first last ev s e_inclusive]
           else prepared)) /\
  (forall year month ev,
     valid_year_month year month ->
     _to_date (raw_start ev) = Ok (datetime.mkdate year month 5) ->
     _to_date (raw_end ev) = Ok (datetime.mkdate year month 7) ->
     _prepare_events [ev] year month =
     Ok [ {| summary := default (str "(No title)") (raw_summary ev);
             start_date := datetime.mkdate year month 5;
             end_date := datetime.mkdate year month 6;
             color_id := raw_color_id ev |} ]).
Proof.
  split.
  - intros first last prepared ev s e [Hws Hwe] Hs He.
    destruct (prepare_event_parsed first last prepared ev s e)
      as (ei & Hv & H1 & H2 & _ & Heq);
      [by eapply _to_date_valid, Hs | by eapply _to_date_valid, He | done.. |].
    exists ei. rewrite gtb_ltb. split; [done|].
    destruct (ltb_reflect s e); repeat split; try done; by auto.
  - intros year month ev (Hm & Hprev & Hnext) Hs He.
    assert (Hy : datetime.MINYEAR <= year <= datetime.MAXYEAR).
    { unfold calendar._prevmonth, calendar._nextmonth in *.
      destruct (month =? 1), (month =? 12); simpl in *; lia. }
    pose proof (_days_in_month_range year month Hm) as Hdim.
    assert (V5 : datetime.valid (datetime.mkdate year month 5))
      by (apply valid_day; lia).
    assert (V6 : datetime.valid (datetime.mkdate year month 6))
      by (apply valid_day; lia).
    assert (V7 : datetime.valid (datetime.mkdate year month 7))
      by (apply valid_day; lia).
    rewrite _prepare_events_bounds by (done || lia). simpl.
    destruct (prepare_event_parsed (first_of_month year month)
                (last_of_month year month) [] ev _ _ V5 V7 Hs He)
      as (ei & Hv & H1 & _ & _ & ->).
    assert (ei = datetime.mkdate year month 6) as ->.
    { apply toordinal_inj; [done..|]. rewrite H1.
      - unfold datetime.toordinal, datetime._ymd2ord. simpl. lia.
      - unfold date_lt. simpl. lia. }
    assert (Hmax : datetime.max (datetime.mkdate year month 5)
                     (first_of_month year month) = datetime.mkdate year month 5)
      by (unfold first_of_month; date_order).
    assert (Hmin : datetime.min (datetime.mkdate year month 6)
                     (last_of_month year month) = datetime.mkdate year month 6)
      by (unfold last_of_month; date_order).
    unfold in_month, entry. rewrite Hmax, Hmin.
    replace (datetime.leb _ _ && datetime.geb _ _) with true; [done|].
    symmetry. unfold first_of_month, last_of_month. date_order.
Qed.

Lemma exclusive_end_made_inclusive_witness :
  (exists e_inclusive,
     datetime.valid e_inclusive /\
     (datetime.gtb (ymd 2024 3 7) (ymd 2024 3 5) = true ->
      datetime.toordinal e_inclusive = datetime.toordinal (ymd 2024 3 7) - 1) /\
     (datetime.gtb (ymd 2024 3 7) (ymd 2024 3 5) = false ->
      e_inclusive = ymd 2024 3 7) /\
     prepare_event (ymd 2024 3 1) (ymd 2024 3 31) []
       (all_day "trip" "2024-03-05" "2024-03-07") =
     Ok (if in_month (ymd 2024 3 1) (ymd 2024 3 31) (ymd 2024 3 5) e_inclusive
         then [] ++ [entry (ymd 2024 3 1) (ymd 2024 3 31)
                       (all_day "trip" "2024-03-05" "2024-03-07")
                       (ymd 2024 3 5) e_inclusive]
         else [])) /\
  _prepare_events [all_day "trip" "2024-03-05" "2024-03-07"] 2024 3 =
  Ok [ {| summary := str "trip"; start_date := ymd 2024 3 5;
          end_date := ymd 2024 3 6; color_id := None |} ].
Proof.
  destruct (@exclusive_end_made_inclusive iso_date_only) as [Hend Hday]. split.
  - apply (Hend (ymd 2024 3 1) (ymd 2024 3 31) []
             (all_day "trip" "2024-03-05" "2024-03-07")).
    + split; exact I.
    + reflexivity.
    + reflexivity.
  - apply (Hday 2024 3 (all_day "trip" "2024-03-05" "2024-03-07")).
    + unfold valid_year_month. simpl.
      unfold datetime.MINYEAR, datetime.MAXYEAR. lia.
    + reflexivity.
    + reflexivity.
Defined.

(** C5, as amended.  Both dates of every entry of the prepared list lie
    within the first and the last day of the target month; and every entry is
    made from an event of the list, and has [start_date <= end_date] exactly
    when that event does not end before it starts. *)
Theorem prepared_events_within_month `{IsoFormat} year month events prepared :
  Forall wf_event events ->
  _prepare_events events year month = Ok prepared ->
  Forall (fun p =>
            date_le (first_of_month year month) (start_date p) /\
            date_le (start_date p) (last_of_month year month) /\
            date_le (first_of_month year month) (end_date p) /\
            date_le (end_date p) (last_of_month year month) /\
            exists ev s e e_inclusive,
              ev ∈ events /\
              _to_date (raw_start ev) = Ok s /\ _to_date (raw_end ev) = Ok e /\
              p = entry (first_of_month year month) (last_of_month year month)
                    ev s e_inclusive /\
              (date_le (start_date p) (end_date p) <-> date_le s e)) prepared.
Proof.
  intros Hwf Hprep.
  destruct (_prepare_events_Ok_inv _ _ _ _ Hprep) as (Hy & Hm & Hnext).
  rewrite _prepare_events_bounds in Hprep by done.
  rewrite Forall_forall in Hwf.
  revert Hprep. apply for_each_inv; [|constructor].
  intros st ev st' Hev Hst Hstep.
  pose proof (prepare_event_step _ _ _ _ _ (Hwf ev Hev) Hstep) as Hbounds.
  apply prepare_event_step_order in Hstep
    as [->|(s & e & ei & -> & Hs & He & Hord)]; [done| |by apply Hwf].
  destruct Hbounds as [Heq|(p & s' & e' & Heq & _ & _ & H1 & H2 & H3 & H4 & _)].
  - apply (f_equal length) in Heq. rewrite length_app in Heq. simpl in Heq. lia.
  - apply app_inj_tail in Heq as [_ <-].
    apply Forall_app. split; [done|]. repeat constructor; try done.
    by exists ev, s, e, ei.
Qed.

Lemma prepared_events_within_month_witness :
  Forall (fun p =>
            date_le (first_of_month 2024 3) (start_date p) /\
            date_le (start_date p) (last_of_month 2024 3) /\
            date_le (first_of_month 2024 3) (end_date p) /\
            date_le (end_date p) (last_of_month 2024 3) /\
            exists ev s e e_inclusive,
              ev ∈ [all_day "trip" "2024-02-27" "2024-03-03";
                    all_day "r" "2024-03-10" "2024-03-05"] /\
              @_to_date iso_date_only (raw_start ev) = Ok s /\
              @_to_date iso_date_only (raw_end ev) = Ok e /\
              p = entry (first_of_month 2024 3) (last_of_month 2024 3)
                    ev s e_inclusive /\
              (date_le (start_date p) (end_date p) <-> date_le s e))
    [ {| summary := str "trip"; start_date := ymd 2024 3 1;
         end_date := ymd 2024 3 2; color_id := None |};
      {| summary := str "r"; start_date := ymd 2024 3 10;
         end_date := ymd 2024 3 5; color_id := None |} ].
Proof.
  apply (@prepared_events_within_month iso_date_only 2024 3
           [all_day "trip" "2024-02-27" "2024-03-03";
            all_day "r" "2024-03-10" "2024-03-05"]).
  - repeat constructor.
  - reflexivity.
Defined.

(** C5 as stated fails: an event whose end precedes its start, both in the
    month, is kept with [start_date] after [end_date]. *)
Lemma prepared_event_with_start_after_end :
  _prepare_events [all_day "r" "2024-03-10" "2024-03-05"] 2024 3 =
  Ok [ {| summary := str "r"; start_date := ymd 2024 3 10;
          end_date := ymd 2024 3 5; color_id := None |} ] /\
  ~ date_le (ymd 2024 3 10) (ymd 2024 3 5).
Proof.
  split; [reflexivity|]. unfold date_le, date_lt. simpl. lia.
Qed.

(** C8. An event whose start or end is not a date is skipped: the prepared
    list is the one computed without it, and nothing is raised. *)
Theorem malformed_event_skipped `{IsoFormat} year month evs1 bad evs2 :
  malformed bad ->
  _prepare_events (evs1 ++ bad :: evs2) year month =
  _prepare_events (evs1 ++ evs2) year month /\
  (valid_year_month year month -> Forall wf_event (evs1 ++ evs2) ->
   exists prepared,
     _prepare_events (evs1 ++ bad :: evs2) year month = Ok prepared).
Proof.
  intros Hbad.
  assert (Heq : _prepare_events (evs1 ++ bad :: evs2) year month =
                _prepare_events (evs1 ++ evs2) year month).
  { unfold _prepare_events.
    destruct (datetime.new year month 1) as [first|]; simpl; [|done].
    destruct (if month =? 12 then _ else _) as [next|]; simpl; [|done].
    destruct (datetime.sub_days next 1) as [last|]; simpl; [|done].
    rewrite !for_each_app.
    destruct (for_each _ [] evs1) as [st|]; [|done]. simpl.
    by rewrite prepare_event_malformed. }
  split; [done|].
  intros (Hm & Hprev & Hnext) Hwf. rewrite Heq.
  rewrite _prepare_events_bounds; [by apply for_each_prepare_total| |done..].
  unfold calendar._prevmonth in Hprev.
  destruct (month =? 1); simpl in *; unfold datetime.MINYEAR in *; lia.
Qed.

Lemma malformed_event_skipped_witness :
  _prepare_events
    ([all_day "a" "2024-03-05" "2024-03-07"] ++
     all_day "bad" "tomorrow" "2024-03-07" ::
     [all_day "b" "2024-03-10" "2024-03-10"]) 2024 3 =
  _prepare_events
    ([all_day "a" "2024-03-05" "2024-03-07"] ++
     [all_day "b" "2024-03-10" "2024-03-10"]) 2024 3 /\
  exists prepared,
    _prepare_events
      ([all_day "a" "2024-03-05" "2024-03-07"] ++
       all_day "bad" "tomorrow" "2024-03-07" ::
       [all_day "b" "2024-03-10" "2024-03-10"]) 2024 3 = Ok prepared.
Proof.
  destruct (@malformed_event_skipped iso_date_only 2024 3
              [all_day "a" "2024-03-05" "2024-03-07"]
              (all_day "bad" "tomorrow" "2024-03-07")
              [all_day "b" "2024-03-10" "2024-03-10"] eq_refl) as [Heq Hok].
  split; [exact Heq|]. apply Hok.
  - unfold valid_year_month. simpl.
    unfold datetime.MINYEAR, datetime.MAXYEAR. lia.
  - repeat constructor.
Defined.

(** ** The month grid *)

(** C4. The grid of a valid month is a list of week rows of exactly seven
    dates each, Sunday first; the rows, one after the other, are a run of
    consecutive dates without gap or repetition; and the dates of the grid
    that belong to the month are exactly the days of the month. *)
Theorem month_grid_is_the_month year month :
  valid_year_month year month ->
  exists weeks,
    calendar.monthdatescalendar 6 year month = Ok weeks /\
    Forall (fun week => length week = 7%nat /\
                        datetime.weekday <$> week = [6; 0; 1; 2; 3; 4; 5]) weeks /\
    Forall datetime.valid (concat weeks) /\
    (exists a, datetime.toordinal <$> concat weeks = seqZ a (7 * len weeks)) /\
    filter (fun d => is_current_month year month d = true) (concat weeks) =
    month_days year month.
Proof.
  intros Hv. destruct (monthdatescalendar_Ok year month Hv) as (n & Hn & _ & Hlen & Hw).
  eexists. split; [exact Hw|].
  assert (Hm : 1 <= month <= 12) by apply Hv.
  rewrite (concat_rows n _ Hlen).
  split; [|split; [by apply grid_dates_valid|split]].
  - apply Forall_fmap, Forall_seq. intros k Hk. simpl.
    split; [rewrite length_take, length_drop; lia|].
    destruct (grid_row_ordinals year month n k Hm Hlen ltac:(lia)) as (s & Hs & Ho).
    rewrite <- (weekdays_of_week s Hs), <- Ho, <- list_fmap_compose.
    by apply list_fmap_ext.
  - eexists. rewrite grid_dates_ordinals by done. simpl. f_equal.
    pose proof (f_equal length (grid_dates_ordinals year month Hm)) as Hl.
    simpl in Hl. rewrite length_fmap, length_seqZ, Hlen in Hl.
    unfold len. rewrite length_fmap, length_seq. lia.
  - by apply grid_dates_in_month.
Qed.

Lemma month_grid_is_the_month_witness :
  exists weeks,
    calendar.monthdatescalendar 6 2024 3 = Ok weeks /\
    Forall (fun week => length week = 7%nat /\
                        datetime.weekday <$> week = [6; 0; 1; 2; 3; 4; 5]) weeks /\
    Forall datetime.valid (concat weeks) /\
    (exists a, datetime.toordinal <$> concat weeks = seqZ a (7 * len weeks)) /\
    filter (fun d => is_current_month 2024 3 d = true) (concat weeks) =
    month_days 2024 3.
Proof.
  apply (month_grid_is_the_month 2024 3).
  unfold valid_year_month. simpl. unfold datetime.MINYEAR, datetime.MAXYEAR. lia.
Defined.

(** C7, as amended.  The grid of a valid month has 4, 5 or 6 week rows, and
    it has 4 exactly when the month has 28 days and begins on a Sunday. *)
Theorem month_grid_has_4_to_6_rows year month :
  valid_year_month year month ->
  exists weeks,
    calendar.monthdatescalendar 6 year month = Ok weeks /\
    4 <= len weeks <= 6 /\
    (len weeks = 4 <->
     datetime._days_in_month year month = 28 /\
     datetime.weekday (first_of_month year month) = 6).
Proof.
  intros Hv. destruct (monthdatescalendar_Ok year month Hv) as (n & Hn & H4 & _ & Hw).
  eexists. split; [exact Hw|].
  unfold len. rewrite length_fmap, length_seq. split; [lia|].
  rewrite <- H4. lia.
Qed.

Lemma month_grid_has_4_to_6_rows_witness :
  exists weeks,
    calendar.monthdatescalendar 6 2024 3 = Ok weeks /\
    4 <= len weeks <= 6 /\
    (len weeks = 4 <->
     datetime._days_in_month 2024 3 = 28 /\
     datetime.weekday (first_of_month 2024 3) = 6).
Proof.
  apply (month_grid_has_4_to_6_rows 2024 3).
  unfold valid_year_month. simpl. unfold datetime.MINYEAR, datetime.MAXYEAR. lia.
Defined.

(** C7 as stated fails: February 2015 runs from Sunday 1 to Saturday 28, and
    its grid has exactly four rows, which hold the 28 days of the month and
    nothing else. *)
Lemma february_2015_has_four_rows :
  exists weeks,
    calendar.monthdatescalendar 6 2015 2 = Ok weeks /\
    len weeks = 4 /\
    concat weeks = month_days 2015 2.
Proof. eexists. split; [reflexivity|]. split; reflexivity. Qed.

(** ** The text of a pill *)

(** C9. A title longer than 20 characters is drawn as its first 17
    characters followed by three dots, 20 characters in all; a title of at
    most 20 characters is drawn as it is. *)
Theorem title_truncated_to_budget (title : pystr) :
  (20 < len title ->
   pill_text title = take 17 title ++ str "..." /\ len (pill_text title) = 20) /\
  (len title <= 20 -> pill_text title = title).
Proof.
  unfold pill_text. rewrite Z.gtb_ltb. split; intros Hlen.
  - replace (20 <? len title) with true by lia.
    unfold slice. change (Z.to_nat (20 - 3 - 0)) with 17%nat.
    rewrite drop_0. split; [done|].
    unfold len in *. rewrite length_app, length_take.
    change (length (str "...")) with 3%nat. lia.
  - by replace (20 <? len title) with false by lia.
Qed.

Lemma title_truncated_to_budget_witness :
  pill_text long_title = str "abcdefghijklmnopq..." /\
  len (pill_text long_title) = 20.
Proof.
  destruct (title_truncated_to_budget long_title) as [H _].
  apply H. unfold len. simpl. lia.
Defined.

(** * More on the layout *)

(** ** Segments and the days of their events *)

Lemma enumerate_from_lookup {A} (l : list A) : forall i wi x,
  (wi, x) ∈ enumerate_from i l ->
  i <= wi /\ l !! Z.to_nat (wi - i) = Some x.
Proof.
  induction l as [|y l IH]; intros i wi x Hin; simpl in Hin.
  - by apply elem_of_nil in Hin.
  - apply elem_of_cons in Hin as [[= -> ->]|Hin].
    + split; [lia|]. by rewrite Z.sub_diag.
    + apply IH in Hin as [Hle Hl]. split; [lia|].
      replace (Z.to_nat (wi - i)) with (S (Z.to_nat (wi - (i + 1)))) by lia.
      done.
Qed.

Lemma enumerate_lookup {A} (l : list A) wi x :
  (wi, x) ∈ enumerate l -> 0 <= wi /\ l !! Z.to_nat wi = Some x.
Proof.
  intros Hin. apply enumerate_from_lookup in Hin as [H1 H2].
  by rewrite Z.sub_0_r in H2.
Qed.

(** What one step of the loop does, with the segment it appends. *)
Lemma place_segment_inv ev st wi week st' :
  0 <= wi ->
  place_segment ev st (wi, week) = Ok st' ->
  st' = st \/
  exists segs s,
    st !! Z.to_nat wi = Some segs /\
    st' = <[ Z.to_nat wi := segs ++ [s] ]> st /\
    segment_from week ev s /\
    find_slot segs (start_col s) (end_col s) 3 = Some (slot s).
Proof.
  intros Hwi Hstep.
  destruct week as [|d0 week']; [by rewrite place_segment_empty_week in Hstep|].
  destruct (nonempty_head_last (d0 :: week') ltac:(done)) as (ws & we & Hh & Hl).
  destruct (st !! Z.to_nat wi) as [segs|] eqn:Hsegs.
  - rewrite (place_segment_row ev st wi _ segs) in Hstep by done.
    injection Hstep as <-. unfold row_step. rewrite Hh, Hl.
    destruct (datetime.leb _ _) eqn:Hle; [|left; by rewrite list_insert_id].
    destruct (find_slot segs _ _ 3) as [k|] eqn:Hf;
      [|left; by rewrite list_insert_id].
    right. eexists segs, _. split; [done|]. split; [done|].
    split; [|exact Hf]. by exists ws, we, k.
  - left. unfold place_segment in Hstep.
    rewrite getitem_head, (getitem_last _ _ Hl) in Hstep. simpl in Hstep.
    destruct (datetime.leb _ _); [|congruence].
    unfold getitem in Hstep.
    rewrite resolve_index_nonneg in Hstep.
    + simpl in Hstep. by rewrite Hsegs in Hstep.
    + exfalso. apply lookup_ge_None in Hsegs.
      unfold getitem, resolve_index in Hstep.
      destruct (wi <? 0) eqn:E; [lia|].
      destruct ((wi <? 0) || (len st <=? wi)) eqn:E2; [done|].
      unfold len in *. lia.
Qed.

(** Every segment of a row comes from one of the events, and the rows are
    built by the allocator. *)
Lemma build_segments_from_events weeks evs wsegs :
  build_segments weeks evs = Ok wsegs ->
  forall wi week segs,
    weeks !! wi = Some week -> wsegs !! wi = Some segs ->
    Forall (fun s => exists ev, ev ∈ evs /\ segment_from week ev s) segs.
Proof.
  unfold build_segments.
  set (P := fun st : list (list segment) =>
    forall wi week segs,
      weeks !! wi = Some week -> st !! wi = Some segs ->
      Forall (fun s => exists ev, ev ∈ evs /\ segment_from week ev s) segs).
  apply (for_each_inv P).
  - intros st ev st' Hev. apply (for_each_inv P). clear st st'.
    intros st [wi week] st' Hin HP Hstep.
    apply enumerate_lookup in Hin as [Hwi Hweek].
    apply place_segment_inv in Hstep as [->|(segs & s & Hsegs & -> & Hfrom & _)];
      [done| |done].
    intros wj week' segs' Hweek' Hsegs'.
    destruct (decide (wj = Z.to_nat wi)) as [->|Hne].
    + rewrite list_lookup_insert_eq in Hsegs' by (by eapply lookup_lt_Some).
      injection Hsegs' as <-. rewrite Hweek in Hweek'. injection Hweek' as <-.
      apply Forall_app. split; [by eapply HP|].
      constructor; [|constructor]. by exists ev.
    + rewrite list_lookup_insert_ne in Hsegs' by done. by eapply HP.
  - intros wi week segs _ Hsegs.
    apply lookup_replicate in Hsegs as [-> _]. constructor.
Qed.

Section columns.
Import datetime.

Lemma week_from_bounds a week :
  week_from a week ->
  exists week_start week_end,
    head week = Some week_start /\ last week = Some week_end /\
    valid week_start /\ valid week_end /\
    toordinal week_start = a /\ toordinal week_end = a + 6.
Proof.
  intros [Hv Ho].
  assert (Hlen : length week = 7%nat)
    by (apply (f_equal length) in Ho; by rewrite length_fmap, length_seqZ in Ho).
  destruct week as [|d0 [|d1 [|d2 [|d3 [|d4 [|d5 [|d6 [|]]]]]]]]; try done.
  exists d0, d6. simpl in Ho. injection Ho as H0 _ _ _ _ _ H6.
  repeat (apply Forall_cons in Hv as [? Hv]).
  repeat split; try done. lia.
Qed.

Lemma week_from_lookup a week (c : nat) d :
  week_from a week -> week !! c = Some d ->
  valid d /\ toordinal d = a + Z.of_nat c /\ (c < 7)%nat.
Proof.
  intros [Hv Ho] Hd. split; [|split].
  - rewrite Forall_forall in Hv. apply Hv, list_elem_of_lookup. eauto.
  - assert (H : (toordinal <$> week) !! c = Some (toordinal d))
      by (by rewrite list_lookup_fmap, Hd).
    rewrite Ho in H. apply lookup_seqZ in H. lia.
  - apply lookup_lt_Some in Hd.
    apply (f_equal length) in Ho. rewrite length_fmap, length_seqZ in Ho. lia.
Qed.

Lemma toordinal_max a b :
  valid a -> valid b ->
  valid (datetime.max a b) /\
  toordinal (datetime.max a b) = Z.max (toordinal a) (toordinal b).
Proof.
  intros Ha Hb. unfold datetime.max. rewrite gtb_ltb.
  destruct (ltb_reflect a b) as [H|H].
  - apply toordinal_lt_iff in H; [|done..]. split; [done|lia].
  - split; [done|].
    assert (date_le b a) by done.
    apply toordinal_le_iff in H0; [|done..]. lia.
Qed.

Lemma toordinal_min a b :
  valid a -> valid b ->
  valid (datetime.min a b) /\
  toordinal (datetime.min a b) = Z.min (toordinal a) (toordinal b).
Proof.
  intros Ha Hb. unfold datetime.min.
  destruct (ltb_reflect b a) as [H|H].
  - apply toordinal_lt_iff in H; [|done..]. split; [done|lia].
  - split; [done|].
    assert (date_le a b) by done.
    apply toordinal_le_iff in H0; [|done..]. lia.
Qed.

(** The columns of a segment are the days of its event in the week. *)
Lemma segment_from_columns a week ev s :
  week_from a week -> valid_prepared ev -> segment_from week ev s ->
  0 <= start_col s /\ start_col s <= end_col s /\ end_col s <= 6 /\
  span s = end_col s - start_col s + 1 /\
  start_col s = Z.max (toordinal (start_date ev)) a - a /\
  end_col s = Z.min (toordinal (end_date ev)) (a + 6) - a.
Proof.
  intros Hweek [Hvs Hve] (ws & we & k & Hh & Hl & Hle & ->).
  destruct (week_from_bounds a week Hweek)
    as (ws' & we' & Hh' & Hl' & Hvws & Hvwe & Hows & Howe).
  rewrite Hh in Hh'. rewrite Hl in Hl'.
  injection Hh' as <-. injection Hl' as <-.
  destruct (toordinal_max (start_date ev) ws Hvs Hvws) as [Hvmax Homax].
  destruct (toordinal_min (end_date ev) we Hve Hvwe) as [Hvmin Homin].
  apply leb_true_iff, toordinal_le_iff in Hle; [|done..].
  simpl. unfold diff_days. lia.
Qed.

Lemma segment_from_covers a week ev s (c : nat) d :
  week_from a week -> valid_prepared ev -> segment_from week ev s ->
  week !! c = Some d ->
  covers (Z.of_nat c) s = true <->
  date_le (start_date ev) d /\ date_le d (end_date ev).
Proof.
  intros Hweek Hev Hfrom Hd.
  destruct (segment_from_columns a week ev s Hweek Hev Hfrom)
    as (_ & _ & _ & _ & Hs & He).
  destruct (week_from_lookup a week c d Hweek Hd) as (Hvd & Hod & Hc).
  destruct Hev as [Hvs Hve].
  rewrite !toordinal_le_iff by done.
  unfold covers. rewrite andb_true_iff, !Z.leb_le. lia.
Qed.

End columns.

(** ** More on normalisation *)

Section more_normalisation.
Context `{IsoFormat}.
Import datetime datetime_facts.

Lemma inclusive_end_valid s e :
  valid s -> valid e ->
  valid (inclusive_end s e) /\
  toordinal (inclusive_end s e) =
  (if gtb e s then toordinal e - 1 else toordinal e).
Proof.
  intros Hs He. unfold inclusive_end. rewrite gtb_ltb.
  destruct (ltb_reflect s e) as [Hlt|]; [|done].
  apply toordinal_lt_iff in Hlt; [|done..].
  pose proof (toordinal_range s Hs). pose proof (toordinal_range e He).
  apply fromordinal_valid. lia.
Qed.

(** The loop body of [_prepare_events] on an event whose dates parse. *)
Lemma prepare_event_inclusive first last prepared ev s e :
  valid s -> valid e ->
  _to_date (raw_start ev) = Ok s -> _to_date (raw_end ev) = Ok e ->
  prepare_event first last prepared ev =
  Ok (if in_month first last s (inclusive_end s e)
      then prepared ++ [entry first last ev s (inclusive_end s e)]
      else prepared).
Proof.
  intros Hvs Hve Hs He.
  destruct (prepare_event_parsed first last prepared ev s e Hvs Hve Hs He)
    as (ei & Hv & H1 & H2 & _ & ->).
  replace (inclusive_end s e) with ei; [done|].
  unfold inclusive_end. rewrite gtb_ltb.
  destruct (ltb_reflect s e) as [Hlt|Hn]; [|by apply H2].
  rewrite <- (H1 Hlt). by rewrite fromordinal_toordinal.
Qed.

(** The three outcomes of the loop body. *)
Lemma prepare_event_outcome first last prepared ev :
  wf_event ev ->
  (malformed ev /\ prepare_event first last prepared ev = Ok prepared) \/
  exists s e,
    _to_date (raw_start ev) = Ok s /\ _to_date (raw_end ev) = Ok e /\
    valid s /\ valid e /\
    prepare_event first last prepared ev =
    Ok (if in_month first last s (inclusive_end s e)
        then prepared ++ [entry first last ev s (inclusive_end s e)]
        else prepared).
Proof.
  intros [Hws Hwe].
  destruct (_to_date (raw_start ev)) as [s|] eqn:Hs.
  - destruct (_to_date (raw_end ev)) as [e|] eqn:He.
    + right. exists s, e.
      pose proof (_to_date_valid _ _ Hws Hs). pose proof (_to_date_valid _ _ Hwe He).
      repeat split; try done. by apply prepare_event_inclusive.
    + left. assert (malformed ev) by (unfold malformed; by rewrite Hs, He).
      split; [done|]. by apply prepare_event_malformed.
  - left. assert (malformed ev) by (unfold malformed; by rewrite Hs).
    split; [done|]. by apply prepare_event_malformed.
Qed.

Lemma month_bounds_valid year month :
  MINYEAR <= year <= MAXYEAR -> 1 <= month <= 12 ->
  valid (first_of_month year month) /\ valid (last_of_month year month) /\
  date_le (first_of_month year month) (last_of_month year month).
Proof.
  intros Hy Hm. pose proof (_days_in_month_range year month Hm).
  split; [apply valid_day; lia|]. split; [apply valid_day; lia|].
  unfold first_of_month, last_of_month, date_le, date_lt. simpl. lia.
Qed.

Lemma _prepare_events_year year month events prepared :
  _prepare_events events year month = Ok prepared ->
  MINYEAR <= year <= MAXYEAR.
Proof.
  unfold _prepare_events.
  destruct (new year month 1) as [f|] eqn:E1; simpl; [|done].
  apply new_inv in E1 as [-> Hv1]. apply valid_fields in Hv1. simpl in Hv1.
  intros _. unfold MINYEAR, MAXYEAR. lia.
Qed.

(** The entries hold valid dates. *)
Lemma prepared_valid year month events prepared :
  Forall wf_event events ->
  _prepare_events events year month = Ok prepared ->
  Forall valid_prepared prepared.
Proof.
  intros Hwf Hprep.
  pose proof (_prepare_events_year _ _ _ _ Hprep) as Hy.
  destruct (_prepare_events_Ok_inv _ _ _ _ Hprep) as (_ & Hm & Hnext).
  rewrite _prepare_events_bounds in Hprep by (done || lia).
  destruct (month_bounds_valid year month Hy Hm) as (Hvf & Hvl & _).
  rewrite Forall_forall in Hwf.
  revert Hprep. apply for_each_inv; [|constructor].
  intros st ev st' Hev Hst Hstep.
  destruct (prepare_event_outcome (first_of_month year month)
              (last_of_month year month) st ev (Hwf ev Hev))
    as [[_ Heq]|(s & e & _ & _ & Hvs & Hve & Heq)];
    rewrite Heq in Hstep; injection Hstep as <-; [done|].
  destruct (in_month _ _ _ _); [|done].
  apply Forall_app. split; [done|]. constructor; [|constructor].
  destruct (inclusive_end_valid s e Hvs Hve) as [Hvi _].
  split; simpl.
  - by apply toordinal_max.
  - by apply toordinal_min.
Qed.

End more_normalisation.

(** ** The week rows of the grid *)

Lemma grid_weeks_week_from year month weeks :
  valid_year_month year month ->
  calendar.monthdatescalendar 6 year month = Ok weeks ->
  Forall (fun week => exists a, week_from a week) weeks.
Proof.
  intros Hv Hw.
  destruct (monthdatescalendar_Ok year month Hv) as (n & _ & _ & Hlen & Heq).
  rewrite Heq in Hw. injection Hw as <-.
  apply Forall_fmap, Forall_seq. intros k Hk. simpl.
  destruct (grid_row_ordinals year month n k) as (a & _ & Ho);
    [apply Hv|done|lia|].
  exists a. split; [|done].
  apply Forall_take, Forall_drop. by apply grid_dates_valid.
Qed.

(** ** The layout as a whole *)

Section layout.
Context `{IsoFormat}.

Lemma generate_month_image_inv year month events weeks wsegs :
  generate_month_image year month events = Ok (weeks, wsegs) ->
  exists prepared,
    calendar.monthdatescalendar 6 year month = Ok weeks /\
    _prepare_events events year month = Ok prepared /\
    build_segments weeks prepared = Ok wsegs.
Proof.
  unfold generate_month_image.
  destruct (calendar.monthdatescalendar 6 year month) as [mw|]; simpl; [|done].
  destruct (_prepare_events events year month) as [pe|]; simpl; [|done].
  destruct (build_segments mw pe) as [ws|] eqn:Hb; simpl; [|done].
  intros [= <- <-]. eauto.
Qed.

(** The entries lie within the month. *)
Lemma prepared_in_month year month events prepared :
  Forall wf_event events ->
  _prepare_events events year month = Ok prepared ->
  Forall (fun p =>
            date_le (first_of_month year month) (start_date p) /\
            date_le (end_date p) (last_of_month year month)) prepared.
Proof.
  intros Hwf Hprep.
  destruct (_prepare_events_Ok_inv _ _ _ _ Hprep) as (Hy & Hm & Hnext).
  rewrite _prepare_events_bounds in Hprep by done.
  rewrite Forall_forall in Hwf.
  revert Hprep. apply for_each_inv; [|constructor].
  intros st ev st' Hev Hst Hstep.
  apply prepare_event_step in Hstep
    as [->|(p & s & e & -> & _ & _ & H1 & _ & _ & H4 & _)];
    [done| |by apply Hwf].
  apply Forall_app. split; [done|]. by repeat constructor.
Qed.

Lemma in_month_is_current year month d :
  date_le (first_of_month year month) d ->
  date_le d (last_of_month year month) ->
  is_current_month year month d = true.
Proof.
  unfold is_current_month, first_of_month, last_of_month, date_le, date_lt.
  simpl. intros H1 H2. apply andb_true_iff. rewrite !Z.eqb_eq. lia.
Qed.

End layout.

(** ** Slots are filled from the bottom *)

Lemma slot_overlap_true_ex segs k a b :
  slot_overlap segs k a b = true ->
  exists seg, seg ∈ segs /\ slot seg = k /\
    overlaps a b (start_col seg) (end_col seg).
Proof.
  induction segs as [|seg segs IH]; simpl; [done|].
  destruct (slot seg =? k) eqn:Hk; simpl.
  - destruct (negb _) eqn:Ho.
    + intros _. exists seg. split; [by left|]. split; [lia|].
      apply negb_true_iff, orb_false_iff in Ho as [H1 H2].
      rewrite Z.gtb_ltb in H2. unfold overlaps. lia.
    + intros Hr. destruct (IH Hr) as (s' & Hin & Hs). exists s'.
      split; [by right|done].
  - intros Hr. destruct (IH Hr) as (s' & Hin & Hs). exists s'.
    split; [by right|done].
Qed.

Lemma find_slot_below segs a b k j :
  find_slot segs a b 3 = Some k -> 0 <= j < k ->
  exists seg, seg ∈ segs /\ slot seg = j /\
    overlaps a b (start_col seg) (end_col seg).
Proof.
  intros Hf Hj.
  pose proof (find_slot_spec segs a b 3 ltac:(lia)) as F. rewrite Hf in F.
  destruct F as (_ & _ & Hmin).
  apply slot_overlap_true_ex, slot_overlap_true. by apply Hmin.
Qed.

Lemma placed_filled_below segs :
  placed segs ->
  forall i s j, segs !! i = Some s -> 0 <= j < slot s ->
    exists i' s', (i' < i)%nat /\ segs !! i' = Some s' /\ slot s' = j /\
      seg_overlap s s'.
Proof.
  induction 1 as [|segs s0 _ IH Hf]; intros i s j Hi Hj.
  - by rewrite lookup_nil in Hi.
  - apply lookup_snoc_Some in Hi as [[Hlt Hi]|[-> <-]].
    + destruct (IH i s j Hi Hj) as (i' & s' & Hlt' & Hi' & Hs').
      exists i', s'. split; [done|]. split; [|done].
      by apply lookup_app_l_Some.
    + destruct (find_slot_below _ _ _ _ j Hf Hj) as (s' & Hin & Hs & Ho).
      apply list_elem_of_lookup in Hin as [i' Hi'].
      exists i', s'. split; [by eapply lookup_lt_Some|].
      split; [by apply lookup_app_l_Some|]. done.
Qed.

(** ** Rows only grow *)

Lemma for_each_place_prefix ev weeks : forall st st',
  for_each (place_segment ev) st (enumerate weeks) = Ok st' ->
  length st' = length st /\
  forall wi r, st !! wi = Some r ->
    exists r', st' !! wi = Some r' /\ r `prefix_of` r'.
Proof.
  intros st st'.
  apply (for_each_inv (fun st' =>
    length st' = length st /\
    forall wi r, st !! wi = Some r ->
      exists r', st' !! wi = Some r' /\ r `prefix_of` r')).
  - intros st1 [wi week] st2 Hin [Hlen HP] Hstep.
    apply enumerate_lookup in Hin as [Hwi _].
    apply place_segment_inv in Hstep as [->|(segs & s & Hsegs & -> & _)];
      [done| |done].
    split; [by rewrite length_insert|].
    intros wj r Hr. destruct (HP wj r Hr) as (r' & Hr' & Hpre).
    destruct (decide (wj = Z.to_nat wi)) as [->|Hne].
    + rewrite Hsegs in Hr'. injection Hr' as ->.
      exists (r' ++ [s]). split.
      * apply list_lookup_insert_eq. by eapply lookup_lt_Some.
      * by apply prefix_app_r.
    + exists r'. by rewrite list_lookup_insert_ne.
  - split; [done|]. intros wi r Hr. by exists r.
Qed.

Lemma build_segments_prefix weeks evs1 evs2 w2 :
  build_segments weeks (evs1 ++ evs2) = Ok w2 ->
  exists w1,
    build_segments weeks evs1 = Ok w1 /\
    forall wi r1, w1 !! wi = Some r1 ->
      exists r2, w2 !! wi = Some r2 /\ r1 `prefix_of` r2.
Proof.
  unfold build_segments. rewrite for_each_app.
  destruct (for_each _ _ evs1) as [w1|]; [|done].
  intros Hrest. exists w1. split; [done|].
  revert Hrest.
  apply (for_each_inv (fun st =>
    forall wi r1, w1 !! wi = Some r1 ->
      exists r2, st !! wi = Some r2 /\ r1 `prefix_of` r2)).
  - intros st ev st' _ HP Hstep.
    apply for_each_place_prefix in Hstep as [_ Hpre].
    intros wi r1 Hr1. destruct (HP wi r1 Hr1) as (r & Hr & Hp1).
    destruct (Hpre wi r Hr) as (r2 & Hr2 & Hp2).
    exists r2. split; [done|]. by etrans.
  - intros wi r1 Hr1. by exists r1.
Qed.

Ltac valid_year_month_tac :=
  unfold valid_year_month; simpl;
  unfold datetime.MINYEAR, datetime.MAXYEAR; lia.

(** ** [_prepare_events], event by event *)

Section per_event.
Context `{IsoFormat}.
Import datetime datetime_facts.

Lemma prepare_event_normalize first last prepared ev :
  wf_event ev ->
  prepare_event first last prepared ev =
  Ok (prepared ++ normalize first last ev).
Proof.
  intros Hwf. unfold normalize.
  destruct (prepare_event_outcome first last prepared ev Hwf)
    as [[Hm ->]|(s & e & Hs & He & _ & _ & ->)].
  - unfold malformed in Hm.
    destruct (_to_date (raw_start ev)); [|by rewrite app_nil_r].
    destruct (_to_date (raw_end ev)); [done|by rewrite app_nil_r].
  - rewrite Hs, He. destruct (in_month _ _ _ _); [done|by rewrite app_nil_r].
Qed.

Lemma for_each_prepare_normalize first last events : forall prepared,
  Forall wf_event events ->
  for_each (prepare_event first last) prepared events =
  Ok (prepared ++ concat (normalize first last <$> events)).
Proof.
  induction events as [|ev events IH]; intros prepared Hwf; simpl.
  - by rewrite app_nil_r.
  - apply Forall_cons in Hwf as [Hev Hwf].
    rewrite prepare_event_normalize by done. simpl.
    rewrite IH by done. by rewrite <- app_assoc.
Qed.

Lemma month_has_bounds_next year month :
  month_has_bounds year month ->
  MINYEAR <= year /\ 1 <= month <= 12 /\
  fst (calendar._nextmonth year month) <= MAXYEAR.
Proof.
  intros (Hy & Hm & Hn). split; [lia|]. split; [done|].
  unfold calendar._nextmonth. destruct (month =? 12) eqn:E; simpl; lia.
Qed.

Lemma _prepare_events_raises events year month :
  (~ month_has_bounds year month ->
   fits_c_int year && fits_c_int month = true ->
   _prepare_events events year month = Raise ValueError) /\
  (fits_c_int year && fits_c_int month = false ->
   _prepare_events events year month = Raise OverflowError).
Proof.
  unfold _prepare_events. split.
  - intros Hn Hf.
    assert (Hnew : new year month 1 =
                   if _check_date_fields year month 1
                   then Ok (mkdate year month 1) else Raise ValueError).
    { unfold new. change (fits_c_int 1) with true. by rewrite andb_true_r, Hf. }
    rewrite Hnew.
    destruct (_check_date_fields year month 1) eqn:E1; [|done]. simpl.
    assert (Hv : MINYEAR <= year <= MAXYEAR /\ 1 <= month <= 12).
    { unfold _check_date_fields in E1.
      rewrite !andb_true_iff, !Z.leb_le in E1. lia. }
    assert (year = MAXYEAR /\ month = 12) as [-> ->].
    { unfold month_has_bounds in Hn. lia. }
    reflexivity.
  - intros Hf.
    assert (Hnew : new year month 1 = Raise OverflowError).
    { unfold new. change (fits_c_int 1) with true. by rewrite andb_true_r, Hf. }
    by rewrite Hnew.
Qed.

End per_event.

Section more_per_event.
Context `{IsoFormat}.
Import datetime datetime_facts.

(** The loop body does not look at the entries it has. *)
Lemma prepare_event_acc first last prepared ev :
  prepare_event first last prepared ev =
  (prepared ++.) <$> prepare_event first last [] ev.
Proof.
  unfold prepare_event.
  destruct (_to_date (raw_start ev)) as [s|]; simpl; [|by rewrite app_nil_r].
  destruct (_to_date (raw_end ev)) as [e|]; simpl; [|by rewrite app_nil_r].
  destruct (if gtb e s then sub_days e 1 else Ok e) as [ei|]; simpl; [|done].
  destruct (_ && _); simpl; [done|by rewrite app_nil_r].
Qed.

Lemma for_each_prepare_acc first last events : forall prepared,
  for_each (prepare_event first last) prepared events =
  (prepared ++.) <$> for_each (prepare_event first last) [] events.
Proof.
  induction events as [|ev events IH]; intros prepared; simpl.
  - by rewrite app_nil_r.
  - rewrite (prepare_event_acc first last prepared ev).
    destruct (prepare_event first last [] ev) as [l|]; simpl; [|done].
    rewrite (IH (prepared ++ l)), (IH l).
    destruct (for_each (prepare_event first last) [] events); simpl; [|done].
    by rewrite app_assoc.
Qed.

Lemma prepare_event_title first last prepared ev prepared' :
  prepare_event first last prepared ev = Ok prepared' ->
  prepared' = prepared \/
  exists p, prepared' = prepared ++ [p] /\
    summary p = entry_summary ev /\ color_id p = raw_color_id ev.
Proof.
  unfold prepare_event.
  destruct (_to_date (raw_start ev)) as [s|]; simpl; [|intros [= <-]; by left].
  destruct (_to_date (raw_end ev)) as [e|]; simpl; [|intros [= <-]; by left].
  destruct (if gtb e s then sub_days e 1 else Ok e) as [ei|]; simpl; [|done].
  destruct (_ && _); intros [= <-]; [|by left].
  right. eexists. split; [done|]. done.
Qed.

Lemma for_each_prepare_titles first last events : forall prepared r,
  for_each (prepare_event first last) prepared events = Ok r ->
  exists t, r = prepared ++ t /\
    (summary <$> t) `sublist_of` (entry_summary <$> events).
Proof.
  induction events as [|ev events IH]; intros prepared r; simpl.
  - intros [= <-]. exists []. by rewrite app_nil_r.
  - destruct (prepare_event first last prepared ev) as [p1|] eqn:E; simpl; [|done].
    intros Hr. destruct (IH p1 r Hr) as (t & -> & Hsub).
    apply prepare_event_title in E as [->|(p & -> & Hs & _)].
    + exists t. split; [done|]. by apply sublist_cons.
    + exists (p :: t). split; [by rewrite <- app_assoc|].
      simpl. rewrite Hs. by apply sublist_skip.
Qed.

(** A day of the month is in the range of the entry of an event exactly
    when it is in the inclusive range of the event. *)
Lemma normalize_days first last ev s e d :
  _to_date (raw_start ev) = Ok s -> _to_date (raw_end ev) = Ok e ->
  date_le first last -> date_le first d -> date_le d last ->
  (exists p, p ∈ normalize first last ev /\
             date_le (start_date p) d /\ date_le d (end_date p)) <->
  date_le s d /\ date_le d (inclusive_end s e).
Proof.
  intros Hs He Hfl Hfd Hdl. unfold normalize. rewrite Hs, He.
  generalize (inclusive_end s e). intros ei.
  unfold in_month, entry.
  destruct (leb (datetime.max s first) last && geb (datetime.min ei last) first)
    eqn:Hin.
  - apply andb_true_iff in Hin as [H1 H2]. split.
    + intros (p & ->%list_elem_of_singleton & Hp1 & Hp2). simpl in *.
      clear - Hp1 Hp2 Hfd Hdl. date_order.
    + intros [H3 H4]. eexists. split; [by apply list_elem_of_singleton|].
      simpl. clear - H3 H4 Hfd Hdl. date_order.
  - split.
    + intros (p & Hp & _). by apply elem_of_nil in Hp.
    + intros [H3 H4]. exfalso. apply andb_false_iff in Hin.
      clear - Hin H3 H4 Hfd Hdl Hfl. destruct Hin as [Hin|Hin]; date_order.
Qed.

End more_per_event.

Lemma elem_of_concat {A} (x : A) (ls : list (list A)) :
  x ∈ concat ls <-> exists l, x ∈ l /\ l ∈ ls.
Proof.
  induction ls as [|l0 ls IH]; simpl.
  - split; [by intros ?%elem_of_nil | by intros (l & _ & ?%elem_of_nil)].
  - rewrite elem_of_app, IH. split.
    + intros [Hx|(l & Hx & Hl)]; [exists l0; split; [done|by left]|].
      exists l. split; [done|by right].
    + intros (l & Hx & [->|Hl]%elem_of_cons); [by left|right; eauto].
Qed.

(** [date_le] between two given dates. *)
Ltac date_le_closed :=
  let H := fresh in
  unfold date_le; intros H; vm_compute in H; intuition discriminate.

(** ** Geometry *)

Lemma int_max_6 n : n <= 6 -> int_max 6 n = 6.
Proof. intros Hn. unfold int_max. destruct (n >? 6) eqn:E; lia. Qed.

Lemma int_max_pos n : 6 <= int_max 6 n.
Proof. unfold int_max. destruct (n >? 6) eqn:E; lia. Qed.

Lemma cell_height_nonneg height max_weeks :
  220 <= height -> 0 <= cell_height height max_weeks.
Proof.
  intros Hh. unfold cell_height, grid_height, grid_start_y, title_y, header_height.
  pose proof (int_max_pos max_weeks).
  apply Z.div_pos; lia.
Qed.

(** The pill of a segment, with and without the widening to 40 pixels. *)
Lemma pill_cases width height max_weeks wi seg :
  let dw := day_width width in
  let l := grid_x + start_col seg * dw + 6 in
  let r := grid_x + (end_col seg + 1) * dw - 6 in
  let t := row_top height max_weeks wi + 32 + slot seg * 34 in
  (r - l < 40 /\
   pill width height max_weeks wi seg =
   mkrect ((l + r) / 2 - 20) t ((l + r) / 2 + 20) (t + 28)) \/
  (40 <= r - l /\
   pill width height max_weeks wi seg = mkrect l t r (t + 28)).
Proof.
  intros dw l r t. unfold pill. fold dw l r.
  change (40 / 2) with 20.
  destruct (r - l <? 40) eqn:E; [left|right]; (split; [lia|done]).
Qed.

Lemma pill_columns width height max_weeks wi seg :
  40 <= day_width width -> start_col seg <= end_col seg ->
  let p := pill width height max_weeks wi seg in
  grid_x + start_col seg * day_width width <= r_left p /\
  r_right p <= grid_x + (end_col seg + 1) * day_width width.
Proof.
  intros Hdw Hcols.
  assert (Hn : 0 <= (end_col seg - start_col seg) * day_width width)
    by (apply Z.mul_nonneg_nonneg; lia).
  destruct (pill_cases width height max_weeks wi seg) as [[Hw ->]|[Hw ->]];
    simpl; [|lia].
  split; Z.div_mod_to_equations; nia.
Qed.

Lemma pill_vertical width height max_weeks wi seg :
  let p := pill width height max_weeks wi seg in
  r_top p = row_top height max_weeks wi + 32 + slot seg * 34 /\
  r_bottom p = r_top p + 28.
Proof.
  destruct (pill_cases width height max_weeks wi seg) as [[_ ->]|[_ ->]]; done.
Qed.

Lemma pill_width_min width height max_weeks wi seg :
  40 <= r_right (pill width height max_weeks wi seg)
        - r_left (pill width height max_weeks wi seg).
Proof.
  destruct (pill_cases width height max_weeks wi seg) as [[_ ->]|[Hw ->]];
    simpl; lia.
Qed.

Lemma pill_not_widened width height max_weeks wi seg :
  52 <= day_width width -> start_col seg <= end_col seg ->
  pill width height max_weeks wi seg =
  mkrect (grid_x + start_col seg * day_width width + 6)
         (row_top height max_weeks wi + 32 + slot seg * 34)
         (grid_x + (end_col seg + 1) * day_width width - 6)
         (row_top height max_weeks wi + 32 + slot seg * 34 + 28).
Proof.
  intros Hdw Hcols.
  assert (Hn : 0 <= (end_col seg - start_col seg) * day_width width)
    by (apply Z.mul_nonneg_nonneg; lia).
  destruct (pill_cases width height max_weeks wi seg) as [[Hw _]|[_ ->]];
    [nia|done].
Qed.

Lemma day_width_grid width : 7 * day_width width <= grid_width width.
Proof. unfold day_width. Z.div_mod_to_equations. lia. Qed.

Lemma pills_apart width height max_weeks wi s1 s2 :
  40 <= day_width width ->
  start_col s1 <= end_col s1 -> start_col s2 <= end_col s2 ->
  (slot s1 = slot s2 -> ~ seg_overlap s1 s2) ->
  let p1 := pill width height max_weeks wi s1 in
  let p2 := pill width height max_weeks wi s2 in
  r_right p1 <= r_left p2 \/ r_right p2 <= r_left p1 \/
  r_bottom p1 + 6 <= r_top p2 \/ r_bottom p2 + 6 <= r_top p1.
Proof.
  intros Hdw Hc1 Hc2 Hclash p1 p2.
  destruct (pill_vertical width height max_weeks wi s1) as [Ht1 Hb1].
  destruct (pill_vertical width height max_weeks wi s2) as [Ht2 Hb2].
  destruct (pill_columns width height max_weeks wi s1 Hdw Hc1) as [Hl1 Hr1].
  destruct (pill_columns width height max_weeks wi s2 Hdw Hc2) as [Hl2 Hr2].
  fold p1 in Ht1, Hb1, Hl1, Hr1. fold p2 in Ht2, Hb2, Hl2, Hr2.
  destruct (Z.eq_dec (slot s1) (slot s2)) as [Heq|Hne]; [|lia].
  specialize (Hclash Heq). unfold seg_overlap, overlaps in Hclash.
  assert (end_col s1 + 1 <= start_col s2 \/ end_col s2 + 1 <= start_col s1)
    as [H|H] by lia.
  - left. apply (Z.mul_le_mono_nonneg_r _ _ (day_width width)) in H; lia.
  - right. left. apply (Z.mul_le_mono_nonneg_r _ _ (day_width width)) in H; lia.
Qed.

Lemma pill_in_row width height max_weeks wi seg :
  988 <= height -> max_weeks <= 6 -> 0 <= slot seg < 3 ->
  let p := pill width height max_weeks wi seg in
  row_top height max_weeks wi <= r_top p /\
  r_bottom p <= row_top height max_weeks (wi + 1).
Proof.
  intros Hh Hw Hs p.
  destruct (pill_vertical width height max_weeks wi seg) as [Ht Hb].
  fold p in Ht, Hb.
  assert (128 <= cell_height height max_weeks).
  { unfold cell_height, grid_height, grid_start_y, title_y, header_height.
    rewrite int_max_6 by done. Z.div_mod_to_equations. lia. }
  unfold row_top in *. lia.
Qed.

Lemma last_line_in_image height max_weeks :
  220 <= height -> 0 <= max_weeks <= 6 ->
  last_line_y height max_weeks <= height - 40.
Proof.
  intros Hh Hw. unfold last_line_y.
  pose proof (cell_height_nonneg height max_weeks Hh) as Hc.
  assert (6 * cell_height height max_weeks <= height - 220).
  { unfold cell_height, grid_height, grid_start_y, title_y, header_height.
    rewrite int_max_6 by lia. Z.div_mod_to_equations. lia. }
  unfold calendar_start_y, grid_start_y, title_y, header_height. nia.
Qed.

(** The segments of a layout, with what is known of each. *)
Lemma layout_segment `{IsoFormat} year month events weeks wsegs wi segs s :
  valid_year_month year month -> Forall wf_event events ->
  generate_month_image year month events = Ok (weeks, wsegs) ->
  wsegs !! wi = Some segs -> s ∈ segs ->
  4 <= len weeks <= 6 /\ (wi < length weeks)%nat /\ placed segs /\
  0 <= start_col s /\ start_col s <= end_col s /\ end_col s <= 6 /\
  0 <= slot s < 3.
Proof.
  intros Hv Hwf Hgen Hsegs Hs.
  destruct (generate_month_image_inv _ _ _ _ _ Hgen) as (prepared & Hw & Hp & Hb).
  destruct (build_segments_placed _ _ _ Hb) as [Hlen Hplaced].
  assert (Hwi : (wi < length weeks)%nat)
    by (rewrite <- Hlen; by eapply lookup_lt_Some).
  destruct (lookup_lt_is_Some_2 weeks wi Hwi) as [week Hweek].
  pose proof (build_segments_from_events _ _ _ Hb wi week segs Hweek Hsegs) as Hfrom.
  rewrite Forall_forall in Hfrom. destruct (Hfrom s Hs) as (ev & Hev & Hseg).
  pose proof (grid_weeks_week_from _ _ _ Hv Hw) as Hweeks.
  rewrite Forall_forall in Hweeks.
  destruct (Hweeks week) as [a Ha]; [apply list_elem_of_lookup; eauto|].
  pose proof (prepared_valid _ _ _ _ Hwf Hp) as Hvalid.
  rewrite Forall_forall in Hvalid.
  destruct (segment_from_columns a week ev s Ha (Hvalid ev Hev) Hseg)
    as (H1 & H2 & H3 & _).
  rewrite Forall_forall in Hplaced.
  assert (Hpl : placed segs) by (apply Hplaced, list_elem_of_lookup; eauto).
  pose proof (placed_slot_range segs Hpl) as Hslots.
  rewrite Forall_forall in Hslots. specialize (Hslots s Hs).
  destruct (monthdatescalendar_Ok year month Hv) as (n & Hn & _ & _ & Heq).
  rewrite Heq in Hw. injection Hw as <-.
  unfold len in *. rewrite length_fmap, length_seq in *.
  repeat split; try done; lia.
Qed.

Lemma grid_weeks_weekdays year month weeks :
  valid_year_month year month ->
  calendar.monthdatescalendar 6 year month = Ok weeks ->
  4 <= len weeks <= 6 /\
  Forall (fun week => datetime.weekday <$> week = [6; 0; 1; 2; 3; 4; 5]) weeks.
Proof.
  intros Hv Hw.
  destruct (monthdatescalendar_Ok year month Hv) as (n & Hn & _ & Hlen & Heq).
  rewrite Heq in Hw. injection Hw as <-.
  split; [unfold len; rewrite length_fmap, length_seq; lia|].
  apply Forall_fmap, Forall_seq. intros k Hk. simpl.
  destruct (grid_row_ordinals year month n k) as (s & Hs & Ho);
    [apply Hv|done|lia|].
  rewrite <- (weekdays_of_week s Hs), <- Ho, <- list_fmap_compose.
  by apply list_fmap_ext.
Qed.

(** *** The calendar service *)

Lemma _format_event_inv `{IsoFormat} event fe :
  _format_event event = Some fe ->
  datetime.valid (datetime.datetime_date (fe_start fe)) /\
  datetime.valid (datetime.datetime_date (fe_end fe)) /\
  fe_summary fe = default no_title_ko (api_summary event) /\
  fe_color_id fe = api_colorId event.
Proof.
  unfold _format_event.
  destruct (td_dateTime _) as [s|].
  - destruct (datetime_fromisoformat (replace_Z s)) as [sd|] eqn:Es; [|done].
    simpl. destruct (td_dateTime _) as [e|]; [|done]. simpl.
    destruct (datetime_fromisoformat (replace_Z e)) as [ed|] eqn:Ee; [|done].
    simpl. intros [= <-]. simpl.
    split_and!; [by eapply datetime_fromisoformat_valid..|done|done].
  - destruct (td_date _) as [s|]; [|done].
    destruct (datetime_fromisoformat s) as [sd|] eqn:Es; [|done].
    simpl. destruct (td_date _) as [e|]; [|done]. simpl.
    destruct (datetime_fromisoformat e) as [ed|] eqn:Ee; [|done].
    simpl. intros [= <-]. simpl.
    split_and!; [by eapply datetime_fromisoformat_valid..|done|done].
Qed.

Lemma format_events_wf `{IsoFormat} items :
  Forall wf_event (event_dict <$> format_events items).
Proof.
  apply Forall_fmap, Forall_forall. intros fe Hfe.
  apply list_elem_of_omap in Hfe as (item & _ & Hfe).
  apply _format_event_inv in Hfe as (Hs & He & _).
  by split.
Qed.

(** *** Change detection *)

Lemma check_calendar_updates_last last current :
  (check_calendar_updates last current).1 = current.
Proof.
  unfold check_calendar_updates.
  destruct (_ && _); [|done]. case_bool_decide; simpl; congruence.
Qed.

Lemma check_calendar_updates_posted last current :
  truthy last = true -> truthy current = true ->
  (check_calendar_updates last current).2 = negb (bool_decide (current = last)).
Proof.
  unfold check_calendar_updates. intros -> ->. simpl.
  by case_bool_decide.
Qed.

(** *** Colours *)

Lemma lstrip_hash_app h t :
  lstrip_hash h <> [] -> lstrip_hash (h ++ t) = lstrip_hash h ++ t.
Proof.
  induction h as [|c h IH]; simpl; [done|].
  destruct (N.eqb c 35); [exact IH|done].
Qed.

Lemma slice_app_short {A} (l t : list A) i j :
  0 <= i -> j <= len l -> slice (l ++ t) i j = slice l i j.
Proof.
  unfold slice, len. intros Hi Hj.
  destruct (decide (j <= i)) as [Hji|Hji].
  - by replace (Z.to_nat (j - i)) with 0%nat by lia.
  - rewrite drop_app_le by lia. rewrite take_app_le; [done|].
    rewrite length_drop. lia.
Qed.

Lemma _prepare_events_titles `{IsoFormat} year month events prepared :
  _prepare_events events year month = Ok prepared ->
  (summary <$> prepared) `sublist_of` (entry_summary <$> events).
Proof.
  unfold _prepare_events.
  destruct (datetime.new year month 1) as [first|]; simpl; [|done].
  destruct (if month =? 12 then _ else _) as [next|]; simpl; [|done].
  destruct (datetime.sub_days next 1) as [last|]; simpl; [|done].
  intros Hr. by apply for_each_prepare_titles in Hr as (t & -> & Hsub).
Qed.

Lemma format_events_titles `{IsoFormat} items :
  (entry_summary <$> (event_dict <$> format_events items))
  `sublist_of` ((fun item => default no_title_ko (api_summary item)) <$> items).
Proof.
  unfold format_events.
  induction items as [|item items IH]; simpl; [done|].
  destruct (_format_event item) as [fe|] eqn:E; simpl.
  - apply _format_event_inv in E as (_ & _ & Hs & _).
    unfold entry_summary at 1. simpl. rewrite Hs. by apply sublist_skip.
  - by apply sublist_cons.
Qed.

Lemma scheduled_checks_cons last current etags :
  scheduled_checks last (current :: etags) =
  ((scheduled_checks current etags).1,
   (check_calendar_updates last current).2 :: (scheduled_checks current etags).2).
Proof.
  simpl. pose proof (check_calendar_updates_last last current) as Hl.
  destruct (check_calendar_updates last current) as [l p]. simpl in Hl. subst l.
  by destruct (scheduled_checks current etags).
Qed.

(** * Further properties of the code *)

(** ** The segment loop *)

(** X1. In the layout of a valid month, every segment lies within its week
    row: its columns satisfy [0 <= start_col <= end_col <= 6], its span is
    the number of its columns, and its slot is 0, 1 or 2. *)
Theorem segment_columns_within_week `{IsoFormat} year month events weeks wsegs :
  valid_year_month year month -> Forall wf_event events ->
  generate_month_image year month events = Ok (weeks, wsegs) ->
  forall wi segs s,
    wsegs !! wi = Some segs -> s ∈ segs ->
    0 <= start_col s /\ start_col s <= end_col s /\ end_col s <= 6 /\
    span s = end_col s - start_col s + 1 /\ 0 <= slot s < 3.
Proof.
  intros Hv Hwf Hgen wi segs s Hsegs Hs.
  destruct (generate_month_image_inv _ _ _ _ _ Hgen) as (prepared & Hw & Hp & Hb).
  destruct (build_segments_placed _ _ _ Hb) as [Hlen Hplaced].
  destruct (lookup_lt_is_Some_2 weeks wi) as [week Hweek];
    [rewrite <- Hlen; by eapply lookup_lt_Some|].
  pose proof (build_segments_from_events _ _ _ Hb wi week segs Hweek Hsegs) as Hfrom.
  rewrite Forall_forall in Hfrom. destruct (Hfrom s Hs) as (ev & Hev & Hseg).
  pose proof (grid_weeks_week_from _ _ _ Hv Hw) as Hweeks.
  rewrite Forall_forall in Hweeks.
  destruct (Hweeks week) as [a Ha]; [apply list_elem_of_lookup; eauto|].
  pose proof (prepared_valid _ _ _ _ Hwf Hp) as Hvalid.
  rewrite Forall_forall in Hvalid.
  destruct (segment_from_columns a week ev s Ha (Hvalid ev Hev) Hseg)
    as (H1 & H2 & H3 & H4 & _).
  repeat split; try done.
  - rewrite Forall_forall in Hplaced.
    assert (Hpl : placed segs) by (apply Hplaced, list_elem_of_lookup; eauto).
    apply placed_slot_range in Hpl. rewrite Forall_forall in Hpl.
    by apply Hpl.
  - rewrite Forall_forall in Hplaced.
    assert (Hpl : placed segs) by (apply Hplaced, list_elem_of_lookup; eauto).
    apply placed_slot_range in Hpl. rewrite Forall_forall in Hpl.
    by apply Hpl.
Qed.

Lemma segment_columns_within_week_witness :
  let s := segment_of (one_day "d" (ymd 2024 3 7)) 4 1 0 in
  0 <= start_col s /\ start_col s <= end_col s /\ end_col s <= 6 /\
  span s = end_col s - start_col s + 1 /\ 0 <= slot s < 3.
Proof.
  refine (@segment_columns_within_week iso_date_only 2024 3 four_days
            _ _ _ _ _ 1%nat _ _ _ _).
  - valid_year_month_tac.
  - repeat constructor.
  - vm_compute. reflexivity.
  - reflexivity.
  - repeat constructor.
Defined.

(** X2. Every segment of the layout belongs to one prepared event, whose
    title and colour it carries, and covers exactly the days of its week row
    that lie between the start and the end of that event. *)
Theorem segment_covers_days_of_its_event
    `{IsoFormat} year month events weeks wsegs :
  valid_year_month year month -> Forall wf_event events ->
  generate_month_image year month events = Ok (weeks, wsegs) ->
  exists prepared,
    _prepare_events events year month = Ok prepared /\
    forall wi week segs s,
      weeks !! wi = Some week -> wsegs !! wi = Some segs -> s ∈ segs ->
      exists ev,
        ev ∈ prepared /\
        seg_summary s = summary ev /\ seg_color_id s = color_id ev /\
        forall (c : nat) d, week !! c = Some d ->
          covers (Z.of_nat c) s = true <->
          date_le (start_date ev) d /\ date_le d (end_date ev).
Proof.
  intros Hv Hwf Hgen.
  destruct (generate_month_image_inv _ _ _ _ _ Hgen) as (prepared & Hw & Hp & Hb).
  exists prepared. split; [done|].
  intros wi week segs s Hweek Hsegs Hs.
  pose proof (build_segments_from_events _ _ _ Hb wi week segs Hweek Hsegs) as Hfrom.
  rewrite Forall_forall in Hfrom. destruct (Hfrom s Hs) as (ev & Hev & Hseg).
  pose proof (grid_weeks_week_from _ _ _ Hv Hw) as Hweeks.
  rewrite Forall_forall in Hweeks.
  destruct (Hweeks week) as [a Ha]; [apply list_elem_of_lookup; eauto|].
  pose proof (prepared_valid _ _ _ _ Hwf Hp) as Hvalid.
  rewrite Forall_forall in Hvalid.
  exists ev. split; [done|].
  assert (seg_summary s = summary ev /\ seg_color_id s = color_id ev) as [E1 E2]
    by (destruct Hseg as (? & ? & ? & _ & _ & _ & ->); done).
  split; [done|]. split; [done|].
  intros c d Hd.
  exact (segment_from_covers a week ev s c d Ha (Hvalid ev Hev) Hseg Hd).
Qed.

Lemma segment_covers_days_of_its_event_witness :
  exists prepared,
    _prepare_events [all_day "w" "2024-03-08" "2024-03-12"] 2024 3 = Ok prepared /\
    forall wi week segs s,
      [ (ymd 2024 2 <$> seqZ 25 5) ++ (ymd 2024 3 <$> seqZ 1 2);
        ymd 2024 3 <$> seqZ 3 7; ymd 2024 3 <$> seqZ 10 7;
        ymd 2024 3 <$> seqZ 17 7; ymd 2024 3 <$> seqZ 24 7;
        ymd 2024 3 31 :: (ymd 2024 4 <$> seqZ 1 6) ] !! wi = Some week ->
      [ []; [segment_of (one_day "w" (ymd 2024 3 8)) 5 2 0];
        [segment_of (one_day "w" (ymd 2024 3 8)) 0 2 0]; []; []; [] ] !! wi
        = Some segs ->
      s ∈ segs ->
      exists ev,
        ev ∈ prepared /\
        seg_summary s = summary ev /\ seg_color_id s = color_id ev /\
        forall (c : nat) d, week !! c = Some d ->
          covers (Z.of_nat c) s = true <->
          date_le (start_date ev) d /\ date_le d (end_date ev).
Proof.
  apply (@segment_covers_days_of_its_event iso_date_only 2024 3
           [all_day "w" "2024-03-08" "2024-03-12"]).
  - valid_year_month_tac.
  - repeat constructor.
  - reflexivity.
Defined.

(** X3. A segment never covers a day of another month: every date of the
    grid under a pill passes the test [is_current_month]. *)
Theorem segments_cover_only_days_of_the_month
    `{IsoFormat} year month events weeks wsegs :
  valid_year_month year month -> Forall wf_event events ->
  generate_month_image year month events = Ok (weeks, wsegs) ->
  forall wi week segs s (c : nat) d,
    weeks !! wi = Some week -> wsegs !! wi = Some segs -> s ∈ segs ->
    week !! c = Some d -> covers (Z.of_nat c) s = true ->
    is_current_month year month d = true.
Proof.
  intros Hv Hwf Hgen wi week segs s c d Hweek Hsegs Hs Hd Hc.
  destruct (generate_month_image_inv _ _ _ _ _ Hgen) as (prepared & Hw & Hp & Hb).
  pose proof (build_segments_from_events _ _ _ Hb wi week segs Hweek Hsegs) as Hfrom.
  rewrite Forall_forall in Hfrom. destruct (Hfrom s Hs) as (ev & Hev & Hseg).
  pose proof (grid_weeks_week_from _ _ _ Hv Hw) as Hweeks.
  rewrite Forall_forall in Hweeks.
  destruct (Hweeks week) as [a Ha]; [apply list_elem_of_lookup; eauto|].
  pose proof (prepared_valid _ _ _ _ Hwf Hp) as Hvalid.
  rewrite Forall_forall in Hvalid.
  apply (segment_from_covers a week ev s c d Ha (Hvalid ev Hev) Hseg Hd) in Hc
    as [Hc1 Hc2].
  pose proof (prepared_in_month _ _ _ _ Hwf Hp) as Hin.
  rewrite Forall_forall in Hin. destruct (Hin ev Hev) as [H1 H2].
  apply in_month_is_current; eapply date_le_trans; eassumption.
Qed.

Lemma segments_cover_only_days_of_the_month_witness :
  is_current_month 2024 3 (ymd 2024 3 1) = true.
Proof.
  refine (@segments_cover_only_days_of_the_month iso_date_only 2024 3
            [all_day "t" "2024-02-27" "2024-03-03"] _ _ _ _ _
            0%nat _ _ (segment_of (one_day "t" (ymd 2024 3 1)) 5 2 0)
            5%nat (ymd 2024 3 1) _ _ _ _ _).
  - valid_year_month_tac.
  - repeat constructor.
  - vm_compute. reflexivity.
  - reflexivity.
  - reflexivity.
  - repeat constructor.
  - reflexivity.
  - reflexivity.
Defined.

(** X4. Rows only grow: the rows laid out for a list of events begin with
    the rows laid out for any prefix of the list.  Events further down the
    list never move, re-slot or remove a segment of an earlier event. *)
Theorem later_events_leave_earlier_segments weeks evs1 evs2 w2 :
  build_segments weeks (evs1 ++ evs2) = Ok w2 ->
  exists w1,
    build_segments weeks evs1 = Ok w1 /\
    forall wi r1, w1 !! wi = Some r1 ->
      exists r2, w2 !! wi = Some r2 /\ r1 `prefix_of` r2.
Proof. apply build_segments_prefix. Qed.

Lemma later_events_leave_earlier_segments_witness :
  exists w1,
    build_segments two_weeks [one_day "a" (ymd 2024 3 5)] = Ok w1 /\
    forall wi r1, w1 !! wi = Some r1 ->
      exists r2,
        [ [segment_of (one_day "a" (ymd 2024 3 5)) 2 1 0;
           segment_of (one_day "b" (ymd 2024 3 5)) 2 1 1;
           segment_of (one_day "c" (ymd 2024 3 5)) 2 1 2]; [] ] !! wi = Some r2 /\
        r1 `prefix_of` r2.
Proof.
  apply (later_events_leave_earlier_segments two_weeks
           [one_day "a" (ymd 2024 3 5)]
           [one_day "b" (ymd 2024 3 5); one_day "c" (ymd 2024 3 5);
            one_day "d" (ymd 2024 3 5)]).
  reflexivity.
Defined.

(** X5. Slots are filled from the bottom: a segment in slot [k] overlaps,
    for every slot below [k], a segment placed before it in the same row. *)
Theorem slots_are_filled_from_below weeks evs wsegs :
  build_segments weeks evs = Ok wsegs ->
  forall wi segs i s j,
    wsegs !! wi = Some segs -> segs !! i = Some s -> 0 <= j < slot s ->
    exists i' s',
      (i' < i)%nat /\ segs !! i' = Some s' /\ slot s' = j /\ seg_overlap s s'.
Proof.
  intros Hb wi segs i s j Hsegs Hi Hj.
  apply build_segments_placed in Hb as [_ Hall].
  rewrite Forall_forall in Hall.
  assert (Hp : placed segs) by (apply Hall, list_elem_of_lookup; eauto).
  by apply (placed_filled_below segs Hp i s j).
Qed.

Lemma slots_are_filled_from_below_witness :
  exists i' s',
    (i' < 2)%nat /\
    [segment_of (one_day "a" (ymd 2024 3 5)) 2 1 0;
     segment_of (one_day "b" (ymd 2024 3 5)) 2 1 1;
     segment_of (one_day "c" (ymd 2024 3 5)) 2 1 2] !! i' = Some s' /\
    slot s' = 1 /\
    seg_overlap (segment_of (one_day "c" (ymd 2024 3 5)) 2 1 2) s'.
Proof.
  refine (slots_are_filled_from_below two_weeks four_on_one_day _ _
            0%nat _ 2%nat _ 1 _ _ _).
  - reflexivity.
  - reflexivity.
  - reflexivity.
  - simpl. lia.
Defined.

(** X6. For a valid month and events whose date objects are valid,
    [generate_month_image] computes a layout whatever the events are: no
    start or end value, no overlap and no number of events makes it raise;
    and it returns one row of segments for each week row. *)
Theorem layout_never_fails `{IsoFormat} year month events :
  valid_year_month year month -> Forall wf_event events ->
  exists weeks wsegs,
    generate_month_image year month events = Ok (weeks, wsegs) /\
    length wsegs = length weeks.
Proof.
  intros Hv Hwf.
  destruct (generate_month_image_total year month events Hv Hwf)
    as (weeks & wsegs & Hgen).
  exists weeks, wsegs. split; [done|].
  destruct (generate_month_image_inv _ _ _ _ _ Hgen) as (prepared & _ & _ & Hb).
  by apply build_segments_placed in Hb as [Hlen _].
Qed.

Lemma layout_never_fails_witness :
  exists weeks wsegs,
    generate_month_image 2024 3
      [all_day "a" "2024-03-05" "2024-03-07";
       {| raw_summary := None; raw_start := PyNone; raw_end := PyInt 3;
          raw_color_id := None |};
       all_day "r" "2024-03-10" "2024-03-05"] = Ok (weeks, wsegs) /\
    length wsegs = length weeks.
Proof.
  apply (@layout_never_fails iso_date_only).
  - valid_year_month_tac.
  - repeat constructor.
Defined.

(** ** [_prepare_events] *)

(** X7. [_prepare_events] treats the events one by one: the result for two
    lists one after the other is the result for the first followed by the
    result for the second (and an exception of either is the exception of
    the whole). *)
Theorem prepare_events_of_concatenation `{IsoFormat} year month evs1 evs2 :
  _prepare_events (evs1 ++ evs2) year month =
  l1 ← _prepare_events evs1 year month;
  l2 ← _prepare_events evs2 year month;
  mret (l1 ++ l2).
Proof.
  unfold _prepare_events.
  destruct (datetime.new year month 1) as [first|]; simpl; [|done].
  destruct (if month =? 12 then _ else _) as [next|]; simpl; [|done].
  destruct (datetime.sub_days next 1) as [last|]; simpl; [|done].
  rewrite for_each_app.
  destruct (for_each (prepare_event first last) [] evs1) as [l1|]; simpl; [|done].
  rewrite for_each_prepare_acc.
  by destruct (for_each (prepare_event first last) [] evs2).
Qed.

(** X8. [_prepare_events] keeps the order of the events: the titles of the
    entries, in order, are a sublist of the titles of the events (the
    placeholder standing for a missing title). *)
Theorem prepare_events_keeps_order `{IsoFormat} year month events prepared :
  _prepare_events events year month = Ok prepared ->
  (summary <$> prepared) `sublist_of` (entry_summary <$> events).
Proof.
  unfold _prepare_events.
  destruct (datetime.new year month 1) as [first|]; simpl; [|done].
  destruct (if month =? 12 then _ else _) as [next|]; simpl; [|done].
  destruct (datetime.sub_days next 1) as [last|]; simpl; [|done].
  intros Hr. by apply for_each_prepare_titles in Hr as (t & -> & Hsub).
Qed.

Lemma prepare_events_keeps_order_witness :
  [str "b"; str "(No title)"] `sublist_of`
  [str "a"; str "b"; str "(No title)"].
Proof.
  apply (@prepare_events_keeps_order iso_date_only 2024 3
           [all_day "a" "2024-04-05" "2024-04-07";
            all_day "b" "2024-03-20" "2024-03-21";
            {| raw_summary := None; raw_start := PyDate (ymd 2024 3 1);
               raw_end := PyDate (ymd 2024 3 1); raw_color_id := None |}]
           [ {| summary := str "b"; start_date := ymd 2024 3 20;
                end_date := ymd 2024 3 20; color_id := None |};
             {| summary := str "(No title)"; start_date := ymd 2024 3 1;
                end_date := ymd 2024 3 1; color_id := None |} ]).
  reflexivity.
Defined.

(** X9. The prepared list marks exactly the days the events occupy: a day
    of the target month lies between the start and the end of some entry if
    and only if it lies between the start and the inclusive end of some
    event. *)
Theorem prepared_days_are_event_days `{IsoFormat} year month events prepared d :
  Forall wf_event events ->
  _prepare_events events year month = Ok prepared ->
  date_le (first_of_month year month) d ->
  date_le d (last_of_month year month) ->
  (exists p, p ∈ prepared /\ date_le (start_date p) d /\ date_le d (end_date p)) <->
  (exists ev s e,
     ev ∈ events /\
     _to_date (raw_start ev) = Ok s /\ _to_date (raw_end ev) = Ok e /\
     date_le s d /\ date_le d (inclusive_end s e)).
Proof.
  intros Hwf Hprep Hfd Hdl.
  pose proof (_prepare_events_year _ _ _ _ Hprep) as Hy.
  destruct (_prepare_events_Ok_inv _ _ _ _ Hprep) as (_ & Hm & Hnext).
  rewrite _prepare_events_bounds in Hprep by (done || lia).
  destruct (month_bounds_valid year month Hy Hm) as (_ & _ & Hfl).
  rewrite for_each_prepare_normalize in Hprep by done.
  injection Hprep as <-. simpl. split.
  - intros (p & Hp & Hd).
    apply elem_of_concat in Hp as (l & Hpl & Hl).
    apply list_elem_of_fmap in Hl as (ev & -> & Hev).
    assert (Hex : exists p, p ∈ normalize (first_of_month year month)
                              (last_of_month year month) ev /\
                       date_le (start_date p) d /\ date_le d (end_date p))
      by eauto.
    unfold normalize in Hpl.
    destruct (_to_date (raw_start ev)) as [s|] eqn:Hs;
      [|by apply elem_of_nil in Hpl].
    destruct (_to_date (raw_end ev)) as [e|] eqn:He;
      [|by apply elem_of_nil in Hpl].
    apply (normalize_days _ _ ev s e d Hs He Hfl Hfd Hdl) in Hex.
    exists ev, s, e. tauto.
  - intros (ev & s & e & Hev & Hs & He & Hd).
    apply (normalize_days _ _ ev s e d Hs He Hfl Hfd Hdl) in Hd
      as (p & Hp & Hd).
    exists p. split; [|done].
    apply elem_of_concat. eexists. split; [exact Hp|].
    apply list_elem_of_fmap. eauto.
Qed.

Lemma prepared_days_are_event_days_witness :
  (exists p,
     p ∈ [ {| summary := str "trip"; start_date := ymd 2024 3 1;
              end_date := ymd 2024 3 2; color_id := None |} ] /\
     date_le (start_date p) (ymd 2024 3 2) /\
     date_le (ymd 2024 3 2) (end_date p)) <->
  (exists ev s e,
     ev ∈ [all_day "trip" "2024-02-27" "2024-03-03"] /\
     _to_date (raw_start ev) = Ok s /\ _to_date (raw_end ev) = Ok e /\
     date_le s (ymd 2024 3 2) /\ date_le (ymd 2024 3 2) (inclusive_end s e)).
Proof.
  apply (@prepared_days_are_event_days iso_date_only 2024 3).
  - repeat constructor.
  - reflexivity.
  - date_le_closed.
  - date_le_closed.
Defined.

(** X10. [_prepare_events] fails exactly for the months that have no first
    day or no following month among the date objects, whatever the events,
    even for no events: with [OverflowError] when the year or the month does
    not fit a C [int], and with [ValueError] otherwise (month outside 1..12,
    year outside 1..9999, December 9999); for every other month it returns a
    list. *)
Theorem prepare_events_fails_on_bad_months_only `{IsoFormat} year month events :
  (month_has_bounds year month -> Forall wf_event events ->
   exists prepared, _prepare_events events year month = Ok prepared) /\
  (~ month_has_bounds year month ->
   datetime.fits_c_int year && datetime.fits_c_int month = true ->
   _prepare_events events year month = Raise ValueError) /\
  (datetime.fits_c_int year && datetime.fits_c_int month = false ->
   _prepare_events events year month = Raise OverflowError).
Proof.
  split; [|apply _prepare_events_raises].
  intros Hb Hwf. destruct (month_has_bounds_next _ _ Hb) as (Hy & Hm & Hn).
  rewrite _prepare_events_bounds by done.
  by apply for_each_prepare_total.
Qed.

Lemma prepare_events_fails_on_bad_months_only_witness :
  (exists prepared,
     _prepare_events [all_day "a" "2024-03-05" "2024-03-07"] 2024 3
     = Ok prepared) /\
  _prepare_events [] 2024 13 = Raise ValueError /\
  _prepare_events [] 9999 12 = Raise ValueError /\
  _prepare_events [] (2 ^ 31) 1 = Raise OverflowError.
Proof.
  split; [|split; [|split]].
  - apply (@prepare_events_fails_on_bad_months_only iso_date_only 2024 3).
    + unfold month_has_bounds, datetime.MINYEAR, datetime.MAXYEAR. lia.
    + repeat constructor.
  - apply (@prepare_events_fails_on_bad_months_only iso_date_only 2024 13 []).
    + unfold month_has_bounds, datetime.MINYEAR, datetime.MAXYEAR. lia.
    + reflexivity.
  - apply (@prepare_events_fails_on_bad_months_only iso_date_only 9999 12 []).
    + unfold month_has_bounds, datetime.MINYEAR, datetime.MAXYEAR. lia.
    + reflexivity.
  - apply (@prepare_events_fails_on_bad_months_only iso_date_only (2 ^ 31) 1 []).
    reflexivity.
Defined.

(** ** The geometry of the pills *)

(** X11. Every pill is 28 pixels high and at least 40 pixels wide, whatever
    the size of the image and the columns of the segment. *)
Theorem pill_has_minimum_size width height max_weeks wi seg :
  40 <= r_right (pill width height max_weeks wi seg)
        - r_left (pill width height max_weeks wi seg) /\
  r_bottom (pill width height max_weeks wi seg)
  - r_top (pill width height max_weeks wi seg) = 28.
Proof.
  split; [apply pill_width_min|].
  destruct (pill_vertical width height max_weeks wi seg) as [_ Hb]. lia.
Qed.

(** X12. A pill is widened exactly when the columns of its segment are less
    than 52 pixels wide together: otherwise it is these columns less 6
    pixels on each side, and when widened it is exactly 40 pixels wide. *)
Theorem pill_widened_only_when_narrow width height max_weeks wi seg :
  let p := pill width height max_weeks wi seg in
  let n := end_col seg - start_col seg + 1 in
  (52 <= n * day_width width ->
   r_left p = cell_x width (start_col seg) + 6 /\
   r_right p = cell_x width (end_col seg + 1) - 6) /\
  (n * day_width width < 52 -> r_right p - r_left p = 40).
Proof.
  intros p n. subst p n. unfold cell_x.
  destruct (pill_cases width height max_weeks wi seg) as [[Hw ->]|[Hw ->]];
    simpl; split; intros Hn; try lia.
Qed.

Lemma pill_widened_only_when_narrow_witness :
  (r_left (pill 1200 1400 6 1 (segment_of (one_day "a" (ymd 2024 3 5)) 2 1 0))
   = cell_x 1200 2 + 6 /\
   r_right (pill 1200 1400 6 1 (segment_of (one_day "a" (ymd 2024 3 5)) 2 1 0))
   = cell_x 1200 (2 + 1 - 1 + 1) - 6) /\
  r_right (pill 300 1400 6 1 (segment_of (one_day "a" (ymd 2024 3 5)) 2 1 0))
  - r_left (pill 300 1400 6 1 (segment_of (one_day "a" (ymd 2024 3 5)) 2 1 0))
  = 40.
Proof.
  split.
  - apply (pill_widened_only_when_narrow 1200 1400 6 1
             (segment_of (one_day "a" (ymd 2024 3 5)) 2 1 0)).
    vm_compute. discriminate.
  - apply (pill_widened_only_when_narrow 300 1400 6 1
             (segment_of (one_day "a" (ymd 2024 3 5)) 2 1 0)).
    vm_compute. reflexivity.
Defined.

(** X13. With an image at least 360 wide and 988 high, every pill of the
    layout of a valid month is drawn inside the columns of its segment, hence
    inside the grid, and inside its own week row, above the line under the
    last row. *)
Theorem pills_stay_in_their_cells
    `{IsoFormat} width height year month events weeks wsegs :
  360 <= width -> 988 <= height ->
  valid_year_month year month -> Forall wf_event events ->
  generate_month_image year month events = Ok (weeks, wsegs) ->
  forall (wi : nat) segs s,
    wsegs !! wi = Some segs -> s ∈ segs ->
    let p := pill width height (len weeks) (Z.of_nat wi) s in
    cell_x width (start_col s) <= r_left p /\
    r_right p <= cell_x width (end_col s + 1) /\
    grid_x <= r_left p /\ r_right p <= grid_x + grid_width width /\
    row_top height (len weeks) (Z.of_nat wi) <= r_top p /\
    r_bottom p <= row_top height (len weeks) (Z.of_nat wi + 1) /\
    r_bottom p <= last_line_y height (len weeks).
Proof.
  intros Hwd Hht Hv Hwf Hgen wi segs s Hsegs Hs p.
  destruct (layout_segment _ _ _ _ _ _ _ _ Hv Hwf Hgen Hsegs Hs)
    as (Hn & Hwi & _ & H1 & H2 & H3 & Hslot).
  assert (Hdw : 40 <= day_width width)
    by (unfold day_width, grid_width; Z.div_mod_to_equations; lia).
  destruct (pill_columns width height (len weeks) (Z.of_nat wi) s Hdw H2)
    as [Hl Hr].
  destruct (pill_in_row width height (len weeks) (Z.of_nat wi) s Hht
              ltac:(lia) Hslot) as [Ht Hb].
  fold p in Hl, Hr, Ht, Hb. unfold cell_x.
  pose proof (day_width_grid width) as Hg.
  assert (0 <= start_col s * day_width width) by (apply Z.mul_nonneg_nonneg; lia).
  assert ((end_col s + 1) * day_width width <= 7 * day_width width)
    by (apply Z.mul_le_mono_nonneg_r; lia).
  assert (Hch : 0 <= cell_height height (len weeks))
    by (apply cell_height_nonneg; lia).
  assert ((Z.of_nat wi + 1) * cell_height height (len weeks)
          <= len weeks * cell_height height (len weeks))
    by (apply Z.mul_le_mono_nonneg_r; [exact Hch | unfold len; lia]).
  unfold last_line_y, row_top in *. repeat split; lia.
Qed.

Lemma pills_stay_in_their_cells_witness :
  let s := segment_of (one_day "d" (ymd 2024 3 7)) 4 1 0 in
  let p := pill 1200 1400 (len march_2024_weeks) (Z.of_nat 1) s in
  cell_x 1200 (start_col s) <= r_left p /\
  r_right p <= cell_x 1200 (end_col s + 1) /\
  grid_x <= r_left p /\ r_right p <= grid_x + grid_width 1200 /\
  row_top 1400 (len march_2024_weeks) (Z.of_nat 1) <= r_top p /\
  r_bottom p <= row_top 1400 (len march_2024_weeks) (Z.of_nat 1 + 1) /\
  r_bottom p <= last_line_y 1400 (len march_2024_weeks).
Proof.
  intros s.
  refine (@pills_stay_in_their_cells iso_date_only 1200 1400 2024 3 four_days
            march_2024_weeks four_days_rows _ _ _ _ _ 1%nat _ s _ _).
  - lia.
  - lia.
  - valid_year_month_tac.
  - repeat constructor.
  - vm_compute. reflexivity.
  - vm_compute. reflexivity.
  - subst s. repeat constructor.
Defined.

(** X14. With an image at least 360 wide, two pills of one week row never
    run into each other: pills of one slot lie side by side, and pills of
    different slots are at least 6 pixels apart vertically. *)
Theorem pills_of_a_row_do_not_collide
    `{IsoFormat} width height year month events weeks wsegs :
  360 <= width ->
  valid_year_month year month -> Forall wf_event events ->
  generate_month_image year month events = Ok (weeks, wsegs) ->
  forall (wi : nat) segs i j s1 s2,
    wsegs !! wi = Some segs ->
    i <> j -> segs !! i = Some s1 -> segs !! j = Some s2 ->
    let p1 := pill width height (len weeks) (Z.of_nat wi) s1 in
    let p2 := pill width height (len weeks) (Z.of_nat wi) s2 in
    r_right p1 <= r_left p2 \/ r_right p2 <= r_left p1 \/
    r_bottom p1 + 6 <= r_top p2 \/ r_bottom p2 + 6 <= r_top p1.
Proof.
  intros Hwd Hv Hwf Hgen wi segs i j s1 s2 Hsegs Hij Hi Hj.
  assert (Hs1 : s1 ∈ segs) by (apply list_elem_of_lookup; eauto).
  assert (Hs2 : s2 ∈ segs) by (apply list_elem_of_lookup; eauto).
  destruct (layout_segment _ _ _ _ _ _ _ _ Hv Hwf Hgen Hsegs Hs1)
    as (_ & _ & Hpl & _ & Hc1 & _).
  destruct (layout_segment _ _ _ _ _ _ _ _ Hv Hwf Hgen Hsegs Hs2)
    as (_ & _ & _ & _ & Hc2 & _).
  apply pills_apart; try done.
  - unfold day_width, grid_width. Z.div_mod_to_equations. lia.
  - intros Heq. by apply (placed_no_clash segs Hpl i j).
Qed.

Lemma pills_of_a_row_do_not_collide_witness :
  let s1 := segment_of (one_day "a" (ymd 2024 3 4)) 1 1 0 in
  let s2 := segment_of (one_day "d" (ymd 2024 3 7)) 4 1 0 in
  let p1 := pill 1200 1400 (len march_2024_weeks) (Z.of_nat 1) s1 in
  let p2 := pill 1200 1400 (len march_2024_weeks) (Z.of_nat 1) s2 in
  r_right p1 <= r_left p2 \/ r_right p2 <= r_left p1 \/
  r_bottom p1 + 6 <= r_top p2 \/ r_bottom p2 + 6 <= r_top p1.
Proof.
  intros s1 s2.
  refine (@pills_of_a_row_do_not_collide iso_date_only 1200 1400 2024 3
            four_days march_2024_weeks four_days_rows _ _ _ _
            1%nat _ 0%nat 3%nat s1 s2 _ _ _ _).
  - lia.
  - valid_year_month_tac.
  - repeat constructor.
  - vm_compute. reflexivity.
  - vm_compute. reflexivity.
  - lia.
  - reflexivity.
  - reflexivity.
Defined.

(** X15. The height of a week row does not depend on the month: a valid
    month has at most six week rows, so the rows are always a sixth of the
    space under the header; and in an image at least 220 high the line under
    the last row leaves the bottom margin of 40 pixels free. *)
Theorem week_rows_fit_the_image height year month weeks :
  valid_year_month year month ->
  calendar.monthdatescalendar 6 year month = Ok weeks ->
  cell_height height (len weeks) = (height - 220) / 6 /\
  (220 <= height -> last_line_y height (len weeks) <= height - 40).
Proof.
  intros Hv Hw. destruct (grid_weeks_weekdays _ _ _ Hv Hw) as [Hn _].
  split.
  - unfold cell_height. rewrite int_max_6 by lia.
    unfold grid_height, grid_start_y, title_y, header_height. f_equal. lia.
  - intros Hh. apply last_line_in_image; lia.
Qed.

Lemma week_rows_fit_the_image_witness :
  cell_height 1400 (len march_2024_weeks) = (1400 - 220) / 6 /\
  (220 <= 1400 -> last_line_y 1400 (len march_2024_weeks) <= 1400 - 40).
Proof.
  apply (week_rows_fit_the_image 1400 2024 3 march_2024_weeks).
  - valid_year_month_tac.
  - vm_compute. reflexivity.
Defined.

(** X16. The text of a pill is centred only up to the offsets of its
    bounding box: the code centres a box of the size of [textbbox((0, 0))],
    but draws at the corner of that box without subtracting the left and top
    of the bounding box.  So the free space right of (below) the ink less the
    free space left of (above) it is the parity of the slack less twice the
    left (top) offset, and the ink is centred within a pixel exactly when the
    offset is 0. *)
Theorem pill_text_off_centre_by_bbox_offset (p tb : rect) :
  let ink := text_ink p tb in
  let dx := (r_right p - r_right ink) - (r_left ink - r_left p) in
  let dy := (r_bottom p - r_bottom ink) - (r_top ink - r_top p) in
  dx = (r_right p - r_left p - (r_right tb - r_left tb)) mod 2 - 2 * r_left tb /\
  dy = (r_bottom p - r_top p - (r_bottom tb - r_top tb)) mod 2 - 2 * r_top tb /\
  (0 <= dx <= 1 <-> r_left tb = 0) /\
  (0 <= dy <= 1 <-> r_top tb = 0).
Proof.
  unfold text_ink, text_x, text_y. simpl.
  repeat split; intros; Z.div_mod_to_equations; lia.
Qed.

(** A text box 18 high that begins 4 pixels under the drawing position, in a
    pill 28 high: the ink has 9 pixels above it and 1 pixel below. *)
Example text_ink_with_top_offset :
  let p := {| r_left := 100; r_top := 200; r_right := 260; r_bottom := 228 |} in
  let ink := text_ink p {| r_left := 0; r_top := 4; r_right := 40; r_bottom := 22 |} in
  r_top ink - r_top p = 9 /\ r_bottom p - r_bottom ink = 1.
Proof. by vm_compute. Qed.

(** X17. The day numbers of a column have the colour of the day name above
    it: in the grid of a valid month, a date of the month in column [di] is
    drawn in the colour of [weekdays[di]], so Sundays are in the first column
    and Saturdays in the last. *)
Theorem day_numbers_match_their_header year month weeks :
  valid_year_month year month ->
  calendar.monthdatescalendar 6 year month = Ok weeks ->
  forall week (di : nat) cell_date day,
    week ∈ weeks -> week !! di = Some cell_date ->
    weekdays !! di = Some day ->
    is_current_month year month cell_date = true ->
    date_color year month cell_date = header_day_color day.
Proof.
  intros Hv Hw week di cell_date day Hweek Hcell Hday Hcur.
  destruct (grid_weeks_weekdays _ _ _ Hv Hw) as [_ Hall].
  rewrite Forall_forall in Hall. specialize (Hall week Hweek).
  assert (Hwd : [6; 0; 1; 2; 3; 4; 5] !! di = Some (datetime.weekday cell_date))
    by (rewrite <- Hall, list_lookup_fmap, Hcell; done).
  unfold date_color. rewrite Hcur.
  unfold weekdays in Hday.
  destruct di as [|[|[|[|[|[|[|?]]]]]]]; simpl in Hwd, Hday; try done;
    injection Hwd as <-; injection Hday as <-; reflexivity.
Qed.

Lemma day_numbers_match_their_header_witness :
  date_color 2024 3 (ymd 2024 3 9) = header_day_color "SAT".
Proof.
  refine (day_numbers_match_their_header 2024 3 march_2024_weeks _ _
            (ymd 2024 3 <$> seqZ 3 7) 6%nat (ymd 2024 3 9) "SAT"%string
            _ _ _ _).
  - valid_year_month_tac.
  - vm_compute. reflexivity.
  - vm_compute. repeat constructor.
  - reflexivity.
  - reflexivity.
  - reflexivity.
Defined.

(** X18. What the calendar service returns is never skipped as malformed
    by [_prepare_events]: every event [_format_event] returns has a start and an
    end that [_to_date] accepts, so for a valid month the layout of the
    events of [get_events_for_month] is computed without an exception,
    whatever the items of the API were. *)
Theorem service_events_are_well_formed `{IsoFormat} year month items :
  valid_year_month year month ->
  (forall ev, ev ∈ event_dict <$> format_events items ->
     wf_event ev /\ ~ malformed ev) /\
  exists weeks wsegs, month_layout year month items = Ok (weeks, wsegs).
Proof.
  intros Hv. pose proof (format_events_wf items) as Hwf. split.
  - intros ev Hev. split; [by eapply Forall_forall in Hwf|].
    apply list_elem_of_fmap in Hev as (fe & -> & _).
    unfold malformed. simpl. done.
  - by apply generate_month_image_total.
Qed.

Lemma service_events_are_well_formed_witness :
  (forall ev, ev ∈ event_dict <$> format_events march_items ->
     wf_event ev /\ ~ malformed ev) /\
  exists weeks wsegs, month_layout 2024 3 march_items = Ok (weeks, wsegs).
Proof.
  apply (@service_events_are_well_formed iso_date_only 2024 3 march_items).
  valid_year_month_tac.
Defined.

(** X19. The titles in the image are the titles of the calendar: the titles
    of the prepared entries are, in order, a sublist of the ['summary'] values
    of the API's items, with ['(제목 없음)'] for an item without summary; the
    placeholder ['(No title)'] of [_prepare_events] is never used for events
    of the calendar service. *)
Theorem service_titles_reach_the_image `{IsoFormat} year month items prepared :
  _prepare_events (event_dict <$> format_events items) year month = Ok prepared ->
  (summary <$> prepared) `sublist_of`
  ((fun item => default no_title_ko (api_summary item)) <$> items).
Proof.
  intros Hp. apply _prepare_events_titles in Hp.
  etransitivity; [exact Hp|apply format_events_titles].
Qed.

Lemma service_titles_reach_the_image_witness :
  [str "trip"; no_title_ko] `sublist_of` [str "trip"; str "void"; no_title_ko].
Proof.
  apply (@service_titles_reach_the_image iso_date_only 2024 3 march_items
           [ {| summary := str "trip"; start_date := ymd 2024 3 5;
                end_date := ymd 2024 3 6; color_id := None |};
             {| summary := no_title_ko; start_date := ymd 2024 3 20;
                end_date := ymd 2024 3 20; color_id := None |} ]).
  vm_compute. reflexivity.
Defined.

(** X20. After a run of [check_calendar_updates] the remembered ETag is the
    one that run read, also when it did not post; so after any number of
    checks [last_calendar_etag] is what the last check read. *)
Theorem remembered_etag_is_the_last_read etag0 etags :
  (scheduled_checks etag0 etags).1 = default etag0 (last etags).
Proof.
  revert etag0. induction etags as [|e etags IH]; intros etag0; [done|].
  rewrite scheduled_checks_cons. cbn [fst]. rewrite IH.
  destruct etags as [|e' etags]; [done|]. rewrite last_cons_cons.
  destruct (last (e' :: etags)) eqn:E; [done|]. by apply last_None in E.
Qed.

(** X21. Once an ETag is known and every read succeeds, a check posts
    exactly when the ETag it read differs from the one of the check before:
    an unchanged calendar is not posted again, and every change is posted. *)
Theorem posts_follow_etag_changes etag0 etags :
  truthy etag0 = true -> Forall (fun e => truthy e = true) etags ->
  (scheduled_checks etag0 etags).2 = changes etag0 etags.
Proof.
  revert etag0. induction etags as [|e etags IH]; intros etag0 H0 Hall; [done|].
  apply Forall_cons in Hall as [He Hall].
  rewrite scheduled_checks_cons. cbn [snd changes].
  rewrite check_calendar_updates_posted, IH; done.
Qed.

Lemma posts_follow_etag_changes_witness :
  (scheduled_checks (Some (str "a")) [Some (str "a"); Some (str "b"); Some (str "b")]).2
  = changes (Some (str "a")) [Some (str "a"); Some (str "b"); Some (str "b")].
Proof.
  apply (posts_follow_etag_changes (Some (str "a"))
           [Some (str "a"); Some (str "b"); Some (str "b")]).
  - reflexivity.
  - repeat constructor.
Defined.

(** X22. Without an ETag there is no change detection: a check posts when
    no ETag is remembered (as at the first check after the start, where
    [last_calendar_etag] is still [None]), and when reading the ETag fails
    (or gives an empty one) both that check and the one after it post,
    whatever the next one reads. *)
Theorem check_without_etag_posts etag0 current next :
  (truthy etag0 = false -> (check_calendar_updates etag0 current).2 = true) /\
  (truthy current = false ->
   (scheduled_checks etag0 [current; next]).2 = [true; true]).
Proof.
  split.
  - intros H0. unfold check_calendar_updates. rewrite H0.
    by rewrite andb_false_r.
  - intros Hc. rewrite !scheduled_checks_cons. cbn [snd scheduled_checks].
    unfold check_calendar_updates. rewrite Hc. cbn [andb].
    by rewrite andb_false_r.
Qed.

Lemma check_without_etag_posts_witness :
  (check_calendar_updates None (Some (str "a"))).2 = true /\
  (scheduled_checks (Some (str "a")) [None; Some (str "a")]).2 = [true; true].
Proof.
  split.
  - apply (proj1 (check_without_etag_posts None (Some (str "a")) None)).
    reflexivity.
  - apply (proj2 (check_without_etag_posts (Some (str "a")) None (Some (str "a")))).
    reflexivity.
Defined.

(** X23. [_hex_to_rgb] reads six characters only: leading ['#'] characters,
    however many, and everything after the sixth character that follows them
    do not change the colour (so an alpha channel is ignored). *)
Theorem hex_colour_reads_six_characters `{Base16} hex_color tail :
  _hex_to_rgb (35%N :: hex_color) = _hex_to_rgb hex_color /\
  (6 <= len (lstrip_hash hex_color) ->
   _hex_to_rgb (hex_color ++ tail) = _hex_to_rgb hex_color).
Proof.
  split; [done|]. intros Hlen. unfold _hex_to_rgb.
  rewrite lstrip_hash_app by (intros E; rewrite E in Hlen; unfold len in Hlen;
                              simpl in Hlen; lia).
  by rewrite !slice_app_short by lia.
Qed.

Lemma hex_colour_reads_six_characters_witness :
  @_hex_to_rgb hex_pair (35%N :: str "#FDFEF0") = Ok (253, 254, 240) /\
  @_hex_to_rgb hex_pair (str "#FDFEF0" ++ str "80") = Ok (253, 254, 240).
Proof.
  split.
  - rewrite (proj1 (@hex_colour_reads_six_characters hex_pair (str "#FDFEF0") [])).
    reflexivity.
  - rewrite (proj2 (@hex_colour_reads_six_characters hex_pair (str "#FDFEF0")
                      (str "80"))).
    + reflexivity.
    + vm_compute. discriminate.
Defined.
